(** * Verification-payload protocol of the document attestation backend

    Shallow embedding of [backend/services/zk_proof.py],
    [backend/services/signature.py], [backend/services/qr_payload.py],
    [backend/services/text_processing.py] and of the verification part of
    [backend/main.py], followed by the properties established about them.

    Conventions.
    - A Python [str] is the list of its code points ([ustr]); a Python
      [bytes] is a list of 8-bit integers ([bytes]).  Both are lists of [Z].
    - A Python call either returns or raises: [result A] is [Returned a]
      or [Raised e].
    - The third-party packages the code imports (hashlib, hmac, base64,
      json, ecdsa, unicodedata) are modelled after their documented
      behaviour; the functions of the repository are translated line by
      line on top of them. *)

From Stdlib Require Import String Ascii.
From Stdlib Require Import ZArith List Lia Bool.
From Stdlib Require Import Permutation Sorted Znumtheory.
From Stdlib Require DecimalPos DecimalFacts.
From Bignums Require Import BigZ.
Import ListNotations.
Open Scope Z_scope.

Set Implicit Arguments.
Set Warnings "-register-all".

(** ** Python values, exceptions and built-ins *)

Module Py.

Definition ustr := list Z.
Definition bytes := list Z.

(** A literal: the code points of an ASCII (Latin-1) string. *)
Fixpoint str (s : string) : ustr :=
  match s with
  | EmptyString => []
  | String c s' => Z.of_N (N_of_ascii c) :: str s'
  end.

Inductive exn : Set :=
| ValueError
| TypeError
| KeyError
| OverflowError
| AssertionError
| AttributeError
| UnicodeEncodeError
| UnicodeDecodeError
| BinasciiError
| JSONDecodeError
| MalformedPointError
| ValidationError
| Unmodelled
| OSError.

(** [except ValueError] also catches the subclasses of [ValueError]. *)
Definition is_ValueError (e : exn) : bool :=
  match e with
  | ValueError | UnicodeEncodeError | UnicodeDecodeError
  | BinasciiError | JSONDecodeError | ValidationError => true
  | _ => false
  end.

Inductive result (A : Type) : Type :=
| Returned (a : A)
| Raised (e : exn).
Arguments Returned {A} a.
Arguments Raised {A} e.

Definition bind {A B : Type} (m : result A) (k : A -> result B) : result B :=
  match m with
  | Returned a => k a
  | Raised e => Raised e
  end.

(** [try: m  except Exception: h] *)
Definition try_except {A : Type} (m : result A) (h : exn -> result A) : result A :=
  match m with
  | Returned a => Returned a
  | Raised e => h e
  end.

Definition ustr_eqb (a b : ustr) : bool :=
  if list_eq_dec Z.eq_dec a b then true else false.

(** *** Character classes *)

(** C's [isspace] in the "C" locale, CPython's [Py_ISSPACE]. *)
Definition Py_ISSPACE (c : Z) : bool :=
  ((9 <=? c) && (c <=? 13)) || (c =? 32).

(** The non-ASCII characters with [str.isspace()] (Unicode 14.0). *)
Definition unicode_spaces : list Z :=
  [0x85; 0xa0; 0x1680; 0x2000; 0x2001; 0x2002; 0x2003; 0x2004; 0x2005;
   0x2006; 0x2007; 0x2008; 0x2009; 0x200a; 0x2028; 0x2029; 0x202f; 0x205f;
   0x3000].

(** [str.isspace()] of one character; also what [\s] matches in a [str]
    pattern and what [str.strip()] removes. *)
Definition Py_UNICODE_ISSPACE (c : Z) : bool :=
  Py_ISSPACE c || ((28 <=? c) && (c <=? 31)) || existsb (Z.eqb c) unicode_spaces.

(** The code points of the digit zero of every decimal script
    (Unicode 14.0): [z .. z+9] are the digits 0..9 of that script. *)
Definition decimal_zeros : list Z :=
  [0x30; 0x660; 0x6f0; 0x7c0; 0x966; 0x9e6; 0xa66; 0xae6; 0xb66; 0xbe6;
   0xc66; 0xce6; 0xd66; 0xde6; 0xe50; 0xed0; 0xf20; 0x1040; 0x1090; 0x17e0;
   0x1810; 0x1946; 0x19d0; 0x1a80; 0x1a90; 0x1b50; 0x1bb0; 0x1c40; 0x1c50;
   0xa620; 0xa8d0; 0xa900; 0xa9d0; 0xa9f0; 0xaa50; 0xabf0; 0xff10; 0x104a0;
   0x10d30; 0x11066; 0x110f0; 0x11136; 0x111d0; 0x112f0; 0x11450; 0x114d0;
   0x11650; 0x116c0; 0x11730; 0x118e0; 0x11950; 0x11c50; 0x11d50; 0x11da0;
   0x16a60; 0x16ac0; 0x16b50; 0x1d7ce; 0x1d7d8; 0x1d7e2; 0x1d7ec; 0x1d7f6;
   0x1e140; 0x1e2f0; 0x1e950; 0x1fbf0].

Definition Py_UNICODE_TODECIMAL (c : Z) : option Z :=
  match find (fun z => (z <=? c) && (c <=? z + 9)) decimal_zeros with
  | Some z => Some (c - z)
  | None => None
  end.

Definition hex_digit_value (c : Z) : option Z :=
  if (48 <=? c) && (c <=? 57) then Some (c - 48)
  else if (97 <=? c) && (c <=? 102) then Some (c - 87)
  else if (65 <=? c) && (c <=? 70) then Some (c - 55)
  else None.

Definition hex_digit (d : Z) : Z := if d <? 10 then 48 + d else 87 + d.

(** *** [int(s, 16)] *)

(** The conversion [int] applies to a [str] before parsing: ASCII is
    kept, other spaces become a blank, other decimal digits their ASCII
    digit; anything else (and NUL) makes the literal invalid. *)
Definition ascii_of_numeric (c : Z) : option Z :=
  if c =? 0 then None
  else if c <? 127 then Some c
  else if Py_UNICODE_ISSPACE c then Some 32
  else match Py_UNICODE_TODECIMAL c with
       | Some d => Some (48 + d)
       | None => None
       end.

Fixpoint transform_numeric (s : ustr) : option ustr :=
  match s with
  | [] => Some []
  | c :: r =>
    match ascii_of_numeric c, transform_numeric r with
    | Some a, Some r' => Some (a :: r')
    | _, _ => None
    end
  end.

Fixpoint skip_spaces (s : ustr) : ustr :=
  match s with
  | c :: r => if Py_ISSPACE c then skip_spaces r else s
  | [] => []
  end.

Definition parse_sign (s : ustr) : Z * ustr :=
  match s with
  | 43 :: r => (1, r)
  | 45 :: r => (-1, r)
  | _ => (1, s)
  end.

(** The optional [0x] / [0X] prefix, and the one underscore allowed
    after it. *)
Definition skip_0x (s : ustr) : ustr :=
  match s with
  | 48 :: x :: r =>
    if (x =? 120) || (x =? 88)
    then match r with 95 :: r' => r' | _ => r end
    else s
  | _ => s
  end.

(** Digits separated by single underscores; returns the value, the
    number of digits and the rest. *)
Fixpoint scan_hex (s : ustr) (acc : Z) (prev_us : bool) (n : nat)
  : option (Z * nat * ustr) :=
  match s with
  | [] => if prev_us then None else Some (acc, n, [])
  | c :: r =>
    if c =? 95 then (if prev_us then None else scan_hex r acc true n)
    else match hex_digit_value c with
         | Some d => scan_hex r (16 * acc + d) false (S n)
         | None => if prev_us then None else Some (acc, n, s)
         end
  end.

Definition int16 (s : ustr) : result Z :=
  match transform_numeric s with
  | None => Raised ValueError
  | Some a =>
    let '(sign, r) := parse_sign (skip_spaces a) in
    let r := skip_0x r in
    match r with
    | 95 :: _ => Raised ValueError
    | _ =>
      match scan_hex r 0 false 0 with
      | Some (v, S _, rest) =>
        match skip_spaces rest with
        | [] => Returned (sign * v)
        | _ => Raised ValueError
        end
      | _ => Raised ValueError
      end
    end
  end.

(** *** [bytes.fromhex], [bytes.hex], [int.to_bytes], [int.from_bytes] *)

Fixpoint fromhex_loop (fuel : nat) (s : ustr) : result bytes :=
  match fuel with
  | O => Returned []
  | S fuel' =>
    match skip_spaces s with
    | [] => Returned []
    | c1 :: r =>
      match hex_digit_value c1, r with
      | Some top, c2 :: r' =>
        match hex_digit_value c2 with
        | Some bot =>
          bind (fromhex_loop fuel' r') (fun bs => Returned (16 * top + bot :: bs))
        | None => Raised ValueError
        end
      | _, _ => Raised ValueError
      end
    end
  end.

Definition fromhex (s : ustr) : result bytes := fromhex_loop (S (length s)) s.

Fixpoint hex (bs : bytes) : ustr :=
  match bs with
  | [] => []
  | b :: r => hex_digit (b / 16) :: hex_digit (b mod 16) :: hex r
  end.

(** The [n] low bytes of [x], most significant first. *)
Fixpoint be_bytes (n : nat) (x : Z) : bytes :=
  match n with
  | O => []
  | S m => be_bytes m (x / 256) ++ [x mod 256]
  end.

(** [x.to_bytes(n, "big")] *)
Definition to_bytes (n : nat) (x : Z) : result bytes :=
  if (x <? 0) || (2 ^ (8 * Z.of_nat n) <=? x) then Raised OverflowError
  else Returned (be_bytes n x).

(** [int.from_bytes(bs, "big")] *)
Definition from_bytes (bs : bytes) : Z :=
  fold_left (fun acc b => acc * 256 + b) bs 0.

(** *** [str.encode("utf-8")] and [bytes.decode("utf-8")] *)

Definition utf8_char (c : Z) : result bytes :=
  if (c <? 0) || (0x10FFFF <? c) then Raised UnicodeEncodeError
  else if c <? 0x80 then Returned [c]
  else if c <? 0x800 then Returned [0xC0 + c / 64; 0x80 + c mod 64]
  else if (0xD800 <=? c) && (c <=? 0xDFFF) then Raised UnicodeEncodeError
  else if c <? 0x10000 then
    Returned [0xE0 + c / 4096; 0x80 + (c / 64) mod 64; 0x80 + c mod 64]
  else
    Returned [0xF0 + c / 262144; 0x80 + (c / 4096) mod 64;
              0x80 + (c / 64) mod 64; 0x80 + c mod 64].

Fixpoint encode_utf8 (s : ustr) : result bytes :=
  match s with
  | [] => Returned []
  | c :: r =>
    bind (utf8_char c) (fun b => bind (encode_utf8 r) (fun bs => Returned (b ++ bs)))
  end.

Definition is_cont (b : Z) : bool := (0x80 <=? b) && (b <=? 0xBF).

Fixpoint decode_utf8_loop (fuel : nat) (bs : bytes) : result ustr :=
  match fuel with
  | O => Returned []
  | S fuel' =>
    match bs with
    | [] => Returned []
    | b0 :: r =>
      if (0 <=? b0) && (b0 <? 0x80) then
        bind (decode_utf8_loop fuel' r) (fun s => Returned (b0 :: s))
      else if (0xC2 <=? b0) && (b0 <=? 0xDF) then
        match r with
        | b1 :: r' =>
          if is_cont b1 then
            bind (decode_utf8_loop fuel' r')
                 (fun s => Returned ((b0 - 0xC0) * 64 + (b1 - 0x80) :: s))
          else Raised UnicodeDecodeError
        | _ => Raised UnicodeDecodeError
        end
      else if (0xE0 <=? b0) && (b0 <=? 0xEF) then
        match r with
        | b1 :: b2 :: r' =>
          if is_cont b1 && is_cont b2
             && negb ((b0 =? 0xE0) && (b1 <? 0xA0))
             && negb ((b0 =? 0xED) && (0x9F <? b1)) then
            bind (decode_utf8_loop fuel' r')
                 (fun s => Returned ((b0 - 0xE0) * 4096 + (b1 - 0x80) * 64
                                     + (b2 - 0x80) :: s))
          else Raised UnicodeDecodeError
        | _ => Raised UnicodeDecodeError
        end
      else if (0xF0 <=? b0) && (b0 <=? 0xF4) then
        match r with
        | b1 :: b2 :: b3 :: r' =>
          if is_cont b1 && is_cont b2 && is_cont b3
             && negb ((b0 =? 0xF0) && (b1 <? 0x90))
             && negb ((b0 =? 0xF4) && (0x8F <? b1)) then
            bind (decode_utf8_loop fuel' r')
                 (fun s => Returned ((b0 - 0xF0) * 262144 + (b1 - 0x80) * 4096
                                     + (b2 - 0x80) * 64 + (b3 - 0x80) :: s))
          else Raised UnicodeDecodeError
        | _ => Raised UnicodeDecodeError
        end
      else Raised UnicodeDecodeError
    end
  end.

Definition decode_utf8 (bs : bytes) : result ustr :=
  decode_utf8_loop (length bs) bs.

Definition is_ascii (s : ustr) : bool :=
  forallb (fun c => (0 <=? c) && (c <? 128)) s.

(** A list of [Z] is a [bytes] when its elements are 8-bit. *)
Definition is_byte (b : Z) : Prop := 0 <= b < 256.

End Py.

Export Py.

Declare Scope py_scope.
Notation "x <- m ;; k" := (bind m (fun x => k))
  (at level 61, m at next level, right associativity) : py_scope.
Open Scope py_scope.

(** ** hashlib.sha256 and hmac (FIPS 180-4, RFC 2104) *)

Module Hashlib.

Definition mask32 : Z := 0xFFFFFFFF.
Definition add32 (a b : Z) : Z := Z.land (a + b) mask32.
Definition rotr (n x : Z) : Z :=
  Z.lor (Z.shiftr x n) (Z.land (Z.shiftl x (32 - n)) mask32).
Definition not32 (x : Z) : Z := Z.lxor x mask32.

Definition Ch (x y z : Z) : Z := Z.lxor (Z.land x y) (Z.land (not32 x) z).
Definition Maj (x y z : Z) : Z :=
  Z.lxor (Z.lxor (Z.land x y) (Z.land x z)) (Z.land y z).
Definition Sigma0 (x : Z) : Z := Z.lxor (Z.lxor (rotr 2 x) (rotr 13 x)) (rotr 22 x).
Definition Sigma1 (x : Z) : Z := Z.lxor (Z.lxor (rotr 6 x) (rotr 11 x)) (rotr 25 x).
Definition sigma0 (x : Z) : Z := Z.lxor (Z.lxor (rotr 7 x) (rotr 18 x)) (Z.shiftr x 3).
Definition sigma1 (x : Z) : Z := Z.lxor (Z.lxor (rotr 17 x) (rotr 19 x)) (Z.shiftr x 10).

(** The primes below [n], by trial division. *)
Definition primes_below (n : Z) : list Z :=
  filter (fun q => forallb (fun d => negb (q mod (Z.of_nat d) =? 0)) (seq 2 (Z.to_nat q - 2)))
         (map Z.of_nat (seq 2 (Z.to_nat n - 2))).

(** The largest [r] below [2 ^ bits] with [r ^ 3 <= n]. *)
Fixpoint cube_root (bits : nat) (n r : Z) : Z :=
  match bits with
  | O => r
  | S b =>
    let r' := r + 2 ^ Z.of_nat b in
    cube_root b n (if r' * r' * r' <=? n then r' else r)
  end.

(** The round constants: the first 32 bits of the fractional parts of
    the cube roots of the first 64 primes. *)
Definition K256 : list Z :=
  Eval vm_compute in
    map (fun q => cube_root 36 (q * 2 ^ 96) 0 mod 2 ^ 32) (primes_below 312).

(** Padding: a 1 bit, zeros up to 56 mod 64 bytes, the bit length on
    eight bytes. *)
Definition pad (msg : bytes) : bytes :=
  let n := Z.of_nat (length msg) in
  msg ++ [0x80] ++ repeat 0 (Z.to_nat ((55 - n) mod 64)) ++ be_bytes 8 (8 * n).

Fixpoint words (fuel : nat) (bs : bytes) : list Z :=
  match fuel, bs with
  | S f, a :: b :: c :: d :: r => from_bytes [a; b; c; d] :: words f r
  | _, _ => []
  end.

(** The message schedule, most recent word first: [rw] holds
    W(t-1), W(t-2), ... *)
Fixpoint schedule (n : nat) (rw : list Z) : list Z :=
  match n with
  | O => rw
  | S m =>
    let w := add32 (add32 (sigma1 (nth 1 rw 0)) (nth 6 rw 0))
                   (add32 (sigma0 (nth 14 rw 0)) (nth 15 rw 0)) in
    schedule m (w :: rw)
  end.

Record state := St { sa : Z; sb : Z; sc : Z; sd : Z; se : Z; sf : Z; sg : Z; sh : Z }.

Definition round (s : state) (kw : Z * Z) : state :=
  let t1 := add32 (add32 (add32 (sh s) (Sigma1 (se s))) (Ch (se s) (sf s) (sg s)))
                  (add32 (fst kw) (snd kw)) in
  let t2 := add32 (Sigma0 (sa s)) (Maj (sa s) (sb s) (sc s)) in
  St (add32 t1 t2) (sa s) (sb s) (sc s) (add32 (sd s) t1) (se s) (sf s) (sg s).

Definition compress (h : state) (block : bytes) : state :=
  let w := rev (schedule 48 (rev (words 16 block))) in
  let s := fold_left round (combine K256 w) h in
  St (add32 (sa h) (sa s)) (add32 (sb h) (sb s)) (add32 (sc h) (sc s))
     (add32 (sd h) (sd s)) (add32 (se h) (se s)) (add32 (sf h) (sf s))
     (add32 (sg h) (sg s)) (add32 (sh h) (sh s)).

Fixpoint blocks (fuel : nat) (h : state) (bs : bytes) : state :=
  match fuel with
  | O => h
  | S f =>
    match bs with
    | [] => h
    | _ => blocks f (compress h (firstn 64 bs)) (skipn 64 bs)
    end
  end.

Definition init : state :=
  St 0x6a09e667 0xbb67ae85 0x3c6ef372 0xa54ff53a
     0x510e527f 0x9b05688c 0x1f83d9ab 0x5be0cd19.

(** [hashlib.sha256(msg).digest()] *)
Definition sha256 (msg : bytes) : bytes :=
  let p := pad msg in
  let s := blocks (length p) init p in
  concat (map (be_bytes 4) [sa s; sb s; sc s; sd s; se s; sf s; sg s; sh s]).

(** [hmac.new(key, msg, hashlib.sha256).digest()] *)
Definition hmac_sha256 (key msg : bytes) : bytes :=
  let k := if (64 <? Z.of_nat (length key))%Z then sha256 key else key in
  let k := k ++ repeat 0 (64 - length k) in
  sha256 (map (Z.lxor 0x5c) k ++ sha256 (map (Z.lxor 0x36) k ++ msg)).

End Hashlib.

(** ** The ecdsa package: short Weierstrass curves over a prime field *)

Module Ecdsa.

(** [y^2 = x^3 + a x + b] over the integers modulo [p], with the
    generator [(gx, gy)] of order [order]; [baselen] is the number of
    bytes of one coordinate in the encodings of a point. *)
Record curve : Set := Curve {
  p : Z;
  a : Z;
  b : Z;
  gx : Z;
  gy : Z;
  order : Z;
  baselen : nat
}.

(** [INFINITY], or the affine point of coordinates in [0, p). *)
Inductive point : Set :=
| Inf
| Aff (x y : Z).

Definition point_eqb (P Q : point) : bool :=
  match P, Q with
  | Inf, Inf => true
  | Aff x1 y1, Aff x2 y2 => (x1 =? x2) && (y1 =? y2)
  | _, _ => false
  end.

Definition SECP256k1 : curve :=
  {| p := 0xFFFFFFFFFFFFFFFFFFFFFFFFFFFFFFFFFFFFFFFFFFFFFFFFFFFFFFFEFFFFFC2F;
     a := 0;
     b := 7;
     gx := 0x79BE667EF9DCBBAC55A06295CE870B07029BFCDB2DCE28D959F2815B16F81798;
     gy := 0x483ADA7726A3C4655DA4FBFC0E1108A8FD17B448A68554199C47D08FFB10D4B8;
     order := 0xFFFFFFFFFFFFFFFFFFFFFFFFFFFFFFFEBAAEDCE6AF48A03BBFD25E8CD0364141;
     baselen := 32 |}.

Section Arithmetic.

Variable C : curve.

Definition generator : point := Aff (gx C) (gy C).

(** [numbertheory.inverse_mod]: extended Euclid on [(a mod m, m)]. *)
Fixpoint egcd_loop (fuel : nat) (r0 r1 s0 s1 : Z) : Z :=
  match fuel with
  | O => s0
  | S f =>
    if r1 =? 0 then s0
    else let q := r0 / r1 in egcd_loop f r1 (r0 - q * r1) s1 (s0 - q * s1)
  end.

Definition inverse_mod (x m : Z) : Z :=
  egcd_loop (S (2 * Z.to_nat (Z.log2 m))) (x mod m) m 1 0 mod m.

Fixpoint pow_mod_pos (x : Z) (e : positive) (m : Z) : Z :=
  match e with
  | xH => x mod m
  | xO e' => let h := pow_mod_pos x e' m in (h * h) mod m
  | xI e' => let h := pow_mod_pos x e' m in (h * h mod m * x) mod m
  end.

(** [pow(x, e, m)] for [e >= 0]. *)
Definition pow_mod (x e m : Z) : Z :=
  match e with
  | Zpos e' => pow_mod_pos x e' m
  | _ => 1 mod m
  end.

(** [CurveFp.contains_point] *)
Definition contains_point (x y : Z) : bool :=
  (y * y - ((x * x + a C) * x + b C)) mod p C =? 0.

Definition in_range (x : Z) : bool := (0 <=? x) && (x <? p C).

Definition valid_point (P : point) : bool :=
  match P with
  | Inf => true
  | Aff x y => in_range x && in_range y && contains_point x y
  end.

(** Addition of two points (X9.62 B.3), doubling included. *)
Definition pt_add (P Q : point) : point :=
  match P, Q with
  | Inf, _ => Q
  | _, Inf => P
  | Aff x1 y1, Aff x2 y2 =>
    if x1 =? x2 then
      if (y1 + y2) mod p C =? 0 then Inf
      else
        let l := ((3 * x1 * x1 + a C) * inverse_mod (2 * y1) (p C)) mod p C in
        let x3 := (l * l - 2 * x1) mod p C in
        Aff x3 ((l * (x1 - x3) - y1) mod p C)
    else
      let l := ((y2 - y1) * inverse_mod (x2 - x1) (p C)) mod p C in
      let x3 := (l * l - x1 - x2) mod p C in
      Aff x3 ((l * (x1 - x3) - y1) mod p C)
  end.

Fixpoint pt_mul_pos (k : positive) (P : point) : point :=
  match k with
  | xH => P
  | xO k' => let H := pt_mul_pos k' P in pt_add H H
  | xI k' => let H := pt_mul_pos k' P in pt_add (pt_add H H) P
  end.

(** [P * k]; the product by zero is [INFINITY]. *)
Definition pt_mul (k : Z) (P : point) : point :=
  match k with
  | Zpos k' => pt_mul_pos k' P
  | _ => Inf
  end.

(** [VerifyingKey.to_string("compressed")] *)
Definition to_string_compressed (P : point) : result bytes :=
  match P with
  | Inf => Raised MalformedPointError
  | Aff x y => Returned ((if Z.odd y then 3 else 2) :: be_bytes (baselen C) x)
  end.

(** [numbertheory.square_root_mod_prime] for [p = 3 mod 4]. *)
Definition square_root_mod_prime (x : Z) : result Z :=
  let r := pow_mod x ((p C + 1) / 4) (p C) in
  if (r * r) mod p C =? x then Returned r else Raised MalformedPointError.

(** The public point a key is built from must be a point of the curve
    with coordinates in range. *)
Definition from_public_point (x y : Z) : result point :=
  if valid_point (Aff x y) then Returned (Aff x y) else Raised MalformedPointError.

Definition from_compressed (bs : bytes) : result point :=
  match bs with
  | prefix :: xs =>
    if (prefix =? 2) || (prefix =? 3) then
      let x := from_bytes xs in
      let alpha := (pow_mod x 3 (p C) + a C * x + b C) mod p C in
      beta <- square_root_mod_prime alpha ;;
      let y := if Bool.eqb (prefix =? 2) (Z.odd beta) then p C - beta else beta in
      from_public_point x y
    else Raised MalformedPointError
  | [] => Raised MalformedPointError
  end.

Definition from_raw (bs : bytes) : result point :=
  from_public_point (from_bytes (firstn (baselen C) bs))
                    (from_bytes (skipn (baselen C) bs)).

Definition from_hybrid (prefix : Z) (bs : bytes) : result point :=
  P <- from_raw bs ;;
  match P with
  | Aff x y =>
    if Bool.eqb (Z.odd y) (prefix =? 7) then Returned P
    else Raised MalformedPointError
  | Inf => Raised MalformedPointError
  end.

(** [VerifyingKey.from_string(bs, curve)], every encoding enabled: raw,
    uncompressed, hybrid and compressed. *)
Definition VerifyingKey_from_string (bs : bytes) : result point :=
  let n := length bs in
  if Nat.eqb n (2 * baselen C) then from_raw bs
  else if Nat.eqb n (2 * baselen C + 1) then
    match bs with
    | prefix :: r =>
      if (prefix =? 6) || (prefix =? 7) then from_hybrid prefix r
      else if prefix =? 4 then from_raw r
      else Raised MalformedPointError
    | [] => Raised MalformedPointError
    end
  else if Nat.eqb n (baselen C + 1) then from_compressed bs
  else Raised MalformedPointError.

(** [SigningKey.from_secret_exponent(secexp, curve).verifying_key]: the
    public point [generator * secexp], for [1 <= secexp < order]. *)
Definition SigningKey_from_secret_exponent (secexp : Z) : result point :=
  if (1 <=? secexp) && (secexp <? order C)
  then Returned (pt_mul secexp generator)
  else Raised MalformedPointError.

End Arithmetic.

End Ecdsa.

(** ** Dictionaries *)

Module Dict.

(** A [dict] with string keys, in insertion order; keys are unique. *)
Definition dict (V : Type) : Type := list (ustr * V).

Fixpoint get {V : Type} (d : dict V) (k : ustr) : option V :=
  match d with
  | [] => None
  | (k', v) :: r => if ustr_eqb k' k then Some v else get r k
  end.

(** [d[k]] *)
Definition getitem {V : Type} (d : dict V) (k : ustr) : result V :=
  match get d k with
  | Some v => Returned v
  | None => Raised KeyError
  end.

(** [d[k] = v]: in place when the key is there, appended otherwise. *)
Fixpoint set {V : Type} (d : dict V) (k : ustr) (v : V) : dict V :=
  match d with
  | [] => [(k, v)]
  | (k', v') :: r => if ustr_eqb k' k then (k', v) :: r else (k', v') :: set r k v
  end.

(** [d.update(u)] *)
Definition update {V : Type} (d u : dict V) : dict V :=
  fold_left (fun acc kv => set acc (fst kv) (snd kv)) u d.

Definition keys {V : Type} (d : dict V) : list ustr := map fst d.

End Dict.

(** ** backend/services/zk_proof.py *)

Module ZkProof.

Import Ecdsa.

Section WithCurve.

(** The module constant [CURVE]; the source binds it to [SECP256k1]. *)
Variable CURVE : curve.

Definition GENERATOR : point := generator CURVE.
Definition ORDER : Z := order CURVE.

Definition _ensure_scalar (scalar : Z) : Z :=
  let scalar := scalar mod ORDER in
  if scalar =? 0 then 1 else scalar.

Definition commitment_from_hash (hash_hex : ustr) : result ustr :=
  h <- int16 hash_hex ;;
  let scalar := _ensure_scalar h in
  verifying_key <- SigningKey_from_secret_exponent CURVE scalar ;;
  bs <- to_string_compressed CURVE verifying_key ;;
  Returned (hex bs).

Record SchnorrProof : Set := { rx : Z; ry : Z; s : Z }.

Definition from_payload (payload : Dict.dict ustr) : result SchnorrProof :=
  try_except
    (x <- Dict.getitem payload (str "rx") ;;
     x <- int16 x ;;
     y <- Dict.getitem payload (str "ry") ;;
     y <- int16 y ;;
     z <- Dict.getitem payload (str "s") ;;
     z <- int16 z ;;
     Returned {| rx := x; ry := y; s := z |})
    (fun exc =>
       match exc with
       | KeyError => Raised ValueError
       | _ => if is_ValueError exc then Raised ValueError else Raised exc
       end).

Definition challenge (self : SchnorrProof) (commitment_hex document_id context : ustr)
  : result Z :=
  commitment_bytes <- fromhex commitment_hex ;;
  rx_bytes <- to_bytes 32 (rx self) ;;
  ry_bytes <- to_bytes 32 (ry self) ;;
  document_bytes <- encode_utf8 document_id ;;
  context_bytes <- encode_utf8 context ;;
  let challenge_material :=
    rx_bytes ++ ry_bytes ++ commitment_bytes ++ document_bytes ++ context_bytes in
  let challenge := from_bytes (Hashlib.sha256 challenge_material) in
  Returned (challenge mod ORDER).

(** [Point(CURVE.curve, rx, ry)]: the constructor asserts that the
    coordinates satisfy the curve equation. *)
Definition to_point (self : SchnorrProof) : result point :=
  if contains_point CURVE (rx self) (ry self)
  then Returned (Aff (rx self mod p CURVE) (ry self mod p CURVE))
  else Raised AssertionError.

Definition verify_schnorr_proof
  (commitment_hex document_id : ustr) (proof_payload : Dict.dict ustr) (context : ustr)
  : result bool :=
  match (bs <- fromhex commitment_hex ;; VerifyingKey_from_string CURVE bs) with
  | Raised exc => Returned false
  | Returned verifying_key =>
    match from_payload proof_payload with
    | Raised exc => if is_ValueError exc then Returned false else Raised exc
    | Returned proof =>
      challenge <- challenge proof commitment_hex document_id context ;;
      proof_point <- to_point proof ;;
      if point_eqb proof_point Inf then Returned false
      else
        let left := pt_mul CURVE (_ensure_scalar (s proof)) GENERATOR in
        let right := pt_add CURVE proof_point (pt_mul CURVE challenge verifying_key) in
        Returned (point_eqb left right)
    end
  end.

End WithCurve.

End ZkProof.

(** ** Values of field dictionaries and of the document store *)

Module Values.

(** The values JSON can carry, floats aside. *)
Inductive pyval : Set :=
| VNone
| VBool (b : bool)
| VInt (z : Z)
| VStr (s : ustr)
| VList (l : list pyval)
| VDict (d : list (ustr * pyval)).

(** What the Unicode character database decides: [str.isprintable] of
    one character, [unicodedata.normalize("NFKC", .)], [str.lower] and
    [str.upper]. *)
Class UnicodeData : Type := {
  isprintable : Z -> bool;
  nfkc : ustr -> ustr;
  lower : ustr -> ustr;
  upper : ustr -> ustr
}.

(** [bool(v)] *)
Definition truthy (v : pyval) : bool :=
  match v with
  | VNone => false
  | VBool b => b
  | VInt z => negb (z =? 0)
  | VStr s => match s with [] => false | _ => true end
  | VList l => match l with [] => false | _ => true end
  | VDict d => match d with [] => false | _ => true end
  end.

Definition truthy_opt (o : option pyval) : bool :=
  match o with
  | Some v => truthy v
  | None => false
  end.

(** Lexicographic order of two strings by code point: [a < b]. *)
Fixpoint ustr_ltb (a b : ustr) : bool :=
  match a, b with
  | _, [] => false
  | [], _ :: _ => true
  | x :: a', y :: b' => (x <? y) || ((x =? y) && ustr_ltb a' b')
  end.

Fixpoint uint_digits (d : Decimal.uint) : ustr :=
  match d with
  | Decimal.Nil => []
  | Decimal.D0 r => 48 :: uint_digits r
  | Decimal.D1 r => 49 :: uint_digits r
  | Decimal.D2 r => 50 :: uint_digits r
  | Decimal.D3 r => 51 :: uint_digits r
  | Decimal.D4 r => 52 :: uint_digits r
  | Decimal.D5 r => 53 :: uint_digits r
  | Decimal.D6 r => 54 :: uint_digits r
  | Decimal.D7 r => 55 :: uint_digits r
  | Decimal.D8 r => 56 :: uint_digits r
  | Decimal.D9 r => 57 :: uint_digits r
  end.

(** [repr] of an [int]: its decimal digits. *)
Definition repr_int (z : Z) : ustr :=
  match Z.to_int z with
  | Decimal.Pos d => uint_digits d
  | Decimal.Neg d => 45 :: uint_digits d
  end.

(** [n] lower-case hexadecimal digits of [x]. *)
Fixpoint hex_fixed (n : nat) (x : Z) : ustr :=
  match n with
  | O => []
  | S m => hex_fixed m (x / 16) ++ [hex_digit (x mod 16)]
  end.

Fixpoint join (sep : ustr) (parts : list ustr) : ustr :=
  match parts with
  | [] => []
  | [x] => x
  | x :: r => x ++ sep ++ join sep r
  end.

Section Repr.

Context {U : UnicodeData}.

Definition repr_char (quote c : Z) : ustr :=
  if (c =? quote) || (c =? 92) then [92; c]
  else if c =? 9 then str "\t"
  else if c =? 10 then str "\n"
  else if c =? 13 then str "\r"
  else if (c <? 32) || (c =? 127) then str "\x" ++ hex_fixed 2 c
  else if c <? 127 then [c]
  else if isprintable c then [c]
  else if c <=? 0xff then str "\x" ++ hex_fixed 2 c
  else if c <=? 0xffff then str "\u" ++ hex_fixed 4 c
  else str "\U" ++ hex_fixed 8 c.

(** [repr] of a [str]: double quotes when the text has a single quote
    and no double quote, single quotes otherwise. *)
Definition repr_str (s : ustr) : ustr :=
  let quote :=
    if existsb (Z.eqb 39) s && negb (existsb (Z.eqb 34) s) then 34 else 39 in
  quote :: flat_map (repr_char quote) s ++ [quote].

Fixpoint repr (v : pyval) : ustr :=
  match v with
  | VNone => str "None"
  | VBool true => str "True"
  | VBool false => str "False"
  | VInt z => repr_int z
  | VStr s => repr_str s
  | VList l => str "[" ++ join (str ", ") (map repr l) ++ str "]"
  | VDict d =>
    str "{" ++ join (str ", ") (map (fun kv => repr_str (fst kv) ++ str ": " ++ repr (snd kv)) d)
        ++ str "}"
  end.

(** [str(v)], as an f-string formats a value. *)
Definition to_str (v : pyval) : ustr :=
  match v with
  | VStr s => s
  | _ => repr v
  end.

End Repr.

(** [a == b] *)
Fixpoint py_eqb (x y : pyval) {struct x} : bool :=
  match x, y with
  | VNone, VNone => true
  | VBool b1, VBool b2 => Bool.eqb b1 b2
  | VInt z1, VInt z2 => z1 =? z2
  | VBool b1, VInt z2 => (if b1 then 1 else 0) =? z2
  | VInt z1, VBool b2 => z1 =? (if b2 then 1 else 0)
  | VStr s1, VStr s2 => ustr_eqb s1 s2
  | VList l1, VList l2 =>
    (fix go (l1 l2 : list pyval) : bool :=
       match l1, l2 with
       | [], [] => true
       | a :: r1, b :: r2 => py_eqb a b && go r1 r2
       | _, _ => false
       end) l1 l2
  | VDict d1, VDict d2 =>
    Nat.eqb (length d1) (length d2) &&
    (fix go (d : list (ustr * pyval)) : bool :=
       match d with
       | [] => true
       | (k, v) :: r =>
         match Dict.get d2 k with
         | Some w => py_eqb v w && go r
         | None => false
         end
       end) d1
  | _, _ => false
  end.

(** [d.get(k) == v], where a missing key reads as [None]. *)
Definition opt_eqb (o : option pyval) (v : pyval) : bool :=
  match o with
  | Some w => py_eqb w v
  | None => py_eqb VNone v
  end.

End Values.

(** ** backend/services/signature.py *)

Module Signature.

Import Values.

Definition DEFAULT_SECRET : ustr := str "dev-signing-secret".

Section WithEnvironment.

Context {U : UnicodeData}.

(** [os.getenv(SIGNING_SECRET_ENV)]: the value of the environment
    variable DOCUMENT_SIGNING_SECRET, when it is set. *)
Variable signing_secret_env : option ustr.

Definition _load_secret : result bytes :=
  let secret :=
    match signing_secret_env with
    | Some v => v
    | None => DEFAULT_SECRET
    end in
  encode_utf8 secret.

(** [sorted(payload.items())]: the keys of a dictionary are distinct,
    so two items are ordered by their keys. *)
Fixpoint insert_item (kv : ustr * pyval) (l : list (ustr * pyval)) : list (ustr * pyval) :=
  match l with
  | [] => [kv]
  | kv' :: r =>
    if ustr_ltb (fst kv') (fst kv) then kv' :: insert_item kv r
    else kv :: l
  end.

Definition sorted_items (payload : Dict.dict pyval) : list (ustr * pyval) :=
  fold_right insert_item [] payload.

(** [repr] of a list of pairs. *)
Definition repr_items (items : list (ustr * pyval)) : ustr :=
  str "[" ++
  join (str ", ")
       (map (fun kv => str "(" ++ repr_str (fst kv) ++ str ", " ++ repr (snd kv) ++ str ")")
            items)
  ++ str "]".

Definition sign_payload (payload : Dict.dict pyval) : result ustr :=
  json_repr <- encode_utf8 (repr_items (sorted_items payload)) ;;
  key <- _load_secret ;;
  let digest := hex (Hashlib.hmac_sha256 key json_repr) in
  Returned digest.

(** [hmac.compare_digest(a, b)] on a [str] and a value: both must be
    ASCII strings. *)
Definition compare_digest (a : ustr) (b : pyval) : result bool :=
  match b with
  | VStr s =>
    if is_ascii a && is_ascii s then Returned (ustr_eqb a s)
    else Raised TypeError
  | _ => Raised TypeError
  end.

Definition verify_signature (payload : Dict.dict pyval) (signature : pyval) : result bool :=
  expected <- sign_payload payload ;;
  compare_digest expected signature.

End WithEnvironment.

End Signature.

(** ** json.dumps and json.loads *)

Module Json.

Import Values.

(** One character of a string under [ensure_ascii]. *)
Definition escape_char (c : Z) : ustr :=
  if c =? 34 then [92; 34]
  else if c =? 92 then str "\\"
  else if c =? 8 then str "\b"
  else if c =? 12 then str "\f"
  else if c =? 10 then str "\n"
  else if c =? 13 then str "\r"
  else if c =? 9 then str "\t"
  else if (32 <=? c) && (c <=? 126) then [c]
  else if c <? 0x10000 then str "\u" ++ hex_fixed 4 c
  else
    let n := c - 0x10000 in
    str "\u" ++ hex_fixed 4 (0xd800 + (n / 1024) mod 1024)
    ++ str "\u" ++ hex_fixed 4 (0xdc00 + n mod 1024).

Definition dumps_str (s : ustr) : ustr :=
  34 :: flat_map escape_char s ++ [34].

Fixpoint insert_key (kv : ustr * ustr) (l : list (ustr * ustr)) : list (ustr * ustr) :=
  match l with
  | [] => [kv]
  | kv' :: r =>
    if ustr_ltb (fst kv') (fst kv) then kv' :: insert_key kv r
    else kv :: l
  end.

(** [json.dumps(v, separators=(",", ":"), sort_keys=True)] *)
Fixpoint dumps (v : pyval) : ustr :=
  match v with
  | VNone => str "null"
  | VBool true => str "true"
  | VBool false => str "false"
  | VInt z => repr_int z
  | VStr s => dumps_str s
  | VList l => str "[" ++ join (str ",") (map dumps l) ++ str "]"
  | VDict d =>
    str "{" ++
    join (str ",")
         (map (fun kv => dumps_str (fst kv) ++ str ":" ++ snd kv)
              (fold_right insert_key [] (map (fun kv => (fst kv, dumps (snd kv))) d)))
    ++ str "}"
  end.

Definition is_ws (c : Z) : bool :=
  (c =? 32) || (c =? 9) || (c =? 10) || (c =? 13).

Fixpoint skip_ws (s : ustr) : ustr :=
  match s with
  | c :: r => if is_ws c then skip_ws r else s
  | [] => []
  end.

Definition hex4 (s : ustr) : option (Z * ustr) :=
  match s with
  | h1 :: h2 :: h3 :: h4 :: r =>
    match hex_digit_value h1, hex_digit_value h2, hex_digit_value h3, hex_digit_value h4 with
    | Some d1, Some d2, Some d3, Some d4 => Some (((d1 * 16 + d2) * 16 + d3) * 16 + d4, r)
    | _, _, _, _ => None
    end
  | _ => None
  end.

(** The body of a string literal after its opening quote. *)
Fixpoint scanstring (fuel : nat) (s : ustr) : result (ustr * ustr) :=
  match fuel with
  | O => Raised JSONDecodeError
  | S f =>
    match s with
    | [] => Raised JSONDecodeError
    | c :: r =>
      if c =? 34 then Returned ([], r)
      else if c =? 92 then
        match r with
        | e :: r' =>
          let simple (x : Z) :=
            res <- scanstring f r' ;; Returned (x :: fst res, snd res) in
          if e =? 34 then simple 34
          else if e =? 92 then simple 92
          else if e =? 47 then simple 47
          else if e =? 98 then simple 8
          else if e =? 102 then simple 12
          else if e =? 110 then simple 10
          else if e =? 114 then simple 13
          else if e =? 116 then simple 9
          else if e =? 117 then
            match hex4 r' with
            | None => Raised JSONDecodeError
            | Some (u1, r1) =>
              let single := res <- scanstring f r1 ;; Returned (u1 :: fst res, snd res) in
              if (0xd800 <=? u1) && (u1 <=? 0xdbff) then
                match r1 with
                | 92 :: 117 :: r2 =>
                  match hex4 r2 with
                  | Some (u2, r3) =>
                    if (0xdc00 <=? u2) && (u2 <=? 0xdfff) then
                      res <- scanstring f r3 ;;
                      Returned (0x10000 + (u1 - 0xd800) * 1024 + (u2 - 0xdc00) :: fst res,
                                snd res)
                    else single
                  | None => single
                  end
                | _ => single
                end
              else single
            end
          else Raised JSONDecodeError
        | [] => Raised JSONDecodeError
        end
      else if c <? 32 then Raised JSONDecodeError
      else res <- scanstring f r ;; Returned (c :: fst res, snd res)
    end
  end.

Definition is_digit (c : Z) : bool := (48 <=? c) && (c <=? 57).

Fixpoint scan_digits (s : ustr) (acc : Z) : Z * ustr :=
  match s with
  | c :: r => if is_digit c then scan_digits r (10 * acc + (c - 48)) else (acc, s)
  | [] => (acc, [])
  end.

(** After the integer part: a fraction or an exponent makes the literal
    a float, which this model does not carry. *)
Definition float_follows (s : ustr) : bool :=
  match s with
  | c :: d :: _ =>
    ((c =? 46) && is_digit d)
    || (((c =? 101) || (c =? 69))
        && (is_digit d || (((d =? 43) || (d =? 45))
                           && match s with _ :: _ :: x :: _ => is_digit x | _ => false end)))
  | _ => false
  end.

(** An integer literal: an optional minus sign, then a single zero or
    digits that do not start with zero. *)
Definition scan_number (s : ustr) : result (pyval * ustr) :=
  let '(neg, r) := match s with 45 :: r => (true, r) | _ => (false, s) end in
  match r with
  | c :: r' =>
    if is_digit c then
      let '(v, rest) := if c =? 48 then (0, r') else scan_digits r 0 in
      if float_follows rest then Raised Unmodelled
      else Returned (VInt (if neg then - v else v), rest)
    else Raised JSONDecodeError
  | [] => Raised JSONDecodeError
  end.

Definition starts_with (prefix s : ustr) : option ustr :=
  if ustr_eqb (firstn (length prefix) s) prefix then Some (skipn (length prefix) s) else None.

(** [scan_once]: one value at the head of [s]; [parse_array] and
    [parse_object] read the items that follow an opening bracket. *)
Fixpoint scan_once (fuel : nat) (s : ustr) {struct fuel} : result (pyval * ustr) :=
  match fuel with
  | O => Raised JSONDecodeError
  | S f =>
    match s with
    | [] => Raised JSONDecodeError
    | c :: r =>
      if c =? 34 then
        res <- scanstring (length r) r ;; Returned (VStr (fst res), snd res)
      else if c =? 123 then
        match skip_ws r with
        | 125 :: r' => Returned (VDict [], r')
        | r' => res <- parse_object f r' [] ;; Returned (VDict (fst res), snd res)
        end
      else if c =? 91 then
        match skip_ws r with
        | 93 :: r' => Returned (VList [], r')
        | r' => res <- parse_array f r' ;; Returned (VList (fst res), snd res)
        end
      else
        match starts_with (str "null") s, starts_with (str "true") s,
              starts_with (str "false") s with
        | Some r', _, _ => Returned (VNone, r')
        | _, Some r', _ => Returned (VBool true, r')
        | _, _, Some r' => Returned (VBool false, r')
        | _, _, _ =>
          match starts_with (str "NaN") s, starts_with (str "Infinity") s,
                starts_with (str "-Infinity") s with
          | None, None, None => scan_number s
          | _, _, _ => Raised Unmodelled
          end
        end
    end
  end
with parse_array (fuel : nat) (s : ustr) {struct fuel} : result (list pyval * ustr) :=
  match fuel with
  | O => Raised JSONDecodeError
  | S f =>
    res <- scan_once f s ;;
    match skip_ws (snd res) with
    | 93 :: r => Returned ([fst res], r)
    | 44 :: r =>
      more <- parse_array f (skip_ws r) ;;
      Returned (fst res :: fst more, snd more)
    | _ => Raised JSONDecodeError
    end
  end
with parse_object (fuel : nat) (s : ustr) (acc : Dict.dict pyval) {struct fuel}
  : result (Dict.dict pyval * ustr) :=
  match fuel with
  | O => Raised JSONDecodeError
  | S f =>
    match s with
    | 34 :: r =>
      key <- scanstring (length r) r ;;
      match skip_ws (snd key) with
      | 58 :: r1 =>
        res <- scan_once f (skip_ws r1) ;;
        let acc := Dict.set acc (fst key) (fst res) in
        match skip_ws (snd res) with
        | 125 :: r2 => Returned (acc, r2)
        | 44 :: r2 => parse_object f (skip_ws r2) acc
        | _ => Raised JSONDecodeError
        end
      | _ => Raised JSONDecodeError
      end
    | _ => Raised JSONDecodeError
    end
  end.

(** [json.loads(s)] *)
Definition loads (s : ustr) : result pyval :=
  res <- scan_once (S (length s)) (skip_ws s) ;;
  match skip_ws (snd res) with
  | [] => Returned (fst res)
  | _ => Raised JSONDecodeError
  end.

End Json.

(** ** base64.urlsafe_b64encode and base64.urlsafe_b64decode *)

Module Base64.

(** The URL-safe alphabet: A-Z, a-z, 0-9, [-] and [_]. *)
Definition b64_char (v : Z) : Z :=
  if v <? 26 then 65 + v
  else if v <? 52 then 71 + v
  else if v <? 62 then v - 4
  else if v =? 62 then 45
  else 95.

Fixpoint encode (bs : bytes) : bytes :=
  match bs with
  | [] => []
  | [x] => [b64_char (x / 4); b64_char ((x mod 4) * 16); 61; 61]
  | [x; y] =>
    [b64_char (x / 4); b64_char ((x mod 4) * 16 + y / 16);
     b64_char ((y mod 16) * 4); 61]
  | x :: y :: z :: r =>
    b64_char (x / 4) :: b64_char ((x mod 4) * 16 + y / 16)
    :: b64_char ((y mod 16) * 4 + z / 64) :: b64_char (z mod 64) :: encode r
  end.

(** [base64.urlsafe_b64encode] *)
Definition urlsafe_b64encode (bs : bytes) : bytes := encode bs.

(** The value of a character of the standard alphabet. *)
Definition b64_value (c : Z) : option Z :=
  if (65 <=? c) && (c <=? 90) then Some (c - 65)
  else if (97 <=? c) && (c <=? 122) then Some (c - 71)
  else if (48 <=? c) && (c <=? 57) then Some (c + 4)
  else if c =? 43 then Some 62
  else if c =? 47 then Some 63
  else None.

(** [s.translate(_urlsafe_decode_translation)]: [-] becomes [+] and
    [_] becomes [/]. *)
Definition translate (c : Z) : Z :=
  if c =? 45 then 43 else if c =? 95 then 47 else c.

(** [binascii.a2b_base64], not strict: characters outside the alphabet
    are skipped, and a complete run of padding ends the data. *)
Fixpoint a2b_loop (s : bytes) (quad_pos leftchar pads : Z) : result bytes :=
  match s with
  | [] => if quad_pos =? 0 then Returned [] else Raised BinasciiError
  | c :: r =>
    if c =? 61 then
      if 2 <=? quad_pos then
        if 4 <=? quad_pos + (pads + 1) then Returned []
        else a2b_loop r quad_pos leftchar (pads + 1)
      else a2b_loop r quad_pos leftchar pads
    else
      match b64_value c with
      | None => a2b_loop r quad_pos leftchar pads
      | Some v =>
        if quad_pos =? 0 then a2b_loop r 1 v 0
        else if quad_pos =? 1 then
          out <- a2b_loop r 2 (v mod 16) 0 ;; Returned (leftchar * 4 + v / 16 :: out)
        else if quad_pos =? 2 then
          out <- a2b_loop r 3 (v mod 4) 0 ;; Returned (leftchar * 16 + v / 4 :: out)
        else
          out <- a2b_loop r 0 0 0 ;; Returned (leftchar * 64 + v :: out)
      end
  end.

(** [base64.urlsafe_b64decode] *)
Definition urlsafe_b64decode (s : bytes) : result bytes :=
  a2b_loop (map translate s) 0 0 0.

End Base64.

(** ** backend/services/qr_payload.py *)

Module QrPayload.

Import Values.

Definition encode_payload (data : Dict.dict pyval) : result ustr :=
  serialized <- encode_utf8 (Json.dumps (VDict data)) ;;
  decode_utf8 (Base64.urlsafe_b64encode serialized).

Definition decode_payload (encoded : ustr) : result pyval :=
  raw <- encode_utf8 encoded ;;
  decoded <- Base64.urlsafe_b64decode raw ;;
  text <- decode_utf8 decoded ;;
  Json.loads text.

Section WithRenderer.

(** The qrcode package: the base64 text of the PNG image of a QR code
    that holds the given string (error correction M, box size 8,
    border 2). *)
Variable render_qr_png : ustr -> ustr.

(** Returns the pair [(base64_png, encoded)]. *)
Definition generate_qr_png_base64 (data : Dict.dict pyval) : result (ustr * ustr) :=
  encoded <- encode_payload data ;;
  let base64_png := render_qr_png encoded in
  Returned (base64_png, encoded).

End WithRenderer.

End QrPayload.

(** ** backend/services/text_processing.py *)

Module TextProcessing.

Import Values.

(** [re.sub(r"\s+", " ", s)]: every maximal run of whitespace becomes
    one blank; [in_run] tells that the previous character was
    whitespace. *)
Fixpoint collapse_from (in_run : bool) (s : ustr) : ustr :=
  match s with
  | [] => []
  | c :: r =>
    if Py_UNICODE_ISSPACE c
    then (if in_run then collapse_from true r else 32 :: collapse_from true r)
    else c :: collapse_from false r
  end.

Definition collapse_whitespace (s : ustr) : ustr := collapse_from false s.

Fixpoint lstrip (s : ustr) : ustr :=
  match s with
  | c :: r => if Py_UNICODE_ISSPACE c then lstrip r else s
  | [] => []
  end.

(** [s.strip()] *)
Definition strip (s : ustr) : ustr := rev (lstrip (rev (lstrip s))).

Section WithUnicode.

Context {U : UnicodeData}.

Definition normalize_text (raw_text : ustr) : ustr :=
  match raw_text with
  | [] => []
  | _ =>
    let normalized := nfkc raw_text in
    let normalized := lower normalized in
    let normalized := collapse_whitespace normalized in
    let normalized := strip normalized in
    normalized
  end.

End WithUnicode.

Definition hash_normalized_text (normalized_text : ustr) : result (option ustr) :=
  match normalized_text with
  | [] => Returned None
  | _ =>
    raw <- encode_utf8 normalized_text ;;
    Returned (Some (hex (Hashlib.sha256 raw)))
  end.

End TextProcessing.

(** ** backend/main.py: the document store and the verification payload *)

Module Main.

Import Values.

Definition NORMALIZATION_STRATEGY : ustr :=
  str "unicode_nfkc_lowercase_whitespace_collapse".

Definition Document : Type := Dict.dict pyval.

(** The metadata file uploads/metadata/documents.json. *)
Inductive file_state : Type :=
| Missing
| Corrupt
| Docs (documents : list Document).

(** What a write to the metadata file can meet: [open] fails and the
    file stays as it was, or [json.dump] fails after [open] truncated
    the file. *)
Inductive fault : Set :=
| OpenFails
| DumpFails.

(** The world [main.py] runs in: the metadata file, the outcome of each
    coming write ([None]: the write succeeds; past the end of the list
    every write succeeds), and the number of writes attempted so far. *)
Record world : Type := World {
  file : file_state;
  coming_writes : list (option fault);
  writes_attempted : nat
}.

Definition load_documents (w : world) : list Document :=
  match file w with
  | Missing => []
  | Corrupt => []
  | Docs documents => documents
  end.

Definition save_documents (documents : list Document) (w : world) : world * result unit :=
  let n := S (writes_attempted w) in
  match coming_writes w with
  | Some OpenFails :: rest => (World (file w) rest n, Raised OSError)
  | Some DumpFails :: rest => (World Corrupt rest n, Raised OSError)
  | None :: rest => (World (Docs documents) rest n, Returned tt)
  | [] => (World (Docs documents) [] n, Returned tt)
  end.

(** [re.sub(r"[^a-zA-Z0-9-]", "", s)] *)
Definition id_char (c : Z) : bool :=
  ((97 <=? c) && (c <=? 122)) || ((65 <=? c) && (c <=? 90))
  || ((48 <=? c) && (c <=? 57)) || (c =? 45).

Definition strip_non_id (s : ustr) : ustr := filter id_char s.

(** [d.get(k, default)] *)
Definition get_default (d : Document) (k : ustr) (default : pyval) : pyval :=
  match Dict.get d k with
  | Some v => v
  | None => default
  end.

(** [d.get(k)] *)
Definition get_none (d : Document) (k : ustr) : pyval := get_default d k VNone.

Section WithEnvironment.

Context {U : UnicodeData}.

(** The condition of the loop of [find_document] on one record; taking
    [upper] of an identifier that is not a string raises. *)
Definition id_matches (document_id clean_id : ustr) (doc : Document) : result bool :=
  let doc_id := get_default doc (str "id") (VStr []) in
  if py_eqb doc_id (VStr document_id) then Returned true
  else match doc_id with
       | VStr s => Returned (ustr_eqb (upper s) clean_id)
       | _ => Raised AttributeError
       end.

Fixpoint find_in (document_id clean_id : ustr) (documents : list Document)
  : result (option Document) :=
  match documents with
  | [] => Returned None
  | doc :: rest =>
    m <- id_matches document_id clean_id doc ;;
    if m then Returned (Some doc) else find_in document_id clean_id rest
  end.

Definition find_document (document_id : ustr) (w : world) : result (option Document) :=
  let clean_id := upper (strip_non_id document_id) in
  find_in document_id clean_id (load_documents w).

(** The environment variable DOCUMENT_SIGNING_SECRET, the text
    [isoformat_utc(datetime.utcnow())] of the clock, and the QR
    renderer. *)
Variable signing_secret_env : option ustr.
Variable now : ustr.
Variable render_qr_png : ustr -> ustr.

Record DocumentVerificationPayload : Set := {
  id : ustr;
  file_hash : ustr;
  issued_at : ustr;
  normalization_strategy : ustr;
  zk_commitment : ustr;
  checksum : ustr;
  signature : ustr;
  qr_payload : ustr;
  qr_png_base64 : ustr
}.

(** A field declared [str] takes a string and nothing else. *)
Definition str_field (v : pyval) : result ustr :=
  match v with
  | VStr s => Returned s
  | _ => Raised ValidationError
  end.

(** [hexdigest()[:12].upper()] of the checksum seed. *)
Definition upper_hex (c : Z) : Z :=
  if (97 <=? c) && (c <=? 102) then c - 32 else c.

Definition compute_checksum (id zk_commitment file_hash : pyval) : result ustr :=
  let checksum_seed :=
    to_str id ++ str ":" ++ to_str zk_commitment ++ str ":" ++ to_str file_hash in
  raw <- encode_utf8 checksum_seed ;;
  Returned (map upper_hex (firstn 12 (hex (Hashlib.sha256 raw)))).

(** The first record of [documents] whose id equals [id] gets
    [updated_fields]; [None] when there is no such record. *)
Fixpoint update_first (id : pyval) (updated_fields : Document) (documents : list Document)
  : option (list Document) :=
  match documents with
  | [] => None
  | doc :: rest =>
    if py_eqb (get_none doc (str "id")) id
    then Some (Dict.update doc updated_fields :: rest)
    else match update_first id updated_fields rest with
         | Some rest' => Some (doc :: rest')
         | None => None
         end
  end.

(** The local variables of [build_verification_payload] when it reaches
    the persist step. *)
Record candidate : Type := {
  c_id : pyval;
  c_file_hash : pyval;
  c_issued_at : pyval;
  c_normalization_strategy : pyval;
  c_zk_commitment : pyval;
  c_checksum : pyval;
  c_signature : pyval;
  c_qr_payload : pyval;
  c_qr_png_base64 : pyval
}.

Definition signable_of (id file_hash issued_at normalization_strategy zk_commitment
                        checksum : pyval) : Document :=
  [(str "id", id);
   (str "file_hash", file_hash);
   (str "issued_at", issued_at);
   (str "normalization_strategy", normalization_strategy);
   (str "zk_commitment", zk_commitment);
   (str "checksum", checksum)].

(** [build_verification_payload] up to the persist step. *)
Definition compute_fields (document : Document) : result candidate :=
  if negb (truthy (get_none document (str "zk_commitment"))) then Raised ValueError
  else
    let issued_at := get_none document (str "timestamp") in
    let issued_at := if truthy issued_at then issued_at else VStr now in
    let file_hash := get_none document (str "file_hash") in
    let normalization_strategy :=
      get_default document (str "normalization_strategy") (VStr NORMALIZATION_STRATEGY) in
    zk_commitment <- Dict.getitem document (str "zk_commitment") ;;
    let checksum := get_none document (str "checksum") in
    checksum <-
      (if truthy checksum then Returned checksum
       else
         id <- Dict.getitem document (str "id") ;;
         c <- compute_checksum id zk_commitment file_hash ;;
         Returned (VStr c)) ;;
    id <- Dict.getitem document (str "id") ;;
    let signable :=
      signable_of id file_hash issued_at normalization_strategy zk_commitment checksum in
    let signature := get_none document (str "signature") in
    valid <-
      (if truthy signature
       then Signature.verify_signature signing_secret_env signable signature
       else Returned false) ;;
    signature <-
      (if valid then Returned signature
       else sig <- Signature.sign_payload signing_secret_env signable ;; Returned (VStr sig)) ;;
    let qr_payload := get_none document (str "qr_payload") in
    let qr_png_base64 := get_none document (str "qr_png_base64") in
    qr <-
      (if negb (truthy qr_payload) || negb (truthy qr_png_base64) then
         r <- QrPayload.generate_qr_png_base64 render_qr_png
                (Dict.set signable (str "signature") signature) ;;
         Returned (VStr (fst r), VStr (snd r))
       else Returned (qr_png_base64, qr_payload)) ;;
    Returned {| c_id := id; c_file_hash := file_hash; c_issued_at := issued_at;
                c_normalization_strategy := normalization_strategy;
                c_zk_commitment := zk_commitment; c_checksum := checksum;
                c_signature := signature; c_qr_payload := snd qr;
                c_qr_png_base64 := fst qr |}.

Definition updated_fields_of (c : candidate) : Document :=
  [(str "normalization_strategy", c_normalization_strategy c);
   (str "timestamp", c_issued_at c);
   (str "checksum", c_checksum c);
   (str "signature", c_signature c);
   (str "qr_payload", c_qr_payload c);
   (str "qr_png_base64", c_qr_png_base64 c)].

Definition persistence_needed (document updated_fields : Document) : bool :=
  existsb (fun kv => negb (opt_eqb (Dict.get document (fst kv)) (snd kv))) updated_fields.

(** The persist step: load the store, update the first record whose id
    is the document's, save. *)
Definition persist (document : Document) (id : pyval) (updated_fields : Document) (w : world)
  : world * result unit :=
  if persistence_needed document updated_fields then
    match update_first id updated_fields (load_documents w) with
    | Some documents => save_documents documents w
    | None => (w, Returned tt)
    end
  else (w, Returned tt).

(** The constructor of the response model. *)
Definition make_payload (c : candidate) : result DocumentVerificationPayload :=
  id <- str_field (c_id c) ;;
  file_hash <- str_field (c_file_hash c) ;;
  issued_at <- str_field (c_issued_at c) ;;
  normalization_strategy <- str_field (c_normalization_strategy c) ;;
  zk_commitment <- str_field (c_zk_commitment c) ;;
  checksum <- str_field (c_checksum c) ;;
  signature <- str_field (c_signature c) ;;
  qr_payload <- str_field (c_qr_payload c) ;;
  qr_png_base64 <- str_field (c_qr_png_base64 c) ;;
  Returned {| id := id; file_hash := file_hash; issued_at := issued_at;
              normalization_strategy := normalization_strategy;
              zk_commitment := zk_commitment; checksum := checksum;
              signature := signature; qr_payload := qr_payload;
              qr_png_base64 := qr_png_base64 |}.

Definition build_verification_payload (document : Document) (w : world)
  : world * result DocumentVerificationPayload :=
  match compute_fields document with
  | Raised exc => (w, Raised exc)
  | Returned c =>
    match persist document (c_id c) (updated_fields_of c) w with
    | (w', Raised exc) => (w', Raised exc)
    | (w', Returned _) => (w', make_payload c)
    end
  end.

End WithEnvironment.

End Main.

(** ** Evaluation on machine words

    The curve arithmetic again, on [bigZ], to evaluate the model at
    256-bit inputs; [Fast_pt_mul] and [Fast_pow_mod] below relate it to
    the definitions of [Ecdsa]. *)

Module Fast.

Import Ecdsa.

Local Open Scope bigZ_scope.

Inductive bpoint : Set :=
| BInf
| BAff (x y : bigZ).

Definition to_point (P : bpoint) : point :=
  match P with
  | BInf => Inf
  | BAff x y => Aff (BigZ.to_Z x) (BigZ.to_Z y)
  end.

Definition of_point (P : point) : bpoint :=
  match P with
  | Inf => BInf
  | Aff x y => BAff (BigZ.of_Z x) (BigZ.of_Z y)
  end.

Fixpoint egcd_loop (fuel : nat) (r0 r1 s0 s1 : bigZ) : bigZ :=
  match fuel with
  | O => s0
  | S f =>
    if r1 =? 0 then s0
    else let q := r0 / r1 in egcd_loop f r1 (r0 - q * r1) s1 (s0 - q * s1)
  end.

Definition inverse_mod (fuel : nat) (x m : bigZ) : bigZ :=
  egcd_loop fuel (x mod m) m 1 0 mod m.

Fixpoint pow_mod_pos (x : bigZ) (e : positive) (m : bigZ) : bigZ :=
  match e with
  | xH => x mod m
  | xO e' => let h := pow_mod_pos x e' m in (h * h) mod m
  | xI e' => let h := pow_mod_pos x e' m in (h * h mod m * x) mod m
  end.

Section WithField.

(** The modulus, the coefficient [a] and the fuel of [inverse_mod]. *)
Variables (pp aa : bigZ) (fuel : nat).

Definition pt_add (P Q : bpoint) : bpoint :=
  match P, Q with
  | BInf, _ => Q
  | _, BInf => P
  | BAff x1 y1, BAff x2 y2 =>
    if x1 =? x2 then
      if (y1 + y2) mod pp =? 0 then BInf
      else
        let l := ((3 * x1 * x1 + aa) * inverse_mod fuel (2 * y1) pp) mod pp in
        let x3 := (l * l - 2 * x1) mod pp in
        BAff x3 ((l * (x1 - x3) - y1) mod pp)
    else
      let l := ((y2 - y1) * inverse_mod fuel (x2 - x1) pp) mod pp in
      let x3 := (l * l - x1 - x2) mod pp in
      BAff x3 ((l * (x1 - x3) - y1) mod pp)
  end.

Fixpoint pt_mul_pos (k : positive) (P : bpoint) : bpoint :=
  match k with
  | xH => P
  | xO k' => let H := pt_mul_pos k' P in pt_add H H
  | xI k' => let H := pt_mul_pos k' P in pt_add (pt_add H H) P
  end.

End WithField.

Definition pt_mul (C : curve) (k : Z) (P : point) : point :=
  match k with
  | Zpos k' =>
    to_point (pt_mul_pos (BigZ.of_Z (p C)) (BigZ.of_Z (a C))
                         (S (2 * Z.to_nat (Z.log2 (p C)))) k' (of_point P))
  | _ => Inf
  end.

Definition pow_mod (x e m : Z) : Z :=
  match e with
  | Zpos e' => BigZ.to_Z (pow_mod_pos (BigZ.of_Z x) e' (BigZ.of_Z m))
  | _ => (1 mod m)%Z
  end.

End Fast.

(** ** What the proofs about the curve rest on *)

Module CurveFacts.

Import Ecdsa.

(** The facts about a curve that the ecdsa package relies on: the points
    form a group under [pt_add], the generator has the stated order, the
    field is odd and fits the encodings, and the square root used to
    decompress a point returns a root.  They are checked by enumeration
    for the small curve [T43] and are standard for secp256k1. *)
Record curve_group (C : curve) : Prop := {
  cg_odd : Z.odd (p C) = true;
  cg_bytes : p C <= 2 ^ 256 /\ order C <= 2 ^ 256;
  cg_baselen : (2 <= baselen C)%nat /\ p C <= 256 ^ Z.of_nat (baselen C);
  cg_order_gt : 1 < order C;
  cg_generator : valid_point C (generator C) = true;
  cg_closed : forall P Q,
      valid_point C P = true -> valid_point C Q = true ->
      valid_point C (pt_add C P Q) = true;
  cg_assoc : forall P Q R,
      valid_point C P = true -> valid_point C Q = true -> valid_point C R = true ->
      pt_add C (pt_add C P Q) R = pt_add C P (pt_add C Q R);
  cg_order : pt_mul C (order C) (generator C) = Inf;
  cg_exact : forall k, 0 < k < order C -> pt_mul C k (generator C) <> Inf;
  cg_sqrt : forall y, 0 <= y < p C ->
      let r := pow_mod (y * y mod p C) ((p C + 1) / 4) (p C) in
      r = y \/ r = p C - y
}.

(** The curve of secp256k1's equation over the field of 43 elements: 31
    points, generated by (2, 12); encoded on 32 bytes like secp256k1. *)
Definition T43 : curve :=
  {| p := 43; a := 0; b := 7; gx := 2; gy := 12; order := 31; baselen := 32 |}.

(** [P] added to itself [n] times. *)
Fixpoint nmul (C : curve) (n : nat) (P : point) : point :=
  match n with
  | O => Inf
  | S m => pt_add C P (nmul C m P)
  end.

Definition range (n : Z) : list Z := map Z.of_nat (seq 0 (Z.to_nat n)).

(** Every point of the curve, by enumeration of the coordinates. *)
Definition all_points (C : curve) : list point :=
  Inf :: flat_map (fun x => flat_map (fun y =>
           if valid_point C (Aff x y) then [Aff x y] else []) (range (p C)))
         (range (p C)).

(** The 31 points of [T43]. *)
Definition T43_points : list point := Eval vm_compute in all_points T43.

Definition point_eq_dec (P Q : point) : {P = Q} + {P <> Q}.
Proof. decide equality; apply Z.eq_dec. Defined.

End CurveFacts.

(** ** The honest prover of the Schnorr protocol

    What the protocol says a prover does; the verifier of
    [zk_proof.py] is compared with it. *)

Module Prover.

Import Ecdsa.

(** The Fiat-Shamir challenge: SHA-256 of the two coordinates of the
    commitment point [R] on 32 bytes each, the bytes of the commitment,
    and the UTF-8 bytes of the document id and of the context, reduced
    modulo the order of the group. *)
Definition honest_challenge (C : curve) (rx ry : Z)
  (commitment_bytes document_bytes context_bytes : bytes) : Z :=
  from_bytes (Hashlib.sha256 (be_bytes 32 rx ++ be_bytes 32 ry ++ commitment_bytes
                              ++ document_bytes ++ context_bytes))
  mod order C.

(** The proof submitted: three fields of 64 hexadecimal digits. *)
Definition honest_payload (rx ry s : Z) : Dict.dict ustr :=
  [(str "rx", hex (be_bytes 32 rx));
   (str "ry", hex (be_bytes 32 ry));
   (str "s", hex (be_bytes 32 s))].

(** Completeness with the response computed from the digest itself,
    [s = k + e d mod order]. *)
Definition completeness_from_digest (C : curve) : Prop :=
  forall (d k rx ry : Z) (document_id context commitment : ustr)
         (commitment_bytes document_bytes context_bytes : bytes),
    0 <= d < 2 ^ 256 ->
    ZkProof.commitment_from_hash C (hex (be_bytes 32 d)) = Returned commitment ->
    fromhex commitment = Returned commitment_bytes ->
    encode_utf8 document_id = Returned document_bytes ->
    encode_utf8 context = Returned context_bytes ->
    0 < k < order C ->
    pt_mul C k (generator C) = Aff rx ry ->
    let e := honest_challenge C rx ry commitment_bytes document_bytes context_bytes in
    let s := (k + e * d) mod order C in
    ZkProof.verify_schnorr_proof C commitment document_id (honest_payload rx ry s) context
    = Returned true.

End Prover.

(** ** Inputs the properties are evaluated at *)

Module Samples.

Import Ecdsa.

Definition document_id : ustr := str "INV-1234-5678".

(** The compressed encoding of the generator of secp256k1, the
    commitment of every digest that is a multiple of the order. *)
Definition generator_bytes : bytes := 2 :: be_bytes 32 (gx SECP256k1).
Definition generator_commitment : ustr := hex generator_bytes.

(** A proof whose [rx] is 2^256: "1" followed by 64 zeros. *)
Definition oversized_proof : Dict.dict ustr :=
  [(str "rx", str "10000000000000000000000000000000000000000000000000000000000000000");
   (str "ry", str "0");
   (str "s", str "0")].

(** A proof whose point (1, 1) is not on the curve. *)
Definition off_curve_proof : Dict.dict ustr :=
  [(str "rx", str "1"); (str "ry", str "1"); (str "s", str "1")].

(** The challenge of the proof built from the zero digest with nonce 1. *)
Definition zero_digest_challenge : Z :=
  Eval vm_compute in
    Prover.honest_challenge SECP256k1 (gx SECP256k1) (gy SECP256k1) generator_bytes
      document_id [].

End Samples.

(** ** What a lookup is expected to find *)

Module Lookup.

Import Values Main.

(** [document.get("id", "")] *)
Definition id_of (doc : Document) : pyval := get_default doc (str "id") (VStr []).

(** A record answers a query when its id is the query itself, or when
    the two agree up to letter case once every character of the query
    other than an ASCII letter, digit or hyphen is removed. *)
Definition answers {U : UnicodeData} (document_id : ustr) (doc : Document) : Prop :=
  id_of doc = VStr document_id
  \/ exists s, id_of doc = VStr s /\ upper s = upper (strip_non_id document_id).

End Lookup.

(** ** An excerpt of the Unicode character database

    [UnicodeData] for Basic Latin, U+030C COMBINING CARON and the 33
    letters with caron that have a code point of their own; exact on
    strings of these characters (Unicode 14.0). *)

Module Excerpt.

Import Values.

(** A Basic Latin letter and the code point of the letter with caron. *)
Definition caron_letters : list (Z * Z) :=
  [(65, 461); (67, 268); (68, 270); (69, 282); (71, 486); (72, 542); (73, 463);
   (75, 488); (76, 317); (78, 327); (79, 465); (82, 344); (83, 352); (84, 356);
   (85, 467); (90, 381); (97, 462); (99, 269); (100, 271); (101, 283); (103, 487);
   (104, 543); (105, 464); (106, 496); (107, 489); (108, 318); (110, 328);
   (111, 466); (114, 345); (115, 353); (116, 357); (117, 468); (122, 382)].

Definition caron : Z := 0x30C.

Definition base_of (c : Z) : option Z :=
  option_map fst (find (fun bc => snd bc =? c) caron_letters).

Definition with_caron (b : Z) : option Z :=
  option_map snd (find (fun bc => fst bc =? b) caron_letters).

Definition decompose (c : Z) : ustr :=
  match base_of c with
  | Some b => [b; caron]
  | None => [c]
  end.

(** Canonical composition: a letter directly followed by a caron
    becomes the letter with caron, when there is one. *)
Fixpoint compose (s : ustr) : ustr :=
  match s with
  | [] => []
  | b :: r =>
    match r with
    | m :: r' =>
      match (if m =? caron then with_caron b else None) with
      | Some c => c :: compose r'
      | None => b :: compose r
      end
    | [] => [b]
    end
  end.

Definition is_upper_ascii (c : Z) : bool := (65 <=? c) && (c <=? 90).
Definition is_lower_ascii (c : Z) : bool := (97 <=? c) && (c <=? 122).

Definition lower_char (c : Z) : Z :=
  if is_upper_ascii c then c + 32
  else match base_of c with
       | Some b => if is_upper_ascii b then c + 1 else c
       | None => c
       end.

(** The capital of U+01F0 (j with caron) is J followed by a caron. *)
Definition upper_char (c : Z) : ustr :=
  if is_lower_ascii c then [c - 32]
  else if c =? 0x1F0 then [74; caron]
  else match base_of c with
       | Some b => if is_lower_ascii b then [c - 1] else [c]
       | None => [c]
       end.

#[export] Instance unicode_excerpt : UnicodeData := {|
  isprintable c :=
    ((32 <=? c) && (c <? 127)) || (c =? caron)
    || match base_of c with Some _ => true | None => false end;
  nfkc s := compose (flat_map decompose s);
  lower s := map lower_char s;
  upper s := flat_map upper_char s
|}.

End Excerpt.

(** ** A stored document *)

Module Stored.

Import Values Main.

(** Stands for the qrcode package: some base64 text for every input. *)
Definition sample_render_qr_png (encoded : ustr) : ustr := str "iVBORw0KGgo=".

Definition sample_now : ustr := str "2025-06-01T12:00:00Z".

Definition sample_file_hash : ustr :=
  str "af2bdbe1aa9b6ec1e2ade1d694f41fc71a831d0268e9891562113d8a62add1bf".

Definition sample_commitment : ustr :=
  str "0279be667ef9dcbbac55a06295ce870b07029bfcdb2dce28d959f2815b16f81798".

(** The signature of the sample under the default secret, and the
    payload encoded with it. *)
Definition signature_default : ustr :=
  str "78f4a03063de8b75e9227c369218462cbaae28bfde04ee135a939b22e71b1f86".

Definition signature_rotated : ustr :=
  str "cafb6a64f359eff5af49defffaf3a6516004b3337ba91d1ec8d7ddc93ff13406".

Definition qr_payload_default : ustr :=
  str "eyJjaGVja3N1bSI6IjI2NDEzNDRENjdDRSIsImZpbGVfaGFzaCI6ImFmMmJkYmUxYWE5YjZlYzFlMmFkZTFkNjk0ZjQxZmM3MWE4MzFkMDI2OGU5ODkxNTYyMTEzZDhhNjJhZGQxYmYiLCJpZCI6IklOVi0xMjM0LTU2NzgiLCJpc3N1ZWRfYXQiOiIyMDI1LTAxLTAxVDAwOjAwOjAwWiIsIm5vcm1hbGl6YXRpb25fc3RyYXRlZ3kiOiJ1bmljb2RlX25ma2NfbG93ZXJjYXNlX3doaXRlc3BhY2VfY29sbGFwc2UiLCJzaWduYXR1cmUiOiI3OGY0YTAzMDYzZGU4Yjc1ZTkyMjdjMzY5MjE4NDYyY2JhYWUyOGJmZGUwNGVlMTM1YTkzOWIyMmU3MWIxZjg2IiwiemtfY29tbWl0bWVudCI6IjAyNzliZTY2N2VmOWRjYmJhYzU1YTA2Mjk1Y2U4NzBiMDcwMjliZmNkYjJkY2UyOGQ5NTlmMjgxNWIxNmY4MTc5OCJ9".

(** The record right after upload, before any verification artefact. *)
Definition fresh_document : Document :=
  [(str "id", VStr (str "INV-1234-5678"));
   (str "name", VStr (str "INV-1234-5678.pdf"));
   (str "file_hash", VStr sample_file_hash);
   (str "user_id", VStr (str "7f3c1a52-0000-4000-8000-000000000001"));
   (str "timestamp", VStr (str "2025-01-01T00:00:00Z"));
   (str "status", VStr (str "active"));
   (str "normalization_strategy", VStr NORMALIZATION_STRATEGY);
   (str "zk_commitment", VStr sample_commitment);
   (str "checksum", VNone);
   (str "signature", VNone);
   (str "qr_payload", VNone);
   (str "qr_png_base64", VNone)].

(** The same record once its payload was built under the default
    secret. *)
Definition signed_document : Document :=
  [(str "id", VStr (str "INV-1234-5678"));
   (str "name", VStr (str "INV-1234-5678.pdf"));
   (str "file_hash", VStr sample_file_hash);
   (str "user_id", VStr (str "7f3c1a52-0000-4000-8000-000000000001"));
   (str "timestamp", VStr (str "2025-01-01T00:00:00Z"));
   (str "status", VStr (str "active"));
   (str "normalization_strategy", VStr NORMALIZATION_STRATEGY);
   (str "zk_commitment", VStr sample_commitment);
   (str "checksum", VStr (str "2641344D67CE"));
   (str "signature", VStr signature_default);
   (str "qr_payload", VStr qr_payload_default);
   (str "qr_png_base64", VStr (str "iVBORw0KGgo="))].

Definition other_document : Document :=
  [(str "id", VStr (str "INV-0000-0001"));
   (str "file_hash", VStr (str "00"));
   (str "status", VStr (str "active"))].

Definition world_of (documents : list Document) (coming : list (option fault)) : world :=
  {| file := Docs documents; coming_writes := coming; writes_attempted := 0 |}.

End Stored.

(** ** The fields the persist step may write *)

Module Persisted.

Definition persisted_keys : list ustr :=
  [str "normalization_strategy"; str "timestamp"; str "checksum";
   str "signature"; str "qr_payload"; str "qr_png_base64"].

(** The two records agree on every key outside [keys]. *)
Definition same_outside (keys : list ustr) (d d' : Main.Document) : Prop :=
  forall k, ~ In k keys -> Dict.get d' k = Dict.get d k.

(** The six fields as the returned payload carries them. *)
Definition written_fields (p : Main.DocumentVerificationPayload) : Main.Document :=
  [(str "normalization_strategy", Values.VStr (Main.normalization_strategy p));
   (str "timestamp", Values.VStr (Main.issued_at p));
   (str "checksum", Values.VStr (Main.checksum p));
   (str "signature", Values.VStr (Main.signature p));
   (str "qr_payload", Values.VStr (Main.qr_payload p));
   (str "qr_png_base64", Values.VStr (Main.qr_png_base64 p))].

End Persisted.

(** ** The payload a rotated secret gives *)

Module Rotated.

Import Values Main Stored.

Definition rotated_secret : option ustr := Some (str "rotated-secret").

(** What [build_verification_payload] returns for [signed_document]
    once the signing secret has changed. *)
Definition resigned_payload : DocumentVerificationPayload :=
  {| id := str "INV-1234-5678";
     file_hash := sample_file_hash;
     issued_at := str "2025-01-01T00:00:00Z";
     normalization_strategy := NORMALIZATION_STRATEGY;
     zk_commitment := sample_commitment;
     checksum := str "2641344D67CE";
     signature := signature_rotated;
     qr_payload := qr_payload_default;
     qr_png_base64 := str "iVBORw0KGgo=" |}.

(** The fields the QR payload is expected to encode: the signed fields
    and the signature returned. *)
Definition signed_fields (p : DocumentVerificationPayload) : Document :=
  [(str "id", VStr (id p));
   (str "file_hash", VStr (file_hash p));
   (str "issued_at", VStr (issued_at p));
   (str "normalization_strategy", VStr (normalization_strategy p));
   (str "zk_commitment", VStr (zk_commitment p));
   (str "checksum", VStr (checksum p));
   (str "signature", VStr (signature p))].

End Rotated.

(** * Canonical text: the shape [normalize_text] leaves *)

Module Canonical.

Local Abbreviation ws c := (Py_UNICODE_ISSPACE c).

(** No whitespace other than single blanks. *)
Fixpoint tidy (s : ustr) : Prop :=
  match s with
  | [] => True
  | c :: r =>
    (ws c = true -> c = 32 /\ match r with d :: _ => ws d = false | [] => True end)
    /\ tidy r
  end.

Definition no_space_at_head (s : ustr) : Prop :=
  match s with
  | c :: _ => ws c = false
  | [] => True
  end.

End Canonical.

(** * Sample: three signed fields *)

Module Signed.

Import Values.

Definition fields : Dict.dict pyval :=
  [(str "id", VStr (str "INV-1234-5678"));
   (str "file_hash", VStr Stored.sample_file_hash);
   (str "checksum", VStr (str "2641344D67CE"))].

(** Their signature under the default secret. *)
Definition signature : ustr :=
  str "fdb3c72e51cc851435d89bedc81b64f33544aa2fa52e2abeff5665e1009f34db".

(** The same signature with its first character replaced by U+00E9. *)
Definition signature_with_e_acute : ustr :=
  233 :: tl signature.

End Signed.

(** * Representable payloads *)

Module Representable.

Import Values.

(** A Unicode scalar value: a code point that is not a surrogate. *)
Definition scalar (c : Z) : bool :=
  (0 <=? c) && (c <=? 0x10FFFF) && negb ((0xD800 <=? c) && (c <=? 0xDFFF)).

Definition text (s : ustr) : bool := forallb scalar s.

Fixpoint distinct (l : list ustr) : bool :=
  match l with
  | [] => true
  | k :: r => negb (existsb (ustr_eqb k) r) && distinct r
  end.

(** Values built from [None], booleans, integers, strings of scalar
    values, lists and dictionaries whose keys are such strings, each
    key once. *)
Fixpoint representable (v : pyval) : bool :=
  match v with
  | VNone | VBool _ | VInt _ => true
  | VStr s => text s
  | VList l => forallb representable l
  | VDict d =>
    distinct (map fst d)
    && forallb (fun kv => text (fst kv) && representable (snd kv)) d
  end.

(** The same value with every dictionary in the order of its keys. *)
Fixpoint sorted_value (v : pyval) : pyval :=
  match v with
  | VList l => VList (map sorted_value l)
  | VDict d =>
    VDict (Signature.sorted_items (map (fun kv => (fst kv, sorted_value (snd kv))) d))
  | _ => v
  end.

(** What may follow a value inside JSON text: nothing, a comma, or a
    closing bracket or brace. *)
Definition delimited (rest : ustr) : Prop :=
  match rest with
  | [] => True
  | c :: _ => c = 44 \/ c = 93 \/ c = 125
  end.

(** The characters 1 to 9 with their values. *)
Definition leading_digits : list (Z * positive) :=
  [(49, 1%positive); (50, 2%positive); (51, 3%positive); (52, 4%positive);
   (53, 5%positive); (54, 6%positive); (55, 7%positive); (56, 8%positive);
   (57, 9%positive)].

(** The first character of a JSON value that [dumps] writes. *)
Definition value_heads : list Z :=
  [110; 116; 102; 45; 48; 49; 50; 51; 52; 53; 54; 55; 56; 57; 34; 91; 123].

(** [scan_once] reads the text of [v] back, whatever delimiter follows. *)
Definition reads_back (v : pyval) : Prop :=
  forall (fuel : nat) (rest : ustr),
    (length (Json.dumps v) < fuel)%nat ->
    delimited rest ->
    Json.scan_once fuel (Json.dumps v ++ rest)
    = Returned (sorted_value v, rest).

End Representable.

(** * Sample payloads *)

Module Payloads.

Import Values.

(** Every kind of value, with keys out of order, a quote, a line feed
    and characters outside ASCII and outside the basic plane. *)
Definition nested : Dict.dict pyval :=
  [(str "id", VStr (str "INV-1234-5678"));
   (str "checksum", VStr (str "2641344D67CE"));
   (str "pages", VInt 12);
   (str "offset", VInt (-7));
   (str "flags", VList [VBool true; VBool false; VNone; VList []; VDict []]);
   (str "meta",
    VDict [(str "title", VStr [34; 233; 10; 0x2603; 0x1F600; 92]);
           (str "author", VStr [])])].

(** A string that holds the two halves of a surrogate pair as two
    characters. *)
Definition split_pair : Dict.dict pyval :=
  [(str "a", VStr [0xD83D; 0xDE00])].

(** One character outside the basic plane. *)
Definition emoji : Dict.dict pyval :=
  [(str "a", VStr [0x1F600])].

End Payloads.

(** * The alphabet of an encoded payload *)

Module UrlSafe.

(** A-Z, a-z, 0-9, [-], [_] and the padding character [=]. *)
Definition url_safe (c : Z) : bool :=
  ((65 <=? c) && (c <=? 90)) || ((97 <=? c) && (c <=? 122))
  || ((48 <=? c) && (c <=? 57)) || (c =? 45) || (c =? 95) || (c =? 61).

(** A character that base64 decoding skips: not in the standard or
    URL-safe alphabet, and not the padding character. *)
Definition foreign (c : Z) : bool :=
  match Base64.b64_value (Base64.translate c) with
  | Some _ => false
  | None => negb (c =? 61)
  end.

End UrlSafe.

(** * Properties *)

(** ** Evaluation on machine words agrees with the model *)

Section FastCorrect.

Import Ecdsa.

Local Notation "[ x ]" := (BigZ.to_Z x).

Lemma Fast_egcd_loop fuel r0 r1 s0 s1 :
  [Fast.egcd_loop fuel r0 r1 s0 s1] = egcd_loop fuel [r0] [r1] [s0] [s1].
Proof.
  revert r0 r1 s0 s1.
  induction fuel as [|fuel IH]; intros; simpl; [reflexivity|].
  rewrite BigZ.spec_eqb. change [0%bigZ] with 0.
  destruct ([r1] =? 0); [reflexivity|].
  rewrite IH.
  now rewrite !BigZ.spec_sub, !BigZ.spec_mul, !BigZ.spec_div.
Qed.

Lemma Fast_inverse_mod fuel x m :
  [Fast.inverse_mod fuel x m] = egcd_loop fuel ([x] mod [m]) [m] 1 0 mod [m].
Proof.
  unfold Fast.inverse_mod.
  now rewrite BigZ.spec_modulo, Fast_egcd_loop, BigZ.spec_modulo.
Qed.

Lemma Fast_pow_mod_pos x e m :
  [Fast.pow_mod_pos x e m] = pow_mod_pos [x] e [m].
Proof.
  induction e as [e IH|e IH|]; simpl.
  - now rewrite !BigZ.spec_modulo, !BigZ.spec_mul, BigZ.spec_modulo, BigZ.spec_mul, IH.
  - now rewrite BigZ.spec_modulo, BigZ.spec_mul, IH.
  - now rewrite BigZ.spec_modulo.
Qed.

Lemma Fast_pow_mod x e m : pow_mod x e m = Fast.pow_mod x e m.
Proof.
  destruct e; simpl; try reflexivity.
  now rewrite Fast_pow_mod_pos, !BigZ.spec_of_Z.
Qed.

Lemma Fast_pt_add (C : curve) pp aa P Q :
  [pp] = p C -> [aa] = a C ->
  Fast.to_point (Fast.pt_add pp aa (S (2 * Z.to_nat (Z.log2 (p C)))) P Q)
  = pt_add C (Fast.to_point P) (Fast.to_point Q).
Proof.
  intros Hp Ha.
  destruct P as [|x1 y1], Q as [|x2 y2]; try reflexivity.
  unfold Fast.pt_add, pt_add, Fast.to_point.
  rewrite !BigZ.spec_eqb, BigZ.spec_modulo, BigZ.spec_add, Hp.
  change [0%bigZ] with 0.
  destruct ([x1] =? [x2]).
  - destruct (([y1] + [y2]) mod p C =? 0); [reflexivity|].
    cbv zeta.
    repeat (rewrite ?BigZ.spec_modulo, ?BigZ.spec_sub, ?BigZ.spec_mul, ?BigZ.spec_add,
             ?Fast_inverse_mod, ?Hp, ?Ha).
    reflexivity.
  - cbv zeta.
    repeat (rewrite ?BigZ.spec_modulo, ?BigZ.spec_sub, ?BigZ.spec_mul, ?BigZ.spec_add,
             ?Fast_inverse_mod, ?Hp, ?Ha).
    reflexivity.
Qed.

Lemma Fast_pt_mul_pos (C : curve) pp aa k P :
  [pp] = p C -> [aa] = a C ->
  Fast.to_point (Fast.pt_mul_pos pp aa (S (2 * Z.to_nat (Z.log2 (p C)))) k P)
  = pt_mul_pos C k (Fast.to_point P).
Proof.
  intros Hp Ha.
  induction k as [k IH|k IH|]; cbn [Fast.pt_mul_pos pt_mul_pos]; cbv zeta.
  - rewrite !(Fast_pt_add C) by assumption. now rewrite IH.
  - rewrite (Fast_pt_add C) by assumption. now rewrite IH.
  - reflexivity.
Qed.

Lemma Fast_pt_mul (C : curve) k P : pt_mul C k P = Fast.pt_mul C k P.
Proof.
  destruct k; try reflexivity.
  unfold Fast.pt_mul, pt_mul.
  rewrite (Fast_pt_mul_pos C) by apply BigZ.spec_of_Z.
  destruct P; simpl; now rewrite ?BigZ.spec_of_Z.
Qed.

End FastCorrect.

(** ** Scalar multiplication in a curve group *)

Section CurveGroup.

Import Ecdsa CurveFacts.

Variable C : curve.
Hypothesis HC : curve_group C.

Local Abbreviation valid P := (valid_point C P = true).

Lemma pt_add_Inf_r P : pt_add C P Inf = P.
Proof. now destruct P. Qed.

Lemma valid_nmul n P : valid P -> valid (nmul C n P).
Proof.
  intros HP. induction n as [|n IH]; simpl; [reflexivity|].
  now apply (cg_closed HC).
Qed.

Lemma nmul_add n m P :
  valid P -> nmul C (n + m) P = pt_add C (nmul C n P) (nmul C m P).
Proof.
  intros HP. induction n as [|n IH]; simpl; [reflexivity|].
  rewrite IH. symmetry. apply (cg_assoc HC); auto using valid_nmul.
Qed.

Lemma nmul_1 P : nmul C 1 P = P.
Proof. simpl. apply pt_add_Inf_r. Qed.

Lemma nmul_Inf n : nmul C n Inf = Inf.
Proof. induction n as [|n IH]; simpl; auto. Qed.

Lemma nmul_mul n m P :
  valid P -> nmul C (n * m) P = nmul C n (nmul C m P).
Proof.
  intros HP. induction n as [|n IH]; simpl; [reflexivity|].
  now rewrite nmul_add, IH.
Qed.

Lemma pt_mul_pos_nmul k P :
  valid P -> pt_mul_pos C k P = nmul C (Pos.to_nat k) P.
Proof.
  intros HP. induction k as [k IH|k IH|]; cbn [pt_mul_pos]; cbv zeta.
  - rewrite IH, Pos2Nat.inj_xI.
    replace (S (2 * Pos.to_nat k)) with ((Pos.to_nat k + Pos.to_nat k) + 1)%nat by lia.
    now rewrite !nmul_add, nmul_1.
  - rewrite IH, Pos2Nat.inj_xO.
    replace (2 * Pos.to_nat k)%nat with (Pos.to_nat k + Pos.to_nat k)%nat by lia.
    now rewrite nmul_add.
  - now rewrite Pos2Nat.inj_1, nmul_1.
Qed.

Lemma pt_mul_nmul k P :
  0 <= k -> valid P -> pt_mul C k P = nmul C (Z.to_nat k) P.
Proof.
  intros Hk HP. destruct k as [|k|k]; try lia; simpl; [reflexivity|].
  now apply pt_mul_pos_nmul.
Qed.

Lemma valid_pt_mul k P : valid P -> valid (pt_mul C k P).
Proof.
  intros HP. destruct k as [|k|k]; try reflexivity.
  simpl. rewrite pt_mul_pos_nmul by assumption. now apply valid_nmul.
Qed.

Lemma pt_mul_add j k P :
  0 <= j -> 0 <= k -> valid P ->
  pt_mul C (j + k) P = pt_add C (pt_mul C j P) (pt_mul C k P).
Proof.
  intros Hj Hk HP.
  rewrite !pt_mul_nmul by (assumption || lia).
  now rewrite Z2Nat.inj_add, nmul_add.
Qed.

Lemma pt_mul_mul j k P :
  0 <= j -> 0 <= k -> valid P ->
  pt_mul C (j * k) P = pt_mul C j (pt_mul C k P).
Proof.
  intros Hj Hk HP.
  rewrite (pt_mul_nmul (k := j * k)) by (assumption || nia).
  rewrite (pt_mul_nmul (k := j)) by (auto using valid_pt_mul).
  rewrite (pt_mul_nmul (k := k)) by assumption.
  now rewrite Z2Nat.inj_mul, nmul_mul.
Qed.

Lemma pt_mul_Inf k : pt_mul C k Inf = Inf.
Proof.
  destruct k as [|k|k]; try reflexivity.
  simpl. rewrite pt_mul_pos_nmul by reflexivity. apply nmul_Inf.
Qed.

(** A scalar acts on the generator through its residue modulo the order. *)
Lemma pt_mul_mod_order k :
  0 <= k -> pt_mul C (k mod order C) (generator C) = pt_mul C k (generator C).
Proof.
  intros Hk.
  pose proof (cg_order_gt HC) as Hn.
  pose proof (cg_generator HC) as HG.
  rewrite (Z.div_mod k (order C)) at 2 by lia.
  rewrite pt_mul_add, (Z.mul_comm (order C)), pt_mul_mul; try assumption.
  - now rewrite (cg_order HC), pt_mul_Inf.
  - apply Z.div_pos; lia.
  - lia.
  - apply Z.mul_nonneg_nonneg; [lia|apply Z.div_pos; lia].
  - apply Z.mod_pos_bound; lia.
Qed.

(** The equation the verifier checks holds for a response computed from
    the nonce [k], the challenge [e] and the secret [x]. *)
Lemma schnorr_equation k e x :
  0 <= k -> 0 <= e -> 0 <= x ->
  pt_mul C ((k + e * x) mod order C) (generator C)
  = pt_add C (pt_mul C k (generator C))
             (pt_mul C e (pt_mul C x (generator C))).
Proof.
  intros Hk He Hx.
  pose proof (cg_generator HC) as HG.
  rewrite pt_mul_mod_order by nia.
  rewrite pt_mul_add by (assumption || nia).
  now rewrite pt_mul_mul.
Qed.

End CurveGroup.

(** ** Bytes, hexadecimal text and integers *)

Section Encodings.

Lemma in_range_In n x : 0 <= x < n -> In x (CurveFacts.range n).
Proof.
  intros H. unfold CurveFacts.range.
  apply in_map_iff. exists (Z.to_nat x). split; [lia|].
  apply in_seq. lia.
Qed.

Lemma hex_digit_value_hex_digit d :
  0 <= d < 16 -> hex_digit_value (hex_digit d) = Some d.
Proof.
  intros H. apply in_range_In in H. simpl in H.
  repeat (destruct H as [<-|H]; [reflexivity|]). destruct H.
Qed.

Lemma hex_digit_not_space d : 0 <= d < 16 -> Py_ISSPACE (hex_digit d) = false.
Proof.
  intros H. apply in_range_In in H. simpl in H.
  repeat (destruct H as [<-|H]; [reflexivity|]). destruct H.
Qed.

Lemma hex_digit_ascii d :
  0 <= d < 16 -> ascii_of_numeric (hex_digit d) = Some (hex_digit d).
Proof.
  intros H. apply in_range_In in H. simpl in H.
  repeat (destruct H as [<-|H]; [reflexivity|]). destruct H.
Qed.

Lemma hex_digit_plain d :
  0 <= d < 16 ->
  (hex_digit d =? 95) = false /\ (hex_digit d =? 43) = false
  /\ (hex_digit d =? 45) = false /\ (hex_digit d =? 120) = false
  /\ (hex_digit d =? 88) = false.
Proof.
  intros H. apply in_range_In in H. simpl in H.
  repeat (destruct H as [<-|H]; [repeat split|]). destruct H.
Qed.

Lemma length_be_bytes n x : length (be_bytes n x) = n.
Proof.
  revert x. induction n as [|n IH]; intros; simpl; [reflexivity|].
  rewrite length_app, IH. simpl. lia.
Qed.

Lemma be_bytes_is_byte n x : Forall is_byte (be_bytes n x).
Proof.
  revert x. induction n as [|n IH]; intros; simpl; [constructor|].
  apply Forall_app. split; [apply IH|].
  constructor; [|constructor]. apply Z.mod_pos_bound. lia.
Qed.

Lemma from_bytes_snoc l b : from_bytes (l ++ [b]) = from_bytes l * 256 + b.
Proof. unfold from_bytes. now rewrite fold_left_app. Qed.

Lemma from_bytes_be_bytes n x :
  0 <= x < 256 ^ Z.of_nat n -> from_bytes (be_bytes n x) = x.
Proof.
  revert x. induction n as [|n IH]; intros x Hx.
  - simpl in *. unfold from_bytes. simpl. lia.
  - cbn [be_bytes]. rewrite from_bytes_snoc, IH.
    + pose proof (Z.div_mod x 256). lia.
    + rewrite Nat2Z.inj_succ, Z.pow_succ_r in Hx by lia.
      split; [apply Z.div_pos; lia|].
      apply Z.div_lt_upper_bound; lia.
Qed.

(** [bytes.fromhex(bs.hex()) == bs] *)
Lemma fromhex_loop_hex bs fuel :
  Forall is_byte bs -> (length bs < fuel)%nat ->
  fromhex_loop fuel (hex bs) = Returned bs.
Proof.
  intros Hbs. revert fuel.
  induction Hbs as [|b bs Hb Hbs IH]; intros fuel Hf.
  - destruct fuel; reflexivity.
  - destruct fuel as [|fuel]; [simpl in Hf; lia|].
    assert (H1 : 0 <= b / 16 < 16).
    { unfold is_byte in Hb. split; [apply Z.div_pos; lia|apply Z.div_lt_upper_bound; lia]. }
    assert (H2 : 0 <= b mod 16 < 16) by (apply Z.mod_pos_bound; lia).
    cbn [hex fromhex_loop skip_spaces].
    rewrite (hex_digit_not_space H1), !hex_digit_value_hex_digit by assumption.
    rewrite IH by (simpl in Hf; lia). cbn [bind].
    f_equal. f_equal. pose proof (Z.div_mod b 16). lia.
Qed.

Lemma length_hex bs : length (hex bs) = (2 * length bs)%nat.
Proof. induction bs as [|b bs IH]; simpl; [reflexivity|]. rewrite IH. lia. Qed.

Lemma fromhex_hex bs : Forall is_byte bs -> fromhex (hex bs) = Returned bs.
Proof.
  intros H. unfold fromhex. apply fromhex_loop_hex; [assumption|].
  rewrite length_hex. lia.
Qed.

Lemma transform_numeric_hex bs :
  Forall is_byte bs -> transform_numeric (hex bs) = Some (hex bs).
Proof.
  induction 1 as [|b bs Hb Hbs IH]; [reflexivity|].
  assert (H1 : 0 <= b / 16 < 16).
  { unfold is_byte in Hb. split; [apply Z.div_pos; lia|apply Z.div_lt_upper_bound; lia]. }
  assert (H2 : 0 <= b mod 16 < 16) by (apply Z.mod_pos_bound; lia).
  cbn [hex transform_numeric].
  now rewrite !hex_digit_ascii, IH by assumption.
Qed.

Lemma scan_hex_hex bs acc n :
  Forall is_byte bs ->
  scan_hex (hex bs) acc false n
  = Some (fold_left (fun v b => v * 256 + b) bs acc, (n + 2 * length bs)%nat, []).
Proof.
  intros Hbs. revert acc n.
  induction Hbs as [|b bs Hb Hbs IH]; intros acc n.
  - simpl. now rewrite Nat.add_0_r.
  - assert (H1 : 0 <= b / 16 < 16).
    { unfold is_byte in Hb. split; [apply Z.div_pos; lia|apply Z.div_lt_upper_bound; lia]. }
    assert (H2 : 0 <= b mod 16 < 16) by (apply Z.mod_pos_bound; lia).
    destruct (hex_digit_plain H1) as (E1 & _), (hex_digit_plain H2) as (E2 & _).
    cbn [hex scan_hex].
    rewrite E1, E2, !hex_digit_value_hex_digit by assumption.
    rewrite IH. cbn [fold_left length].
    replace (16 * (16 * acc + b / 16) + b mod 16) with (acc * 256 + b)
      by (pose proof (Z.div_mod b 16); lia).
    replace (S (S n) + 2 * length bs)%nat with (n + 2 * S (length bs))%nat by lia.
    reflexivity.
Qed.

(** [int(bs.hex(), 16) == int.from_bytes(bs, "big")] *)
Lemma int16_hex bs :
  Forall is_byte bs -> bs <> [] -> int16 (hex bs) = Returned (from_bytes bs).
Proof.
  intros Hbs Hne. unfold int16.
  rewrite transform_numeric_hex by assumption.
  destruct bs as [|b bs]; [congruence|].
  pose proof (scan_hex_hex 0 0 Hbs) as Hscan.
  inversion Hbs as [|? ? Hb Hbs']; subst.
  assert (H1 : 0 <= b / 16 < 16).
  { unfold is_byte in Hb. split; [apply Z.div_pos; lia|apply Z.div_lt_upper_bound; lia]. }
  assert (H2 : 0 <= b mod 16 < 16) by (apply Z.mod_pos_bound; lia).
  destruct (hex_digit_plain H1) as (E1 & E2 & E3 & _).
  destruct (hex_digit_plain H2) as (_ & _ & _ & E4 & E5).
  cbn [hex] in *.
  cbn [skip_spaces]. rewrite (hex_digit_not_space H1).
  assert (Hsign : parse_sign (hex_digit (b / 16) :: hex_digit (b mod 16) :: hex bs)
                  = (1, hex_digit (b / 16) :: hex_digit (b mod 16) :: hex bs)).
  { unfold parse_sign.
    destruct (hex_digit (b / 16)) as [|q|q] eqn:E; try reflexivity.
    repeat (destruct q as [q|q|]; try reflexivity); simpl in E2, E3; discriminate. }
  rewrite Hsign.
  assert (H0x : skip_0x (hex_digit (b / 16) :: hex_digit (b mod 16) :: hex bs)
                = hex_digit (b / 16) :: hex_digit (b mod 16) :: hex bs).
  { unfold skip_0x. rewrite E4, E5. simpl.
    destruct (hex_digit (b / 16)) as [|q|q]; try reflexivity.
    repeat (destruct q as [q|q|]; try reflexivity). }
  rewrite H0x.
  assert (Hus : forall A (x y : A),
             match hex_digit (b / 16) :: hex_digit (b mod 16) :: hex bs with
             | 95 :: _ => x | _ => y end = y).
  { intros. destruct (hex_digit (b / 16)) as [|q|q]; try reflexivity.
    repeat (destruct q as [q|q|]; try reflexivity); simpl in E1; discriminate. }
  rewrite Hus, Hscan.
  cbn [length Nat.add Nat.mul skip_spaces]. unfold from_bytes.
  now rewrite Z.mul_1_l.
Qed.

End Encodings.

(** ** The small curve is a curve group *)

Section SmallCurve.

Import Ecdsa CurveFacts.

Lemma valid_in_all_points C P : valid_point C P = true -> In P (all_points C).
Proof.
  destruct P as [|x y]; [now left|].
  intros H. right.
  assert (Hx : 0 <= x < p C /\ 0 <= y < p C).
  { simpl in H. unfold in_range in H. lia. }
  apply in_flat_map. exists x. split; [apply in_range_In; lia|].
  apply in_flat_map. exists y. split; [apply in_range_In; lia|].
  rewrite H. now left.
Qed.

Lemma forall_points C pts (Q : point -> bool) :
  all_points C = pts -> forallb Q pts = true ->
  forall P, valid_point C P = true -> Q P = true.
Proof.
  intros <- H P HP. rewrite forallb_forall in H.
  apply H, valid_in_all_points, HP.
Qed.

Lemma forall_points2 C pts (Q : point -> point -> bool) :
  all_points C = pts ->
  forallb (fun P1 => forallb (Q P1) pts) pts = true ->
  forall P1 P2, valid_point C P1 = true -> valid_point C P2 = true -> Q P1 P2 = true.
Proof.
  intros E H P1 P2 H1 H2.
  apply (forall_points (Q P1) E); [|assumption].
  now apply (forall_points (fun P1 => forallb (Q P1) pts) E).
Qed.

Lemma forall_points3 C pts (Q : point -> point -> point -> bool) :
  all_points C = pts ->
  forallb (fun P1 => forallb (fun P2 => forallb (Q P1 P2) pts) pts) pts = true ->
  forall P1 P2 P3,
    valid_point C P1 = true -> valid_point C P2 = true -> valid_point C P3 = true ->
    Q P1 P2 P3 = true.
Proof.
  intros E H P1 P2 P3 H1 H2 H3.
  apply (forall_points (Q P1 P2) E); [|assumption].
  now apply (forall_points2 (fun P1 P2 => forallb (Q P1 P2) pts) E).
Qed.

Lemma forall_range n (Q : Z -> bool) :
  forallb Q (range n) = true -> forall x, 0 <= x < n -> Q x = true.
Proof.
  intros H x Hx. rewrite forallb_forall in H. now apply H, in_range_In.
Qed.

Lemma T43_all_points : all_points T43 = T43_points.
Proof. vm_compute. reflexivity. Qed.

Lemma T43_group : curve_group T43.
Proof.
  constructor.
  - reflexivity.
  - split; vm_compute; discriminate.
  - split; [vm_compute; lia|vm_compute; discriminate].
  - reflexivity.
  - reflexivity.
  - intros P Q.
    apply (forall_points2 (fun P Q => valid_point T43 (pt_add T43 P Q)) T43_all_points).
    vm_compute. reflexivity.
  - intros P Q R HP HQ HR.
    assert (H : (if point_eq_dec (pt_add T43 (pt_add T43 P Q) R)
                                  (pt_add T43 P (pt_add T43 Q R))
                 then true else false) = true).
    { revert P Q R HP HQ HR.
      apply (forall_points3
               (fun P Q R => if point_eq_dec (pt_add T43 (pt_add T43 P Q) R)
                                             (pt_add T43 P (pt_add T43 Q R))
                             then true else false) T43_all_points).
      vm_compute. reflexivity. }
    destruct (point_eq_dec _ _); [assumption|discriminate].
  - reflexivity.
  - intros k Hk.
    assert (H : negb (point_eqb (pt_mul T43 k (generator T43)) Inf) = true).
    { revert k Hk.
      assert (H : forall k, 0 <= k < 31 ->
                (if k =? 0 then true
                 else negb (point_eqb (pt_mul T43 k (generator T43)) Inf)) = true).
      { apply forall_range. vm_compute. reflexivity. }
      intros k Hk. specialize (H k). change (order T43) with 31 in Hk.
      destruct (Z.eqb_spec k 0); [lia|]. apply H. lia. }
    intros E. rewrite E in H. discriminate.
  - intros y Hy.
    assert (H : (let r := pow_mod (y * y mod p T43) ((p T43 + 1) / 4) (p T43) in
                 (r =? y) || (r =? p T43 - y)) = true).
    { revert y Hy. apply forall_range. vm_compute. reflexivity. }
    cbv zeta in *. lia.
Qed.

End SmallCurve.

(** ** The commitment and its encoding *)

Section Commitment.

Import Ecdsa CurveFacts ZkProof.

Variable C : curve.
Hypothesis HC : curve_group C.

Lemma p_pos : 0 < p C.
Proof.
  pose proof (cg_generator HC) as H. simpl in H. unfold in_range in H. lia.
Qed.

Lemma point_eqb_refl P : point_eqb P P = true.
Proof. destruct P; simpl; [reflexivity|]. now rewrite !Z.eqb_refl. Qed.

Lemma pow_mod_3 x : pow_mod x 3 (p C) = (x * x * x) mod p C.
Proof.
  pose proof p_pos. simpl.
  rewrite Z.mul_mod_idemp_l by lia.
  rewrite <- Z.mul_mod_idemp_l by lia.
  rewrite <- Z.mul_mod by lia.
  now rewrite Z.mul_mod_idemp_l by lia.
Qed.

Lemma curve_equation x y :
  contains_point C x y = true ->
  (pow_mod x 3 (p C) + a C * x + b C) mod p C = (y * y) mod p C.
Proof.
  pose proof p_pos. unfold contains_point. intros H0.
  apply Z.eqb_eq in H0.
  rewrite pow_mod_3, <- Z.add_assoc, Z.add_mod_idemp_l by lia.
  apply Z.mod_divide in H0; [|lia]. destruct H0 as [q Hq].
  replace (y * y) with ((x * x * x + (a C * x + b C)) + q * p C) by lia.
  now rewrite Z.mod_add by lia.
Qed.

Lemma valid_Aff x y :
  valid_point C (Aff x y) = true ->
  0 <= x < p C /\ 0 <= y < p C /\ contains_point C x y = true.
Proof.
  cbn [valid_point]. unfold in_range. intros H.
  apply andb_true_iff in H. destruct H as (H & ->).
  split; [lia|split; [lia|reflexivity]].
Qed.

(** Decoding the compressed encoding of a point returns the point. *)
Lemma compressed_roundtrip x y :
  valid_point C (Aff x y) = true ->
  VerifyingKey_from_string C ((if Z.odd y then 3 else 2) :: be_bytes (baselen C) x)
  = Returned (Aff x y).
Proof.
  intros HP. pose proof p_pos as Hp.
  destruct (valid_Aff x y HP) as (Hx & Hy & Hon).
  destruct (cg_baselen HC) as (Hlen & Hfit).
  unfold VerifyingKey_from_string. cbn [length]. rewrite length_be_bytes.
  destruct (Nat.eqb_spec (S (baselen C)) (2 * baselen C)); [lia|].
  destruct (Nat.eqb_spec (S (baselen C)) (2 * baselen C + 1)); [lia|].
  destruct (Nat.eqb_spec (S (baselen C)) (baselen C + 1)); [|lia].
  unfold from_compressed.
  assert (Hpre : ((if Z.odd y then 3 else 2) =? 2) || ((if Z.odd y then 3 else 2) =? 3) = true)
    by (destruct (Z.odd y); reflexivity).
  rewrite Hpre, from_bytes_be_bytes by lia.
  rewrite (curve_equation x y Hon).
  unfold square_root_mod_prime.
  assert (Hodd : forall r, r = y \/ r = p C - y ->
            (r * r) mod p C = (y * y) mod p C
            /\ (if Bool.eqb ((if Z.odd y then 3 else 2) =? 2) (Z.odd r) then p C - r else r) = y).
  { intros r [->| ->].
    - split; [reflexivity|]. destruct (Z.odd y); reflexivity.
    - split.
      + replace ((p C - y) * (p C - y)) with (y * y + (p C - 2 * y) * p C) by ring.
        now rewrite Z.mod_add by lia.
      + rewrite Z.odd_sub, (cg_odd HC). destruct (Z.odd y); simpl; lia. }
  destruct (Hodd _ (cg_sqrt HC Hy)) as (Hsq & Hsel).
  rewrite Hsq, Z.eqb_refl. cbn [bind]. rewrite Hsel.
  unfold from_public_point. now rewrite HP.
Qed.

Lemma ensure_scalar_range d :
  0 < _ensure_scalar C d < order C.
Proof.
  pose proof (cg_order_gt HC). unfold _ensure_scalar, ORDER.
  pose proof (Z.mod_pos_bound d (order C)).
  destruct (Z.eqb_spec (d mod order C) 0); lia.
Qed.

Lemma generator_multiple k :
  0 < k < order C ->
  exists x y, pt_mul C k (generator C) = Aff x y /\ valid_point C (Aff x y) = true.
Proof.
  intros Hk.
  pose proof (valid_pt_mul HC k (generator C) (cg_generator HC)) as Hv.
  destruct (pt_mul C k (generator C)) as [|x y] eqn:E.
  - now destruct (cg_exact HC Hk).
  - now exists x, y.
Qed.

Lemma commitment_of_scalar hash_hex d x y :
  int16 hash_hex = Returned d ->
  pt_mul C (_ensure_scalar C d) (generator C) = Aff x y ->
  commitment_from_hash C hash_hex
  = Returned (hex ((if Z.odd y then 3 else 2) :: be_bytes (baselen C) x)).
Proof.
  intros Hd HP. unfold commitment_from_hash. rewrite Hd. cbn [bind].
  unfold SigningKey_from_secret_exponent.
  pose proof (ensure_scalar_range d) as Hs.
  destruct (Z.leb_spec 1 (_ensure_scalar C d)); [|lia].
  destruct (Z.ltb_spec (_ensure_scalar C d) (order C)); [|lia].
  cbn [andb bind]. rewrite HP. reflexivity.
Qed.

Lemma compressed_is_bytes x y :
  0 <= x -> Forall is_byte ((if Z.odd y then 3 else 2) :: be_bytes (baselen C) x).
Proof.
  intros Hx. constructor; [destruct (Z.odd y); unfold is_byte; lia|apply be_bytes_is_byte].
Qed.

End Commitment.

(** C3. For every 256-bit digest [d], written as the 64 hexadecimal
    digits [hexdigest] produces, [commitment_from_hash] returns the
    compressed encoding (sign byte 02 or 03, then the abscissa) of
    [scalar * G], where [scalar] is [d mod order], or 1 when that is
    zero; this point is not the identity, lies on the curve, and is the
    point the encoding decodes to.  The curve is any curve that satisfies
    [curve_group]. *)
Theorem commitment_from_hash_correct :
  forall (C : Ecdsa.curve), CurveFacts.curve_group C ->
  forall d : Z, 0 <= d < 2 ^ 256 ->
    let scalar := if d mod Ecdsa.order C =? 0 then 1 else d mod Ecdsa.order C in
    exists x y : Z,
      Ecdsa.pt_mul C scalar (Ecdsa.generator C) = Ecdsa.Aff x y
      /\ Ecdsa.valid_point C (Ecdsa.Aff x y) = true
      /\ ZkProof.commitment_from_hash C (hex (be_bytes 32 d))
         = Returned (hex ((if Z.odd y then 3 else 2) :: be_bytes (Ecdsa.baselen C) x))
      /\ Ecdsa.VerifyingKey_from_string C
           ((if Z.odd y then 3 else 2) :: be_bytes (Ecdsa.baselen C) x)
         = Returned (Ecdsa.Aff x y).
Proof.
  intros C HC d Hd scalar.
  assert (Hs : scalar = ZkProof._ensure_scalar C d) by reflexivity.
  destruct (generator_multiple HC (ensure_scalar_range HC d)) as (x & y & HP & Hv).
  exists x, y. rewrite Hs. repeat split; try assumption.
  - apply (commitment_of_scalar HC) with (d := d); [|assumption].
    rewrite int16_hex.
    + now rewrite from_bytes_be_bytes.
    + apply be_bytes_is_byte.
    + discriminate.
  - now apply compressed_roundtrip.
Qed.

(** The zero-digest case on the small curve: 62 is a multiple of the
    order 31, the scalar is 1 and the commitment is the generator's. *)
Lemma commitment_from_hash_witness :
  0 <= 62 < 2 ^ 256 /\
  exists x y : Z,
    Ecdsa.pt_mul CurveFacts.T43 1 (Ecdsa.generator CurveFacts.T43) = Ecdsa.Aff x y
    /\ Ecdsa.valid_point CurveFacts.T43 (Ecdsa.Aff x y) = true
    /\ ZkProof.commitment_from_hash CurveFacts.T43 (hex (be_bytes 32 62))
       = Returned (hex ((if Z.odd y then 3 else 2) :: be_bytes 32 x))
    /\ Ecdsa.VerifyingKey_from_string CurveFacts.T43
         ((if Z.odd y then 3 else 2) :: be_bytes 32 x)
       = Returned (Ecdsa.Aff x y).
Proof.
  assert (H : 0 <= 62 < 2 ^ 256) by (split; [lia|reflexivity]).
  split; [exact H|].
  exact (commitment_from_hash_correct T43_group H).
Defined.

(** ** Completeness of the Schnorr verifier *)

Section Completeness.

Import Ecdsa CurveFacts ZkProof Prover.

Variable C : curve.
Hypothesis HC : curve_group C.

Lemma to_bytes_32 x : 0 <= x < 2 ^ 256 -> to_bytes 32 x = Returned (be_bytes 32 x).
Proof.
  intros Hx. unfold to_bytes.
  change (2 ^ (8 * Z.of_nat 32)) with (2 ^ 256).
  destruct (Z.ltb_spec x 0); [lia|].
  destruct (Z.leb_spec (2 ^ 256) x); [lia|]. reflexivity.
Qed.

Lemma int16_hex32 x : 0 <= x < 2 ^ 256 -> int16 (hex (be_bytes 32 x)) = Returned x.
Proof.
  intros Hx. rewrite int16_hex.
  - now rewrite from_bytes_be_bytes.
  - apply be_bytes_is_byte.
  - discriminate.
Qed.

Lemma from_payload_honest rx ry s :
  0 <= rx < 2 ^ 256 -> 0 <= ry < 2 ^ 256 -> 0 <= s < 2 ^ 256 ->
  from_payload (honest_payload rx ry s) = Returned {| rx := rx; ry := ry; s := s |}.
Proof.
  intros Hx Hy Hs. unfold from_payload, honest_payload.
  change (Dict.getitem _ (str "rx")) with (Returned (hex (be_bytes 32 rx))).
  change (Dict.getitem _ (str "ry")) with (Returned (hex (be_bytes 32 ry))).
  change (Dict.getitem _ (str "s")) with (Returned (hex (be_bytes 32 s))).
  cbn [bind]. rewrite !int16_hex32 by assumption. reflexivity.
Qed.

Lemma challenge_honest rx ry s commitment document_id context cb db xb :
  0 <= rx < 2 ^ 256 -> 0 <= ry < 2 ^ 256 ->
  fromhex commitment = Returned cb ->
  encode_utf8 document_id = Returned db ->
  encode_utf8 context = Returned xb ->
  challenge C {| rx := rx; ry := ry; s := s |} commitment document_id context
  = Returned (honest_challenge C rx ry cb db xb).
Proof.
  intros Hx Hy Hc Hd Hctx. unfold challenge. cbn [ZkProof.rx ZkProof.ry].
  rewrite Hc, (to_bytes_32 Hx), (to_bytes_32 Hy), Hd, Hctx. cbn [bind].
  unfold honest_challenge, ORDER. reflexivity.
Qed.

Lemma to_point_valid rx ry s :
  valid_point C (Aff rx ry) = true ->
  to_point C {| rx := rx; ry := ry; s := s |} = Returned (Aff rx ry).
Proof.
  intros H. destruct (valid_Aff C rx ry H) as (Hx & Hy & Hon).
  unfold to_point. cbn [ZkProof.rx ZkProof.ry]. rewrite Hon.
  now rewrite !Z.mod_small by lia.
Qed.


(** [verify_schnorr_proof] once its inputs have been parsed. *)
Lemma verify_eval commitment document_id payload context cb P proof e R :
  fromhex commitment = Returned cb ->
  VerifyingKey_from_string C cb = Returned P ->
  from_payload payload = Returned proof ->
  challenge C proof commitment document_id context = Returned e ->
  to_point C proof = Returned R ->
  verify_schnorr_proof C commitment document_id payload context
  = Returned (if point_eqb R Inf then false
              else point_eqb (pt_mul C (_ensure_scalar C (ZkProof.s proof)) (generator C))
                             (pt_add C R (pt_mul C e P))).
Proof.
  intros H1 H2 H3 H4 H5. unfold verify_schnorr_proof.
  rewrite H1. cbn [bind]. rewrite H2, H3, H4. cbn [bind]. rewrite H5. cbn [bind].
  destruct (point_eqb R Inf); reflexivity.
Qed.

Unset Implicit Arguments.

(** The verifier accepts a proof whose response satisfies the Schnorr
    relation for the scalar behind the commitment. *)
Lemma verify_accepts d k rx ry e x s document_id context db xb px py :
  0 <= d < 2 ^ 256 ->
  x = _ensure_scalar C d ->
  pt_mul C x (generator C) = Aff px py ->
  encode_utf8 document_id = Returned db ->
  encode_utf8 context = Returned xb ->
  0 < k < order C ->
  pt_mul C k (generator C) = Aff rx ry ->
  e = honest_challenge C rx ry ((if Z.odd py then 3 else 2) :: be_bytes (baselen C) px)
                       db xb ->
  s = (k + e * x) mod order C ->
  s <> 0 ->
  verify_schnorr_proof C (hex ((if Z.odd py then 3 else 2) :: be_bytes (baselen C) px))
    document_id (honest_payload rx ry s) context
  = Returned true.
Proof.
  intros Hd Ex HP Hdb Hxb Hk HR Ee Es Hs.
  destruct (cg_bytes HC) as (Hp256 & Hn256).
  pose proof (cg_order_gt HC) as Hn.
  pose proof (ensure_scalar_range HC d) as Hx. rewrite <- Ex in Hx.
  assert (HPv : valid_point C (Aff px py) = true).
  { rewrite <- HP. apply (valid_pt_mul HC), (cg_generator HC). }
  destruct (@valid_Aff C px py HPv) as (Hpx & _ & _).
  pose proof (@compressed_is_bytes C px py (proj1 Hpx)) as Hbytes.
  assert (HRv : valid_point C (Aff rx ry) = true).
  { rewrite <- HR. apply (valid_pt_mul HC), (cg_generator HC). }
  destruct (@valid_Aff C rx ry HRv) as (Hrx & Hry & _).
  assert (He : 0 <= e < order C).
  { rewrite Ee. unfold honest_challenge. apply Z.mod_pos_bound. lia. }
  assert (Hs' : 0 <= s < order C) by (rewrite Es; apply Z.mod_pos_bound; lia).
  assert (Hrx' : 0 <= rx < 2 ^ 256) by lia.
  assert (Hry' : 0 <= ry < 2 ^ 256) by lia.
  assert (Hs2 : 0 <= s < 2 ^ 256) by lia.
  assert (Hens : _ensure_scalar C s = s).
  { unfold _ensure_scalar, ORDER.
    rewrite Z.mod_small by lia. destruct (Z.eqb_spec s 0); [contradiction|reflexivity]. }
  rewrite (@verify_eval _ document_id _ context _ (Aff px py)
             {| ZkProof.rx := rx; ZkProof.ry := ry; ZkProof.s := s |} e (Aff rx ry)
             (@fromhex_hex _ Hbytes) (@compressed_roundtrip C HC px py HPv)
             (@from_payload_honest rx ry s Hrx' Hry' Hs2)).
  - cbn [point_eqb ZkProof.s]. rewrite Hens.
    rewrite Es at 1. rewrite (@schnorr_equation C HC k e x) by lia.
    rewrite HR, HP, point_eqb_refl. reflexivity.
  - rewrite Ee.
    apply (@challenge_honest rx ry s _ document_id context _ db xb
             Hrx' Hry' (@fromhex_hex _ Hbytes) Hdb Hxb).
  - apply (@to_point_valid rx ry s HRv).
Qed.

End Completeness.

(** C2, amended. On a curve that satisfies [curve_group], take any
    digest [d], the commitment [commitment_from_hash] derives from it,
    a nonce [0 < k < order] with [R = k G = (rx, ry)], the challenge [e]
    of the protocol and the response [s = k + e x mod order], where [x]
    is the scalar the commitment was derived with ([d mod order], or 1
    when that is zero).  If [s] is not zero, [verify_schnorr_proof]
    returns [true]. *)
Theorem schnorr_completeness :
  forall (C : Ecdsa.curve), CurveFacts.curve_group C ->
  forall (d k rx ry : Z) (document_id context commitment : ustr)
         (commitment_bytes document_bytes context_bytes : bytes),
    0 <= d < 2 ^ 256 ->
    ZkProof.commitment_from_hash C (hex (be_bytes 32 d)) = Returned commitment ->
    fromhex commitment = Returned commitment_bytes ->
    encode_utf8 document_id = Returned document_bytes ->
    encode_utf8 context = Returned context_bytes ->
    0 < k < Ecdsa.order C ->
    Ecdsa.pt_mul C k (Ecdsa.generator C) = Ecdsa.Aff rx ry ->
    let e := Prover.honest_challenge C rx ry commitment_bytes document_bytes context_bytes in
    let x := ZkProof._ensure_scalar C d in
    let s := (k + e * x) mod Ecdsa.order C in
    s <> 0 ->
    ZkProof.verify_schnorr_proof C commitment document_id
      (Prover.honest_payload rx ry s) context
    = Returned true.
Proof.
  intros C HC d k rx ry document_id context commitment cb db xb
         Hd Hcommit Hcb Hdb Hxb Hk HR e x s Hs.
  destruct (@generator_multiple C HC x (ensure_scalar_range HC d)) as (px & py & HP & HPv).
  destruct (@valid_Aff C px py HPv) as (Hpx & _ & _).
  pose proof (@compressed_is_bytes C px py (proj1 Hpx)) as Hbytes.
  rewrite (@commitment_of_scalar C HC _ d px py (@int16_hex32 d Hd) HP) in Hcommit.
  assert (Hc : commitment = hex ((if Z.odd py then 3 else 2) :: be_bytes (Ecdsa.baselen C) px))
    by congruence.
  rewrite Hc, (@fromhex_hex _ Hbytes) in Hcb.
  assert (Hcb' : cb = (if Z.odd py then 3 else 2) :: be_bytes (Ecdsa.baselen C) px)
    by congruence.
  assert (Ee : e = Prover.honest_challenge C rx ry
                     ((if Z.odd py then 3 else 2) :: be_bytes (Ecdsa.baselen C) px) db xb)
    by (unfold e; rewrite Hcb'; reflexivity).
  assert (Ex : x = ZkProof._ensure_scalar C d) by reflexivity.
  assert (Es : s = (k + e * x) mod Ecdsa.order C) by reflexivity.
  clearbody s. clearbody x. clearbody e.
  rewrite Hc.
  exact (@verify_accepts C HC d k rx ry e x s document_id context db xb px py
           Hd Ex HP Hdb Hxb Hk HR Ee Es Hs).
Qed.

(** The theorem at work on the small curve: digest 5, nonce 3, document
    INV-1234-5678, empty context.  The commitment point is (12, 12), the
    nonce point (35, 21), the challenge 16 and the response 21. *)
Lemma schnorr_completeness_witness :
  ZkProof.verify_schnorr_proof CurveFacts.T43 (hex (2 :: be_bytes 32 12))
    (str "INV-1234-5678")
    (Prover.honest_payload 35 21
       ((3 + Prover.honest_challenge CurveFacts.T43 35 21 (2 :: be_bytes 32 12)
               (str "INV-1234-5678") []
             * ZkProof._ensure_scalar CurveFacts.T43 5) mod 31))
    []
  = Returned true.
Proof.
  refine (schnorr_completeness CurveFacts.T43 T43_group 5 3 35 21
            (str "INV-1234-5678") [] (hex (2 :: be_bytes 32 12))
            (2 :: be_bytes 32 12) (str "INV-1234-5678") []
            _ _ _ _ _ _ _ _).
  - split; [lia|reflexivity].
  - vm_compute. reflexivity.
  - vm_compute. reflexivity.
  - reflexivity.
  - reflexivity.
  - split; reflexivity.
  - reflexivity.
  - vm_compute. discriminate.
Defined.

(** ** The verifier on secp256k1 *)

Section OnSecp256k1.

Import Ecdsa ZkProof Prover Samples.

(** How [verify_schnorr_proof] ends when an exception leaves
    [challenge] or [to_point]: nothing catches it. *)
Lemma verify_raises_in_challenge C commitment document_id payload context cb P proof exc :
  fromhex commitment = Returned cb ->
  VerifyingKey_from_string C cb = Returned P ->
  from_payload payload = Returned proof ->
  challenge C proof commitment document_id context = Raised exc ->
  verify_schnorr_proof C commitment document_id payload context = Raised exc.
Proof.
  intros H1 H2 H3 H4. unfold verify_schnorr_proof.
  rewrite H1. cbn [bind]. rewrite H2, H3, H4. reflexivity.
Qed.

Lemma verify_raises_in_to_point C commitment document_id payload context cb P proof e exc :
  fromhex commitment = Returned cb ->
  VerifyingKey_from_string C cb = Returned P ->
  from_payload payload = Returned proof ->
  challenge C proof commitment document_id context = Returned e ->
  to_point C proof = Raised exc ->
  verify_schnorr_proof C commitment document_id payload context = Raised exc.
Proof.
  intros H1 H2 H3 H4 H5. unfold verify_schnorr_proof.
  rewrite H1. cbn [bind]. rewrite H2, H3, H4. cbn [bind]. rewrite H5. reflexivity.
Qed.

Lemma fromhex_generator_commitment :
  fromhex generator_commitment = Returned generator_bytes.
Proof. apply fromhex_hex. constructor; [unfold is_byte; lia|apply be_bytes_is_byte]. Qed.

Lemma secp256k1_generator_decodes :
  VerifyingKey_from_string SECP256k1 generator_bytes = Returned (generator SECP256k1).
Proof.
  unfold VerifyingKey_from_string, generator_bytes.
  cbn [length]. rewrite length_be_bytes.
  change (Nat.eqb 33 (2 * baselen SECP256k1)) with false.
  change (Nat.eqb 33 (2 * baselen SECP256k1 + 1)) with false.
  change (Nat.eqb 33 (baselen SECP256k1 + 1)) with true.
  cbv iota. unfold from_compressed, square_root_mod_prime.
  rewrite !Fast_pow_mod. vm_compute. reflexivity.
Qed.

End OnSecp256k1.

Section OnSecp256k1Claims.

Import Ecdsa ZkProof Prover Samples.

(** C1. [verify_schnorr_proof] raises instead of returning [False]: with
    the valid commitment 0279be66...f81798 (the generator of secp256k1),
    document id INV-1234-5678 and the well-typed proof
    [{rx: "1" then 64 zeros, ry: "0", s: "0"}], the conversion
    [rx.to_bytes(32, "big")] inside [challenge] raises [OverflowError],
    and the call to [challenge] stands outside every [try]. *)
Theorem verify_schnorr_proof_raises_overflow :
  verify_schnorr_proof SECP256k1 generator_commitment document_id oversized_proof []
  = Raised OverflowError.
Proof.
  apply (verify_raises_in_challenge SECP256k1 generator_commitment document_id
           oversized_proof [] generator_bytes (generator SECP256k1)
           {| rx := 2 ^ 256; ry := 0; s := 0 |}).
  - apply fromhex_generator_commitment.
  - apply secp256k1_generator_decodes.
  - vm_compute. reflexivity.
  - unfold challenge. rewrite fromhex_generator_commitment. reflexivity.
Qed.

(** The same with a point that is not on the curve: the assertion of
    the [Point] constructor fails in [to_point], outside every [try]. *)
Lemma verify_schnorr_proof_raises_assertion :
  verify_schnorr_proof SECP256k1 generator_commitment document_id off_curve_proof []
  = Raised AssertionError.
Proof.
  apply (verify_raises_in_to_point SECP256k1 generator_commitment document_id
           off_curve_proof [] generator_bytes (generator SECP256k1)
           {| rx := 1; ry := 1; s := 1 |}
           (honest_challenge SECP256k1 1 1 generator_bytes document_id [])).
  - apply fromhex_generator_commitment.
  - apply secp256k1_generator_decodes.
  - vm_compute. reflexivity.
  - unfold challenge. rewrite fromhex_generator_commitment. reflexivity.
  - vm_compute. reflexivity.
Qed.

Lemma zero_digest_challenge_eq :
  honest_challenge SECP256k1 (gx SECP256k1) (gy SECP256k1) generator_bytes document_id []
  = zero_digest_challenge.
Proof. vm_compute. reflexivity. Qed.

Lemma zero_digest_rejected :
  verify_schnorr_proof SECP256k1 generator_commitment document_id
    (honest_payload (gx SECP256k1) (gy SECP256k1) 1) []
  = Returned false.
Proof.
  rewrite (@verify_eval SECP256k1 generator_commitment document_id
             (honest_payload (gx SECP256k1) (gy SECP256k1) 1) []
             generator_bytes (generator SECP256k1)
             {| rx := gx SECP256k1; ry := gy SECP256k1; s := 1 |}
             zero_digest_challenge (generator SECP256k1)).
  - cbn [ZkProof.s]. rewrite !Fast_pt_mul. vm_compute. reflexivity.
  - apply fromhex_generator_commitment.
  - apply secp256k1_generator_decodes.
  - apply from_payload_honest; vm_compute; split; congruence.
  - rewrite <- zero_digest_challenge_eq.
    apply (@challenge_honest SECP256k1 (gx SECP256k1) (gy SECP256k1) 1
             generator_commitment document_id [] generator_bytes document_id []).
    + vm_compute; split; congruence.
    + vm_compute; split; congruence.
    + apply fromhex_generator_commitment.
    + reflexivity.
    + reflexivity.
  - vm_compute. reflexivity.
Qed.

(** C2, as stated, fails on secp256k1: for the digest 0 the commitment
    is derived from the scalar 1, and the proof computed from the digest
    itself (nonce 1, response [1 + e * 0 mod order = 1]) is rejected. *)
Lemma schnorr_completeness_from_digest_fails :
  ~ completeness_from_digest SECP256k1.
Proof.
  intros H.
  specialize (H 0 1 (gx SECP256k1) (gy SECP256k1) document_id [] generator_commitment
                generator_bytes document_id []).
  cbv zeta in H.
  rewrite zero_digest_challenge_eq in H.
  change ((1 + zero_digest_challenge * 0) mod order SECP256k1) with 1 in H.
  rewrite zero_digest_rejected in H.
  assert (E : Returned false = Returned true); [|discriminate E].
  apply H.
  - split; [lia|reflexivity].
  - vm_compute. reflexivity.
  - apply fromhex_generator_commitment.
  - reflexivity.
  - reflexivity.
  - split; reflexivity.
  - reflexivity.
Qed.

End OnSecp256k1Claims.

(** ** Looking a document up *)

Section FindDocument.

Import Values Main Lookup.

Context {U : UnicodeData}.

Lemma ustr_eqb_eq a b : ustr_eqb a b = true <-> a = b.
Proof. unfold ustr_eqb. destruct (list_eq_dec Z.eq_dec a b); split; congruence. Qed.

Lemma py_eqb_VStr v s : py_eqb v (VStr s) = true <-> v = VStr s.
Proof.
  destruct v; simpl; try (split; [discriminate|congruence]).
  rewrite ustr_eqb_eq. split; congruence.
Qed.

(** The loop condition of [find_document] decides [answers], and raises
    exactly on a record whose id is not a string and is not the query. *)
Lemma id_matches_spec document_id doc :
  match id_matches document_id (upper (strip_non_id document_id)) doc with
  | Returned true => answers document_id doc
  | Returned false => ~ answers document_id doc
  | Raised exc =>
    exc = AttributeError /\ ~ answers document_id doc
    /\ forall s, id_of doc <> VStr s
  end.
Proof.
  unfold id_matches, answers. fold (id_of doc).
  destruct (py_eqb (id_of doc) (VStr document_id)) eqn:E.
  - left. now apply py_eqb_VStr.
  - assert (Hne : id_of doc <> VStr document_id).
    { intros H. apply py_eqb_VStr in H. congruence. }
    destruct (id_of doc) as [| | |s| |] eqn:Eid;
      try (split; [reflexivity|split; [|discriminate]];
           intros [H|(s & H & _)]; discriminate).
    destruct (ustr_eqb (upper s) (upper (strip_non_id document_id))) eqn:Eu.
    + right. exists s. split; [reflexivity|now apply ustr_eqb_eq].
    + intros [H|(s' & H & Hu)]; [contradiction|].
      injection H as <-. apply ustr_eqb_eq in Hu. congruence.
Qed.


End FindDocument.

(** ** The persist step of the verification payload *)

Section Persist.

Import Values Main Persisted.

Context {U : UnicodeData}.
Variable signing_secret_env : option ustr.
Variable now : ustr.
Variable render_qr_png : ustr -> ustr.

Lemma ustr_eqb_false a b : ustr_eqb a b = false <-> a <> b.
Proof. unfold ustr_eqb. destruct (list_eq_dec Z.eq_dec a b); split; congruence. Qed.

Lemma get_set_other (d : Document) k k' v :
  k' <> k -> Dict.get (Dict.set d k' v) k = Dict.get d k.
Proof.
  intros Hk. induction d as [|[k0 v0] d IH]; cbn [Dict.set Dict.get].
  - apply ustr_eqb_false in Hk. now rewrite Hk.
  - destruct (ustr_eqb k0 k') eqn:E; cbn [Dict.get].
    + apply ustr_eqb_eq in E. subst k0.
      apply ustr_eqb_false in Hk. now rewrite Hk.
    + destruct (ustr_eqb k0 k); [reflexivity|apply IH].
Qed.

Lemma get_set_same (d : Document) k v : Dict.get (Dict.set d k v) k = Some v.
Proof.
  induction d as [|[k0 v0] d IH]; cbn [Dict.set Dict.get].
  - assert (E : ustr_eqb k k = true) by now apply ustr_eqb_eq.
    now rewrite E.
  - destruct (ustr_eqb k0 k) eqn:E; cbn [Dict.get]; rewrite E; [reflexivity|apply IH].
Qed.

Lemma get_update_other (d u : Document) k :
  ~ In k (Dict.keys u) -> Dict.get (Dict.update d u) k = Dict.get d k.
Proof.
  unfold Dict.update. revert d.
  induction u as [|[k' v] u IH]; intros d Hk; cbn [fold_left fst snd]; [reflexivity|].
  rewrite IH.
  - apply get_set_other. intros ->. apply Hk. now left.
  - intros H. apply Hk. now right.
Qed.

Lemma keys_updated_fields c : Dict.keys (updated_fields_of c) = persisted_keys.
Proof. reflexivity. Qed.

(** [update_first] changes one record, the first with the given id, and
    that record by [update]. *)
Lemma update_first_spec id u docs docs' :
  update_first id u docs = Some docs' ->
  exists before d after,
    docs = before ++ d :: after
    /\ docs' = before ++ Dict.update d u :: after
    /\ py_eqb (get_none d (str "id")) id = true
    /\ forall d0, In d0 before -> py_eqb (get_none d0 (str "id")) id = false.
Proof.
  revert docs'. induction docs as [|d docs IH]; intros docs' H; cbn [update_first] in H.
  - discriminate.
  - destruct (py_eqb (get_none d (str "id")) id) eqn:E.
    + injection H as <-. exists [], d, docs. repeat split; [assumption|intros d0 []].
    + destruct (update_first id u docs) as [rest|]; [|discriminate].
      injection H as <-.
      destruct (IH rest eq_refl) as (before & d1 & after & -> & -> & Hid & Hb).
      exists (d :: before), d1, after. repeat split; [assumption|].
      intros d0 [<-|H0]; auto.
Qed.

Lemma persistence_needed_false document u :
  persistence_needed document u = false <->
  forall k v, In (k, v) u -> opt_eqb (Dict.get document k) v = true.
Proof.
  unfold persistence_needed. split.
  - intros H k v Hin.
    destruct (opt_eqb (Dict.get document k) v) eqn:E; [reflexivity|].
    assert (Hex : existsb (fun kv => negb (opt_eqb (Dict.get document (fst kv)) (snd kv))) u
                  = true).
    { apply existsb_exists. exists (k, v). split; [assumption|]. cbn [fst snd]. now rewrite E. }
    congruence.
  - intros H. apply not_true_is_false. intros Hex.
    apply existsb_exists in Hex. destruct Hex as ((k, v) & Hin & Hne).
    cbn [fst snd] in Hne. rewrite (H k v Hin) in Hne. discriminate.
Qed.

(** What [persist] does to the world. *)
Lemma persist_outcome document id u w :
  let '(w', r) := persist document id u w in
  (w' = w /\ r = Returned tt)
  \/ (persistence_needed document u = true
      /\ writes_attempted w' = S (writes_attempted w)
      /\ coming_writes w' = tl (coming_writes w)
      /\ match hd None (coming_writes w) with
         | Some f => r = Raised OSError
                     /\ file w' = match f with OpenFails => file w | DumpFails => Corrupt end
         | None =>
           r = Returned tt
           /\ exists documents,
               update_first id u (load_documents w) = Some documents
               /\ file w' = Docs documents
         end).
Proof.
  unfold persist.
  destruct (persistence_needed document u); [|now left].
  destruct (update_first id u (load_documents w)) as [documents|] eqn:E; [|now left].
  unfold save_documents.
  destruct (coming_writes w) as [|[[|]|] rest]; cbn [hd tl];
    right; repeat split; try reflexivity; exists documents; split; reflexivity.
Qed.


Lemma make_payload_fields c payload :
  make_payload c = Returned payload ->
  updated_fields_of c = written_fields payload /\ c_id c = VStr (id payload).
Proof.
  unfold make_payload, updated_fields_of, written_fields.
  destruct c as [i fh ia ns zk cs sg qp qpng].
  cbn [c_id c_file_hash c_issued_at c_normalization_strategy c_zk_commitment
       c_checksum c_signature c_qr_payload c_qr_png_base64].
  repeat match goal with
         | |- context [str_field ?v] =>
           destruct v; cbn [str_field bind]; try discriminate
         end.
  intros H. injection H as <-. split; reflexivity.
Qed.



End Persist.

(** ** The stored sample *)

Section OnStoredSample.

Import Values Main Stored Rotated Excerpt.

(** The first build of a fresh record writes the six fields to the
    store and leaves the other record alone. *)
Lemma build_fresh_document :
  build_verification_payload None sample_now sample_render_qr_png fresh_document
    (world_of [other_document; fresh_document] [])
  = ({| file := Docs [other_document; signed_document];
        coming_writes := []; writes_attempted := 1 |},
     Returned {| id := str "INV-1234-5678";
                 file_hash := sample_file_hash;
                 issued_at := str "2025-01-01T00:00:00Z";
                 normalization_strategy := NORMALIZATION_STRATEGY;
                 zk_commitment := sample_commitment;
                 checksum := str "2641344D67CE";
                 signature := signature_default;
                 qr_payload := qr_payload_default;
                 qr_png_base64 := str "iVBORw0KGgo=" |}).
Proof. vm_compute. reflexivity. Qed.


End OnStoredSample.

(** C4. After the signing secret changed, [build_verification_payload]
    re-signs the stored record but keeps the stored QR payload: the
    payload returned carries the new signature, while its [qr_payload]
    still decodes to the old one and differs from the encoding of the
    fields it returns. *)
Theorem resigned_payload_keeps_stale_qr :
  forall (U : Values.UnicodeData) (now : ustr) (render_qr_png : ustr -> ustr),
    Main.build_verification_payload Rotated.rotated_secret now render_qr_png
      Stored.signed_document (Stored.world_of [Stored.signed_document] [])
    = ({| Main.file :=
            Main.Docs [Dict.set Stored.signed_document (str "signature")
                                (Values.VStr Stored.signature_rotated)];
          Main.coming_writes := []; Main.writes_attempted := 1 |},
       Returned Rotated.resigned_payload)
    /\ Main.signature Rotated.resigned_payload <> Stored.signature_default
    /\ (decoded <- QrPayload.decode_payload (Main.qr_payload Rotated.resigned_payload) ;;
        match decoded with
        | Values.VDict d => Dict.getitem d (str "signature")
        | _ => Raised TypeError
        end) = Returned (Values.VStr Stored.signature_default)
    /\ QrPayload.encode_payload (Rotated.signed_fields Rotated.resigned_payload)
       <> Returned (Main.qr_payload Rotated.resigned_payload).
Proof.
  intros U now render_qr_png. split; [|split; [|split]].
  - vm_compute. reflexivity.
  - vm_compute. discriminate.
  - vm_compute. reflexivity.
  - vm_compute. discriminate.
Qed.

(** ** Canonical text *)

Section CanonicalText.

Import Values TextProcessing.

Import Canonical.

Local Abbreviation ws c := (Py_UNICODE_ISSPACE c).

Lemma collapse_from_tidy b s : tidy (collapse_from b s).
Proof.
  revert b. induction s as [|c r IH]; intros b; cbn [collapse_from]; [exact I|].
  destruct (ws c) eqn:E.
  - destruct b; [apply IH|].
    cbn [tidy]. split; [|apply IH].
    intros _. split; [reflexivity|].
    destruct r as [|d r']; cbn [collapse_from]; [exact I|].
    destruct (ws d) eqn:Ed.
    + clear IH. revert d Ed. induction r' as [|e r'' IH']; intros d Ed.
      * exact I.
      * cbn [collapse_from]. destruct (ws e) eqn:Ee; [now apply (IH' e)|assumption].
    + assumption.
  - cbn [tidy]. split; [|apply IH]. intros H. congruence.
Qed.

Lemma tidy_app a b : tidy (a ++ b) -> tidy a /\ tidy b.
Proof.
  induction a as [|c a IH]; cbn [app tidy]; [auto|].
  intros (Hc & Ht). destruct (IH Ht) as (Ha & Hb).
  split; [split|]; [|exact Ha|exact Hb].
  intros H. destruct (Hc H) as (E & Hn). split; [exact E|].
  destruct a; [exact I|exact Hn].
Qed.

Lemma lstrip_suffix s : exists pre, s = pre ++ lstrip s.
Proof.
  induction s as [|c r (pre & IH)]; cbn [lstrip]; [now exists []|].
  destruct (ws c); [|now exists []].
  exists (c :: pre). cbn [app]. now rewrite <- IH.
Qed.

Lemma lstrip_head s : no_space_at_head (lstrip s).
Proof.
  induction s as [|c r IH]; cbn [lstrip]; [exact I|].
  destruct (ws c) eqn:E; [assumption|exact E].
Qed.

Lemma lstrip_fixed s : no_space_at_head s -> lstrip s = s.
Proof. destruct s as [|c r]; cbn; [reflexivity|]. now intros ->. Qed.

(** What [strip] leaves: a piece of the text with no whitespace at
    either end. *)
Lemma strip_shape s :
  exists pre post,
    s = pre ++ strip s ++ post
    /\ no_space_at_head (strip s) /\ no_space_at_head (rev (strip s)).
Proof.
  unfold strip.
  destruct (lstrip_suffix s) as (pre & Hpre).
  destruct (lstrip_suffix (rev (lstrip s))) as (q & Hq).
  exists pre, (rev q). repeat split.
  - rewrite <- rev_app_distr, <- Hq, rev_involutive. exact Hpre.
  - pose proof (lstrip_head s) as Hh.
    pose proof (lstrip_head (rev (lstrip s))) as Hl.
    assert (E : lstrip s = rev (lstrip (rev (lstrip s))) ++ rev q).
    { rewrite <- rev_app_distr, <- Hq. now rewrite rev_involutive. }
    destruct (rev (lstrip (rev (lstrip s)))) as [|c m]; [exact I|].
    rewrite E in Hh. exact Hh.
  - rewrite rev_involutive. apply lstrip_head.
Qed.

Lemma collapse_from_started s :
  no_space_at_head s -> collapse_from true s = collapse_from false s.
Proof. destruct s as [|c r]; cbn; [reflexivity|]. now intros ->. Qed.

Lemma collapse_tidy_fixed s : tidy s -> collapse_from false s = s.
Proof.
  induction s as [|c r IH]; cbn [tidy collapse_from]; [reflexivity|].
  intros (Hc & Ht). destruct (ws c) eqn:E.
  - destruct (Hc eq_refl) as (-> & Hn).
    rewrite collapse_from_started; [now rewrite IH|].
    destruct r; [exact I|exact Hn].
  - now rewrite IH.
Qed.

Lemma strip_fixed s :
  no_space_at_head s -> no_space_at_head (rev s) -> strip s = s.
Proof.
  intros H1 H2. unfold strip.
  rewrite (lstrip_fixed s H1), (lstrip_fixed (rev s) H2). apply rev_involutive.
Qed.

(** Collapsing and stripping a second time changes nothing. *)
Lemma strip_collapse_idempotent s :
  strip (collapse_whitespace (strip (collapse_whitespace s)))
  = strip (collapse_whitespace s).
Proof.
  unfold collapse_whitespace.
  destruct (strip_shape (collapse_from false s)) as (pre & post & E & Hh & Hl).
  pose proof (collapse_from_tidy false s) as Ht.
  rewrite E in Ht. apply tidy_app in Ht. destruct Ht as (_ & Ht).
  apply tidy_app in Ht. destruct Ht as (Ht & _).
  rewrite (collapse_tidy_fixed _ Ht). now apply strip_fixed.
Qed.

Context {U : UnicodeData}.

(** C8, amended. A canonical text that NFKC normalization and
    lower-casing leave unchanged is a fixed point of [normalize_text]:
    for such texts [normalize_text (normalize_text t) = normalize_text t]. *)
Theorem normalize_text_idempotent :
  forall t : ustr,
    nfkc (normalize_text t) = normalize_text t ->
    lower (normalize_text t) = normalize_text t ->
    normalize_text (normalize_text t) = normalize_text t.
Proof.
  intros t Hn Hl.
  destruct (normalize_text t) as [|c r] eqn:E; [reflexivity|].
  unfold normalize_text at 1. rewrite Hn, Hl.
  rewrite <- E. unfold normalize_text.
  destruct t as [|c0 t0]; [reflexivity|].
  apply strip_collapse_idempotent.
Qed.

End CanonicalText.

Section OnExcerpt.

Import TextProcessing.

Local Existing Instance Excerpt.unicode_excerpt.

(** A text with capitals and runs of whitespace, on the excerpt. *)
Lemma normalize_text_idempotent_witness :
  normalize_text
    (normalize_text (str "  Invoice   Total: 100.00 USD  "))
  = normalize_text (str "  Invoice   Total: 100.00 USD  ").
Proof.
  apply (normalize_text_idempotent (U := Excerpt.unicode_excerpt)); vm_compute; reflexivity.
Defined.

(** C8, as stated, fails: J followed by U+030C COMBINING CARON is
    stable under NFKC (there is no capital J with caron), lower-casing
    gives j followed by the caron, and a second pass composes these into
    U+01F0. *)
Lemma normalize_text_not_idempotent :
  normalize_text [74; 0x30C] = [106; 0x30C]
  /\ normalize_text (normalize_text [74; 0x30C]) = [0x1F0]
  /\ normalize_text (normalize_text [74; 0x30C])
     <> normalize_text [74; 0x30C].
Proof.
  split; [|split].
  - vm_compute. reflexivity.
  - vm_compute. reflexivity.
  - vm_compute. discriminate.
Qed.

End OnExcerpt.

(** ** Signatures *)

Section SignatureOrder.

Import Values Signature.

Lemma ustr_ltb_irrefl a : ustr_ltb a a = false.
Proof.
  induction a as [|x a IH]; [reflexivity|].
  cbn [ustr_ltb]. rewrite Z.ltb_irrefl, Z.eqb_refl, IH. reflexivity.
Qed.

Lemma ustr_ltb_trans a b c :
  ustr_ltb a b = true -> ustr_ltb b c = true -> ustr_ltb a c = true.
Proof.
  revert b c. induction a as [|x a IH]; intros [|y b] [|z c]; cbn [ustr_ltb];
    try discriminate; try reflexivity.
  intros H1 H2.
  apply orb_true_iff in H1. apply orb_true_iff in H2. apply orb_true_iff.
  destruct H1 as [H1|H1]; destruct H2 as [H2|H2];
    try apply andb_true_iff in H1; try apply andb_true_iff in H2.
  - left. lia.
  - left. lia.
  - left. lia.
  - right. destruct H1 as (E1 & L1), H2 as (E2 & L2).
    apply andb_true_iff. split; [lia|]. exact (IH b c L1 L2).
Qed.

Lemma ustr_ltb_total a b :
  a <> b -> ustr_ltb a b = false -> ustr_ltb b a = true.
Proof.
  revert b. induction a as [|x a IH]; intros [|y b] Hne; cbn [ustr_ltb];
    try congruence.
  intros H. apply orb_false_iff in H. destruct H as (H1 & H2).
  apply orb_true_iff.
  destruct (Z.eq_dec x y) as [->|Hxy].
  - right. rewrite Z.eqb_refl in *. cbn [andb] in *.
    apply IH; [congruence|assumption].
  - left. lia.
Qed.

Lemma ustr_ltb_asym a b : ustr_ltb a b = true -> ustr_ltb b a = false.
Proof.
  intros H. destruct (ustr_ltb b a) eqn:E; [|reflexivity].
  pose proof (ustr_ltb_trans _ _ _ H E) as T.
  rewrite ustr_ltb_irrefl in T. discriminate.
Qed.

Lemma ustr_ltb_below a b c :
  ustr_ltb b a = false -> ustr_ltb b c = true -> ustr_ltb a c = true.
Proof.
  intros H1 H2. destruct (list_eq_dec Z.eq_dec a b) as [->|Hne]; [assumption|].
  apply (ustr_ltb_trans a b c); [|assumption].
  apply ustr_ltb_total; [congruence|assumption].
Qed.

(** Inserting two items with different keys gives the same list in
    either order. *)
Lemma insert_item_comm x y l :
  fst x <> fst y ->
  insert_item x (insert_item y l) = insert_item y (insert_item x l).
Proof.
  intros Hne. induction l as [|z l IH].
  - cbn [insert_item].
    destruct (ustr_ltb (fst y) (fst x)) eqn:Eyx.
    + rewrite (ustr_ltb_asym _ _ Eyx). reflexivity.
    + rewrite (ustr_ltb_total (fst y) (fst x)); [reflexivity|congruence|assumption].
  - cbn [insert_item].
    destruct (ustr_ltb (fst z) (fst y)) eqn:Ezy;
      destruct (ustr_ltb (fst z) (fst x)) eqn:Ezx; cbn [insert_item].
    + rewrite Ezy, Ezx, IH. reflexivity.
    + rewrite Ezx, (ustr_ltb_below _ _ _ Ezx Ezy). cbn [insert_item].
      rewrite Ezy. reflexivity.
    + rewrite Ezy, (ustr_ltb_below _ _ _ Ezy Ezx). cbn [insert_item].
      rewrite Ezx. reflexivity.
    + destruct (ustr_ltb (fst y) (fst x)) eqn:Eyx.
      * rewrite (ustr_ltb_asym _ _ Eyx). cbn [insert_item]. rewrite Ezx. reflexivity.
      * rewrite (ustr_ltb_total (fst y) (fst x)); [|congruence|assumption].
        cbn [insert_item]. rewrite Ezy. reflexivity.
Qed.

(** [sorted(payload.items())] does not depend on the order in which
    the dictionary holds its keys. *)
Lemma sorted_items_permutation (l l' : Dict.dict pyval) :
  Permutation l l' -> NoDup (Dict.keys l) -> sorted_items l = sorted_items l'.
Proof.
  unfold Dict.keys, sorted_items.
  induction 1 as [|x l l' HP IH|x y l|l l' l'' HP1 IH1 HP2 IH2]; intros Hnd.
  - reflexivity.
  - cbn [fold_right]. rewrite IH; [reflexivity|].
    now inversion Hnd.
  - cbn [fold_right]. apply insert_item_comm.
    cbn [map] in Hnd. inversion Hnd as [|? ? Hin _]. subst.
    intros E. apply Hin. left. symmetry. exact E.
  - rewrite IH1 by assumption. apply IH2.
    apply (Permutation_NoDup (l := map fst l)); [|assumption].
    now apply Permutation_map.
Qed.

Lemma hex_is_ascii bs : Forall is_byte bs -> is_ascii (hex bs) = true.
Proof.
  induction 1 as [|b bs Hb Hbs IH]; [reflexivity|].
  unfold is_ascii in *. cbn [hex forallb]. rewrite IH.
  assert (H1 : 0 <= b / 16 < 16) by (unfold is_byte in Hb; split; [apply Z.div_pos; lia|apply Z.div_lt_upper_bound; lia]).
  assert (H2 : 0 <= b mod 16 < 16) by (apply Z.mod_pos_bound; lia).
  unfold hex_digit.
  destruct (b / 16 <? 10) eqn:E1; destruct (b mod 16 <? 10) eqn:E2; cbn [andb];
    repeat (apply andb_true_iff; split); lia.
Qed.

Lemma sha256_is_bytes msg : Forall is_byte (Hashlib.sha256 msg).
Proof.
  unfold Hashlib.sha256. cbv zeta. apply Forall_concat.
  apply Forall_map. apply Forall_forall. intros x _. apply be_bytes_is_byte.
Qed.

Lemma length_sha256 msg : length (Hashlib.sha256 msg) = 32%nat.
Proof.
  unfold Hashlib.sha256. cbv zeta.
  generalize (Hashlib.blocks (length (Hashlib.pad msg)) Hashlib.init (Hashlib.pad msg)).
  intros s. cbn [map concat]. rewrite !length_app, !length_be_bytes. reflexivity.
Qed.

Lemma length_hmac_sha256 key msg : length (Hashlib.hmac_sha256 key msg) = 32%nat.
Proof. unfold Hashlib.hmac_sha256. cbv zeta. apply length_sha256. Qed.

Lemma hmac_sha256_is_bytes key msg : Forall is_byte (Hashlib.hmac_sha256 key msg).
Proof. unfold Hashlib.hmac_sha256. cbv zeta. apply sha256_is_bytes. Qed.

Context {U : UnicodeData}.
Variable signing_secret_env : option ustr.

(** A signature that [sign_payload] returns is a string of 64
    lower-case hexadecimal digits, hence ASCII. *)
Lemma sign_payload_ascii payload sig :
  sign_payload signing_secret_env payload = Returned sig ->
  is_ascii sig = true /\ length sig = 64%nat.
Proof.
  unfold sign_payload.
  destruct (encode_utf8 _) as [j|]; [|discriminate]. cbn [bind].
  destruct (_load_secret signing_secret_env) as [k|]; [|discriminate]. cbn [bind].
  intros E.
  assert (Es : sig = hex (Hashlib.hmac_sha256 k j)) by congruence.
  rewrite Es. split.
  - apply hex_is_ascii, hmac_sha256_is_bytes.
  - rewrite length_hex, length_hmac_sha256. reflexivity.
Qed.

Lemma verify_signature_of_sign payload sig sig' :
  sign_payload signing_secret_env payload = Returned sig ->
  is_ascii sig' = true ->
  verify_signature signing_secret_env payload (VStr sig') = Returned (ustr_eqb sig sig').
Proof.
  intros Hs Ha. unfold verify_signature. rewrite Hs. cbn [bind compare_digest].
  destruct (sign_payload_ascii _ _ Hs) as (-> & _). rewrite Ha. reflexivity.
Qed.


End SignatureOrder.

Section OnSignedSample.

Import Values Signature.

Local Existing Instance Excerpt.unicode_excerpt.



End OnSignedSample.

(** ** Text encodings *)

Section AsciiText.

Lemma is_ascii_Forall s : is_ascii s = true <-> Forall (fun c => 0 <= c < 128) s.
Proof.
  unfold is_ascii. rewrite forallb_forall, Forall_forall.
  split; intros H c Hc; specialize (H c Hc); lia.
Qed.

Lemma is_ascii_app a b : is_ascii (a ++ b) = is_ascii a && is_ascii b.
Proof. apply forallb_app. Qed.

(** ASCII text is its own UTF-8 encoding. *)
Lemma encode_utf8_ascii s : is_ascii s = true -> encode_utf8 s = Returned s.
Proof.
  induction s as [|c r IH]; [reflexivity|].
  unfold is_ascii in *. cbn [forallb encode_utf8]. intros H.
  apply andb_true_iff in H. destruct H as (Hc & Hr).
  rewrite (IH Hr). unfold utf8_char.
  replace ((c <? 0) || (1114111 <? c)) with false by lia.
  replace (c <? 128) with true by lia. reflexivity.
Qed.

Lemma decode_utf8_loop_ascii s fuel :
  is_ascii s = true -> (length s <= fuel)%nat -> decode_utf8_loop fuel s = Returned s.
Proof.
  revert fuel. induction s as [|c r IH]; intros fuel H Hf.
  - destruct fuel; reflexivity.
  - destruct fuel as [|f]; [cbn in Hf; lia|].
    unfold is_ascii in *. cbn [forallb] in H.
    apply andb_true_iff in H. destruct H as (Hc & Hr).
    cbn [decode_utf8_loop]. rewrite Hc.
    rewrite (IH f Hr) by (cbn in Hf; lia). reflexivity.
Qed.

(** ASCII bytes decode to themselves. *)
Lemma decode_utf8_ascii s : is_ascii s = true -> decode_utf8 s = Returned s.
Proof. intros H. apply decode_utf8_loop_ascii; [assumption|lia]. Qed.

End AsciiText.

(** ** Base64 *)

Section Base64RoundTrip.

Import Base64.

Lemma b64_value_b64_char v :
  0 <= v < 64 -> b64_value (translate (b64_char v)) = Some v.
Proof.
  intros H. apply in_range_In in H. cbn in H.
  repeat (destruct H as [<-|H]; [reflexivity|]). destruct H.
Qed.

Lemma b64_char_not_pad v : 0 <= v < 64 -> (translate (b64_char v) =? 61) = false.
Proof.
  intros H. apply in_range_In in H. cbn in H.
  repeat (destruct H as [<-|H]; [reflexivity|]). destruct H.
Qed.

Lemma b64_char_ascii v : 0 <= v < 64 -> 0 <= b64_char v < 128.
Proof.
  intros H. unfold b64_char.
  destruct (v <? 26) eqn:E1; [lia|].
  destruct (v <? 52) eqn:E2; [lia|].
  destruct (v <? 62) eqn:E3; [lia|].
  destruct (v =? 62); lia.
Qed.

Section Step.

Variables (c v : Z) (r : bytes) (l pads : Z).
Hypothesis Hv : 0 <= v < 64.
Hypothesis Hc : c = translate (b64_char v).

Lemma a2b_step0 : a2b_loop (c :: r) 0 l pads = a2b_loop r 1 v 0.
Proof.
  rewrite Hc. cbn [a2b_loop].
  rewrite (b64_char_not_pad v Hv), (b64_value_b64_char v Hv). reflexivity.
Qed.

Lemma a2b_step1 :
  a2b_loop (c :: r) 1 l pads
  = out <- a2b_loop r 2 (v mod 16) 0 ;; Returned (l * 4 + v / 16 :: out).
Proof.
  rewrite Hc. cbn [a2b_loop].
  rewrite (b64_char_not_pad v Hv), (b64_value_b64_char v Hv). reflexivity.
Qed.

Lemma a2b_step2 :
  a2b_loop (c :: r) 2 l pads
  = out <- a2b_loop r 3 (v mod 4) 0 ;; Returned (l * 16 + v / 4 :: out).
Proof.
  rewrite Hc. cbn [a2b_loop].
  rewrite (b64_char_not_pad v Hv), (b64_value_b64_char v Hv). reflexivity.
Qed.

Lemma a2b_step3 :
  a2b_loop (c :: r) 3 l pads
  = out <- a2b_loop r 0 0 0 ;; Returned (l * 64 + v :: out).
Proof.
  rewrite Hc. cbn [a2b_loop].
  rewrite (b64_char_not_pad v Hv), (b64_value_b64_char v Hv). reflexivity.
Qed.

End Step.

(** Two padding characters after two data characters, one after three:
    the data ends there, whatever follows. *)
Lemma a2b_pad2 r l : a2b_loop (61 :: 61 :: r) 2 l 0 = Returned [].
Proof. reflexivity. Qed.

Lemma a2b_pad1 r l : a2b_loop (61 :: r) 3 l 0 = Returned [].
Proof. reflexivity. Qed.

Ltac sextet :=
  match goal with
  | |- 0 <= _ < 64 => unfold is_byte in *; Z.div_mod_to_equations; lia
  end.

Ltac octet := unfold is_byte in *; Z.div_mod_to_equations; lia.

Lemma a2b_loop_encode bs :
  Forall is_byte bs -> a2b_loop (map translate (encode bs)) 0 0 0 = Returned bs.
Proof.
  assert (Hind : forall n bs, (length bs <= n)%nat -> Forall is_byte bs ->
                 a2b_loop (map translate (encode bs)) 0 0 0 = Returned bs).
  { clear bs. induction n as [|n IH]; intros bs Hn Hb.
    - destruct bs; [reflexivity|cbn in Hn; lia].
    - destruct bs as [|x [|y [|z r]]].
      + reflexivity.
      + inversion Hb as [|? ? Hx _]; subst.
        cbn [encode map].
        rewrite (a2b_step0 _ (x / 4)) by (try reflexivity; sextet).
        rewrite (a2b_step1 _ (x mod 4 * 16)) by (try reflexivity; sextet).
        change (translate 61) with 61. rewrite a2b_pad2. cbn [bind].
        f_equal. f_equal. octet.
      + inversion Hb as [|? ? Hx Hb1]; subst. inversion Hb1 as [|? ? Hy _]; subst.
        cbn [encode map].
        rewrite (a2b_step0 _ (x / 4)) by (try reflexivity; sextet).
        rewrite (a2b_step1 _ (x mod 4 * 16 + y / 16)) by (try reflexivity; sextet).
        rewrite (a2b_step2 _ (y mod 16 * 4)) by (try reflexivity; sextet).
        change (translate 61) with 61. rewrite a2b_pad1. cbn [bind].
        f_equal. f_equal; [|f_equal]; octet.
      + inversion Hb as [|? ? Hx Hb1]; subst. inversion Hb1 as [|? ? Hy Hb2]; subst.
        inversion Hb2 as [|? ? Hz Hb3]; subst.
        cbn [encode map].
        rewrite (a2b_step0 _ (x / 4)) by (try reflexivity; sextet).
        rewrite (a2b_step1 _ (x mod 4 * 16 + y / 16)) by (try reflexivity; sextet).
        rewrite (a2b_step2 _ (y mod 16 * 4 + z / 64)) by (try reflexivity; sextet).
        rewrite (a2b_step3 _ (z mod 64)) by (try reflexivity; sextet).
        rewrite (IH r) by (cbn in Hn; try lia; assumption).
        cbn [bind].
        f_equal. f_equal; [|f_equal; [|f_equal]]; octet. }
  intros H. now apply (Hind (length bs)).
Qed.

(** [urlsafe_b64decode] undoes [urlsafe_b64encode]. *)
Lemma urlsafe_b64decode_encode bs :
  Forall is_byte bs -> urlsafe_b64decode (urlsafe_b64encode bs) = Returned bs.
Proof. apply a2b_loop_encode. Qed.

(** The encoded text is ASCII. *)
Lemma encode_is_ascii bs : Forall is_byte bs -> is_ascii (encode bs) = true.
Proof.
  assert (Hind : forall n bs, (length bs <= n)%nat -> Forall is_byte bs ->
                 Forall (fun c => 0 <= c < 128) (encode bs)).
  { clear bs. induction n as [|n IH]; intros bs Hn Hb.
    - destruct bs; [constructor|cbn in Hn; lia].
    - destruct bs as [|x [|y [|z r]]].
      + constructor.
      + inversion Hb as [|? ? Hx _]; subst. cbn [encode].
        repeat constructor; try lia; apply b64_char_ascii; sextet.
      + inversion Hb as [|? ? Hx Hb1]; subst. inversion Hb1 as [|? ? Hy _]; subst.
        cbn [encode].
        repeat constructor; try lia; apply b64_char_ascii; sextet.
      + inversion Hb as [|? ? Hx Hb1]; subst. inversion Hb1 as [|? ? Hy Hb2]; subst.
        inversion Hb2 as [|? ? Hz Hb3]; subst.
        cbn [encode].
        repeat (constructor; [apply b64_char_ascii; sextet|]).
        apply IH; [cbn in Hn; lia|assumption]. }
  intros H. apply is_ascii_Forall. now apply (Hind (length bs)).
Qed.

End Base64RoundTrip.

(** ** JSON strings *)

Section JsonStrings.

Import Values Json Representable.

Lemma hex4_hex_fixed x r :
  0 <= x < 65536 -> hex4 (hex_fixed 4 x ++ r) = Some (x, r).
Proof.
  intros H. cbn [hex_fixed app hex4].
  rewrite !hex_digit_value_hex_digit by (apply Z.mod_pos_bound; lia).
  f_equal. f_equal. Z.div_mod_to_equations. lia.
Qed.

Lemma length_hex_fixed n x : length (hex_fixed n x) = n.
Proof.
  revert x. induction n as [|n IH]; intros x; cbn [hex_fixed]; [reflexivity|].
  rewrite length_app, IH. cbn. lia.
Qed.

Lemma scanstring_plain f c r :
  c <> 34 -> c <> 92 -> 32 <= c ->
  scanstring (S f) (c :: r) = res <- scanstring f r ;; Returned (c :: fst res, snd res).
Proof.
  intros H1 H2 H3. cbn [scanstring].
  replace (c =? 34) with false by lia. replace (c =? 92) with false by lia.
  replace (c <? 32) with false by lia. reflexivity.
Qed.

Lemma scanstring_simple f e x r :
  In (e, x) [(34, 34); (92, 92); (98, 8); (102, 12); (110, 10); (114, 13); (116, 9)] ->
  scanstring (S f) (92 :: e :: r)
  = res <- scanstring f r ;; Returned (x :: fst res, snd res).
Proof.
  intros H. cbn [In] in H.
  repeat (destruct H as [H|H]; [injection H as <- <-; reflexivity|]). destruct H.
Qed.

Lemma scanstring_single f u r r1 :
  hex4 r = Some (u, r1) ->
  (0xd800 <=? u) && (u <=? 0xdbff) = false ->
  scanstring (S f) (92 :: 117 :: r)
  = res <- scanstring f r1 ;; Returned (u :: fst res, snd res).
Proof.
  intros H1 H2. cbn [scanstring].
  change (92 =? 34) with false. change (92 =? 92) with true.
  change (117 =? 34) with false. change (117 =? 92) with false.
  change (117 =? 47) with false. change (117 =? 98) with false.
  change (117 =? 102) with false. change (117 =? 110) with false.
  change (117 =? 114) with false. change (117 =? 116) with false.
  change (117 =? 117) with true. cbv iota.
  rewrite H1, H2. reflexivity.
Qed.

Lemma scanstring_pair f u1 u2 r r2 r3 :
  hex4 r = Some (u1, 92 :: 117 :: r2) ->
  hex4 r2 = Some (u2, r3) ->
  (0xd800 <=? u1) && (u1 <=? 0xdbff) = true ->
  (0xdc00 <=? u2) && (u2 <=? 0xdfff) = true ->
  scanstring (S f) (92 :: 117 :: r)
  = res <- scanstring f r3 ;;
    Returned (0x10000 + (u1 - 0xd800) * 1024 + (u2 - 0xdc00) :: fst res, snd res).
Proof.
  intros H1 H2 H3 H4. cbn [scanstring].
  change (92 =? 34) with false. change (92 =? 92) with true.
  change (117 =? 34) with false. change (117 =? 92) with false.
  change (117 =? 47) with false. change (117 =? 98) with false.
  change (117 =? 102) with false. change (117 =? 110) with false.
  change (117 =? 114) with false. change (117 =? 116) with false.
  change (117 =? 117) with true. cbv iota.
  rewrite H1, H3, H2, H4. reflexivity.
Qed.

Lemma escape_char_length c : (1 <= length (escape_char c))%nat.
Proof.
  unfold escape_char.
  repeat match goal with |- context [if ?b then _ else _] => destruct b end;
    rewrite ?length_app, ?length_hex_fixed; cbn [length str]; cbn; lia.
Qed.

(** Reading back an escaped character. *)
Lemma scanstring_escape_char c f r :
  scalar c = true ->
  (length (escape_char c) <= S f)%nat ->
  scanstring (S f) (escape_char c ++ r)
  = res <- scanstring f r ;; Returned (c :: fst res, snd res).
Proof.
  intros Hc Hf. unfold scalar in Hc. unfold escape_char in *.
  destruct (c =? 34) eqn:E1.
  { replace c with 34 by lia. now apply scanstring_simple; cbn; auto. }
  destruct (c =? 92) eqn:E2.
  { replace c with 92 by lia. apply (scanstring_simple f 92 92); cbn; auto. }
  destruct (c =? 8) eqn:E3.
  { replace c with 8 by lia. apply (scanstring_simple f 98 8); cbn; auto. }
  destruct (c =? 12) eqn:E4.
  { replace c with 12 by lia. apply (scanstring_simple f 102 12); cbn; auto 10. }
  destruct (c =? 10) eqn:E5.
  { replace c with 10 by lia. apply (scanstring_simple f 110 10); cbn; auto 10. }
  destruct (c =? 13) eqn:E6.
  { replace c with 13 by lia. apply (scanstring_simple f 114 13); cbn; auto 10. }
  destruct (c =? 9) eqn:E7.
  { replace c with 9 by lia. apply (scanstring_simple f 116 9); cbn; auto 10. }
  destruct ((32 <=? c) && (c <=? 126)) eqn:E8.
  { apply scanstring_plain; lia. }
  destruct (c <? 65536) eqn:E9.
  { change (str "\u" ++ hex_fixed 4 c) with (92 :: 117 :: hex_fixed 4 c).
    cbn [app]. apply scanstring_single.
    - apply hex4_hex_fixed. lia.
    - lia. }
  change (str "\u") with [92; 117]. cbn [app].
  rewrite <- !app_assoc. cbn [app].
  set (n := c - 65536).
  assert (Hn : 0 <= n < 1048576) by (unfold n; lia).
  rewrite (scanstring_pair f (55296 + (n / 1024) mod 1024) (56320 + n mod 1024)
             _ (hex_fixed 4 (56320 + n mod 1024) ++ r) r).
  - replace (65536 + (55296 + (n / 1024) mod 1024 - 55296) * 1024
              + (56320 + n mod 1024 - 56320)) with c; [reflexivity|].
    unfold n in *. Z.div_mod_to_equations. lia.
  - apply hex4_hex_fixed. Z.div_mod_to_equations. lia.
  - apply hex4_hex_fixed. Z.div_mod_to_equations. lia.
  - Z.div_mod_to_equations. lia.
  - Z.div_mod_to_equations. lia.
Qed.

(** [scanstring] reads back what [dumps] wrote for a string. *)
Lemma scanstring_escape s :
  text s = true ->
  forall fuel rest,
    (length (flat_map escape_char s) < fuel)%nat ->
    scanstring fuel (flat_map escape_char s ++ 34 :: rest) = Returned (s, rest).
Proof.
  induction s as [|c s IH]; intros Ht fuel rest Hf.
  - destruct fuel as [|f]; [cbn in Hf; lia|]. reflexivity.
  - unfold text in *. cbn [forallb] in Ht. apply andb_true_iff in Ht.
    destruct Ht as (Hc & Hs).
    cbn [flat_map] in *. rewrite length_app in Hf. rewrite <- app_assoc.
    destruct fuel as [|f]; [lia|].
    rewrite scanstring_escape_char; [|assumption|lia].
    rewrite (IH Hs); [reflexivity|].
    pose proof (escape_char_length c). lia.
Qed.

Lemma escape_char_ascii c : scalar c = true -> is_ascii (escape_char c) = true.
Proof.
  intros Hc. unfold scalar in Hc. unfold escape_char.
  assert (Hh : forall n x, is_ascii (hex_fixed n x) = true).
  { induction n as [|n IH]; intros x; cbn [hex_fixed]; [reflexivity|].
    rewrite is_ascii_app, IH. cbn [andb is_ascii forallb].
    assert (0 <= x mod 16 < 16) by (apply Z.mod_pos_bound; lia).
    unfold hex_digit. destruct (x mod 16 <? 10) eqn:E; lia. }
  repeat match goal with
         | |- context [if ?b then _ else _] => destruct b eqn:?
         end;
    rewrite ?is_ascii_app, ?Hh; try reflexivity.
  cbn [is_ascii forallb]. lia.
Qed.

Lemma flat_map_escape_ascii s :
  text s = true -> is_ascii (flat_map escape_char s) = true.
Proof.
  induction s as [|c s IH]; intros Ht; [reflexivity|].
  unfold text in Ht. cbn [forallb] in Ht. apply andb_true_iff in Ht.
  destruct Ht as (Hc & Hs). cbn [flat_map]. rewrite is_ascii_app.
  rewrite (escape_char_ascii c Hc), (IH Hs). reflexivity.
Qed.

Lemma dumps_str_ascii s : text s = true -> is_ascii (dumps_str s) = true.
Proof.
  intros Ht. unfold dumps_str.
  change (34 :: flat_map escape_char s ++ [34])
    with ([34] ++ flat_map escape_char s ++ [34]).
  rewrite !is_ascii_app, (flat_map_escape_ascii s Ht). reflexivity.
Qed.

End JsonStrings.

(** ** JSON numbers *)

Section JsonNumbers.

Import Values Json Representable.

Lemma delimited_not_digit rest :
  delimited rest ->
  match rest with c :: _ => is_digit c = false | [] => True end.
Proof.
  destruct rest as [|c r]; [trivial|]. cbn [delimited].
  intros [->|[->| ->]]; reflexivity.
Qed.

Lemma delimited_not_float rest : delimited rest -> float_follows rest = false.
Proof.
  destruct rest as [|c [|d r]]; try reflexivity. cbn [delimited].
  intros [->|[->| ->]]; reflexivity.
Qed.

Lemma scan_digits_uint d acc rest :
  match rest with c :: _ => is_digit c = false | [] => True end ->
  scan_digits (uint_digits d ++ rest) (Z.pos acc)
  = (Z.pos (Pos.of_uint_acc d acc), rest).
Proof.
  intros Hr. revert acc.
  induction d as [|d IH|d IH|d IH|d IH|d IH|d IH|d IH|d IH|d IH|d IH]; intros acc;
    cbn [uint_digits app Pos.of_uint_acc scan_digits];
    try (change (is_digit _) with true; cbv iota;
         match goal with
         | |- scan_digits _ ?a = (Z.pos (Pos.of_uint_acc _ ?b), _) =>
           replace a with (Z.pos b) by lia
         end; apply IH).
  destruct rest as [|c r]; [reflexivity|]. cbn [scan_digits]. now rewrite Hr.
Qed.

Lemma to_uint_leading p :
  exists c k l,
    In (c, k) leading_digits
    /\ uint_digits (Pos.to_uint p) = c :: uint_digits l
    /\ Pos.of_uint_acc l k = p.
Proof.
  pose proof (DecimalPos.Unsigned.of_to p) as Hof.
  pose proof (DecimalPos.Unsigned.to_of (Pos.to_uint p)) as Hto.
  rewrite Hof in Hto. cbn [N.to_uint] in Hto.
  destruct (Pos.to_uint p) as [|l|l|l|l|l|l|l|l|l|l] eqn:E.
  - discriminate.
  - exfalso. unfold Decimal.unorm in Hto. cbn [Decimal.nzhead] in Hto.
    destruct (Decimal.nzhead l) eqn:En;
      try (now apply (DecimalFacts.nzhead_nonzero l l); rewrite En, Hto).
    injection Hto as Hl. subst l.
    now apply (DecimalPos.Unsigned.to_uint_nonzero p).
  - exists 49, 1%positive, l. cbn in *. intuition congruence.
  - exists 50, 2%positive, l. cbn in *. intuition congruence.
  - exists 51, 3%positive, l. cbn in *. intuition congruence.
  - exists 52, 4%positive, l. cbn in *. intuition congruence.
  - exists 53, 5%positive, l. cbn in *. intuition congruence.
  - exists 54, 6%positive, l. cbn in *. intuition congruence.
  - exists 55, 7%positive, l. cbn in *. intuition congruence.
  - exists 56, 8%positive, l. cbn in *. intuition congruence.
  - exists 57, 9%positive, l. cbn in *. intuition congruence.
Qed.

Lemma scan_number_digits c k l rest :
  In (c, k) leading_digits ->
  delimited rest ->
  scan_number (c :: uint_digits l ++ rest)
  = Returned (VInt (Z.pos (Pos.of_uint_acc l k)), rest)
  /\ scan_number (45 :: c :: uint_digits l ++ rest)
     = Returned (VInt (Z.neg (Pos.of_uint_acc l k)), rest).
Proof.
  intros H Hd. unfold leading_digits in H. cbn [In] in H.
  pose proof (delimited_not_digit rest Hd) as Hn.
  pose proof (delimited_not_float rest Hd) as Hf.
  repeat (destruct H as [H|H];
          [injection H as <- <-; unfold scan_number;
           cbn [scan_digits is_digit Z.leb Z.eqb Z.compare Pos.compare
                Pos.compare_cont andb Pos.eqb Z.mul Z.add Z.sub Z.opp
                Pos.mul Pos.add Z.pos_sub Pos.succ Pos.pred_double
                Z.succ_double Z.double Z.pred_double];
           rewrite (scan_digits_uint l _ rest Hn), Hf; split; reflexivity|]).
  destruct H.
Qed.

(** [scan_number] reads back the decimal digits of an integer. *)
Lemma scan_number_repr_int z rest :
  delimited rest -> scan_number (repr_int z ++ rest) = Returned (VInt z, rest).
Proof.
  intros Hd. unfold repr_int.
  destruct z as [|p|p]; cbn [Z.to_int].
  - cbn [uint_digits app]. unfold scan_number. cbn.
    now rewrite (delimited_not_float rest Hd).
  - destruct (to_uint_leading p) as (c & k & l & Hin & -> & <-).
    cbn [app]. now apply scan_number_digits.
  - destruct (to_uint_leading p) as (c & k & l & Hin & -> & <-).
    cbn [app]. now apply scan_number_digits.
Qed.

Lemma repr_int_head z :
  exists c r, repr_int z = c :: r
              /\ (c = 45 \/ 48 <= c <= 57).
Proof.
  unfold repr_int. destruct z as [|p|p]; cbn [Z.to_int].
  - exists 48, []. split; [reflexivity|lia].
  - destruct (to_uint_leading p) as (c & k & l & Hin & -> & _).
    exists c, (uint_digits l). split; [reflexivity|].
    unfold leading_digits in Hin. cbn [In] in Hin.
    repeat (destruct Hin as [Hin|Hin]; [injection Hin as <- _; lia|]). destruct Hin.
  - exists 45. eexists. split; [reflexivity|]. now left.
Qed.

Lemma repr_int_ascii z : is_ascii (repr_int z) = true.
Proof.
  assert (H : forall d, is_ascii (uint_digits d) = true).
  { induction d; cbn [uint_digits]; try reflexivity; exact IHd. }
  unfold repr_int. destruct (Z.to_int z); [apply H|].
  change (is_ascii (45 :: uint_digits d)) with (true && is_ascii (uint_digits d)).
  now rewrite H.
Qed.

End JsonNumbers.

(** ** JSON values *)

Section JsonValues.

Import Values Json Representable Signature.

(** Induction on a value, with the property available for the items of
    a list and for the values of a dictionary. *)
Lemma pyval_nested_ind (P : pyval -> Prop) :
  P VNone -> (forall b, P (VBool b)) -> (forall z, P (VInt z)) ->
  (forall s, P (VStr s)) ->
  (forall l, Forall P l -> P (VList l)) ->
  (forall d, Forall (fun kv => P (snd kv)) d -> P (VDict d)) ->
  forall v, P v.
Proof.
  intros HN HB HI HS HL HD.
  fix IH 1. intros [|b|z|s|l|d].
  - exact HN.
  - apply HB.
  - apply HI.
  - apply HS.
  - apply HL. induction l as [|v l IHl]; constructor; [apply IH|exact IHl].
  - apply HD. induction d as [|[k v] d IHd]; constructor; [apply IH|exact IHd].
Qed.

(** *** Sorting by key *)

Lemma insert_key_map (g : pyval -> ustr) kv l :
  insert_key (fst kv, g (snd kv)) (map (fun x => (fst x, g (snd x))) l)
  = map (fun x => (fst x, g (snd x))) (insert_item kv l).
Proof.
  induction l as [|x l IH]; [reflexivity|].
  cbn [map insert_key insert_item fst].
  destruct (ustr_ltb (fst x) (fst kv)); cbn [map]; [now rewrite IH|reflexivity].
Qed.

Lemma sorted_keys_map (g : pyval -> ustr) d :
  fold_right insert_key [] (map (fun x => (fst x, g (snd x))) d)
  = map (fun x => (fst x, g (snd x))) (sorted_items d).
Proof.
  unfold sorted_items. induction d as [|kv d IH]; [reflexivity|].
  cbn [map fold_right]. rewrite IH. apply (insert_key_map g kv).
Qed.

Lemma insert_item_map (h : pyval -> pyval) kv l :
  insert_item (fst kv, h (snd kv)) (map (fun x => (fst x, h (snd x))) l)
  = map (fun x => (fst x, h (snd x))) (insert_item kv l).
Proof.
  induction l as [|x l IH]; [reflexivity|].
  cbn [map insert_item fst].
  destruct (ustr_ltb (fst x) (fst kv)); cbn [map]; [now rewrite IH|reflexivity].
Qed.

Lemma sorted_items_map (h : pyval -> pyval) d :
  sorted_items (map (fun x => (fst x, h (snd x))) d)
  = map (fun x => (fst x, h (snd x))) (sorted_items d).
Proof.
  unfold sorted_items. induction d as [|kv d IH]; [reflexivity|].
  cbn [map fold_right]. rewrite IH. apply (insert_item_map h kv).
Qed.

Lemma insert_item_permutation kv l : Permutation (insert_item kv l) (kv :: l).
Proof.
  induction l as [|x l IH]; [apply Permutation_refl|].
  cbn [insert_item]. destruct (ustr_ltb (fst x) (fst kv)); [|apply Permutation_refl].
  apply (Permutation_trans (l' := x :: kv :: l)); [now constructor|constructor].
Qed.

(** [sorted] returns the items it was given. *)
Lemma sorted_items_permutation_of d : Permutation (sorted_items d) d.
Proof.
  unfold sorted_items. induction d as [|kv d IH]; [constructor|].
  cbn [fold_right].
  apply (Permutation_trans (insert_item_permutation _ _)). now constructor.
Qed.

Lemma sorted_value_dict d :
  sorted_value (VDict d)
  = VDict (map (fun kv => (fst kv, sorted_value (snd kv))) (sorted_items d)).
Proof. cbn [sorted_value]. now rewrite (sorted_items_map sorted_value). Qed.

Lemma dumps_dict d :
  dumps (VDict d)
  = 123 :: join (str ",")
                (map (fun kv => dumps_str (fst kv) ++ 58 :: dumps (snd kv)) (sorted_items d))
    ++ [125].
Proof.
  cbn [dumps]. rewrite (sorted_keys_map dumps). rewrite map_map. reflexivity.
Qed.

(** *** Keys *)

Lemma distinct_NoDup l : distinct l = true <-> NoDup l.
Proof.
  induction l as [|k l IH]; cbn [distinct].
  - split; [constructor|reflexivity].
  - rewrite andb_true_iff, negb_true_iff, IH. split.
    + intros (H1 & H2). constructor; [|assumption].
      intros Hin. assert (E : existsb (ustr_eqb k) l = true).
      { apply existsb_exists. exists k. split; [assumption|now apply ustr_eqb_eq]. }
      congruence.
    + intros H. inversion H as [|? ? Hn Hd]; subst. split; [|assumption].
      destruct (existsb (ustr_eqb k) l) eqn:E; [|reflexivity].
      apply existsb_exists in E. destruct E as (x & Hx & Ex).
      apply ustr_eqb_eq in Ex. subst x. contradiction.
Qed.

Lemma set_fresh (acc : Dict.dict pyval) k v :
  ~ In k (Dict.keys acc) -> Dict.set acc k v = acc ++ [(k, v)].
Proof.
  unfold Dict.keys. induction acc as [|[k' v'] acc IH]; intros Hn; [reflexivity|].
  cbn [Dict.set map fst In] in *.
  destruct (ustr_eqb k' k) eqn:E.
  - apply ustr_eqb_eq in E. tauto.
  - cbn [app]. rewrite IH; [reflexivity|tauto].
Qed.

Lemma get_of_distinct (d : Dict.dict pyval) k v :
  NoDup (Dict.keys d) -> In (k, v) d -> Dict.get d k = Some v.
Proof.
  unfold Dict.keys. induction d as [|[k' v'] d IH]; intros Hnd Hin; [destruct Hin|].
  cbn [map fst] in Hnd. inversion Hnd as [|? ? Hn Hd]; subst.
  cbn [Dict.get]. destruct Hin as [E|Hin].
  - injection E as -> ->. now rewrite (proj2 (ustr_eqb_eq k k) eq_refl).
  - destruct (ustr_eqb k' k) eqn:E.
    + apply ustr_eqb_eq in E. subst k'. exfalso. apply Hn.
      apply in_map_iff. now exists (k, v).
    + now apply IH.
Qed.

End JsonValues.

(** ** Reading back what [dumps] wrote *)

Section JsonRoundTrip.

Import Values Json Representable Signature.

Lemma skip_ws_head c r : In c value_heads -> skip_ws (c :: r) = c :: r.
Proof.
  intros H. unfold value_heads in H. cbn [In] in H.
  repeat (destruct H as [<-|H]; [reflexivity|]). destruct H.
Qed.

Lemma digit_head c : 48 <= c <= 57 -> In c value_heads.
Proof.
  intros H. assert (H' : 0 <= c - 48 < 10) by lia. apply in_range_In in H'.
  cbn in H'. unfold value_heads. cbn [In].
  repeat (destruct H' as [E|H']; [replace c with (48 + (c - 48)) by lia; rewrite <- E; cbn; tauto|]).
  destruct H'.
Qed.

Lemma repr_int_shape z :
  (exists c r, repr_int z = c :: r /\ 48 <= c <= 57)
  \/ (exists c r, repr_int z = 45 :: c :: r /\ 48 <= c <= 57).
Proof.
  unfold repr_int. destruct z as [|p|p]; cbn [Z.to_int].
  - left. exists 48, []. split; [reflexivity|lia].
  - left. destruct (to_uint_leading p) as (c & k & l & Hin & -> & _).
    exists c, (uint_digits l). split; [reflexivity|].
    unfold leading_digits in Hin. cbn [In] in Hin.
    repeat (destruct Hin as [Hin|Hin]; [injection Hin as <- _; lia|]). destruct Hin.
  - right. destruct (to_uint_leading p) as (c & k & l & Hin & -> & _).
    exists c, (uint_digits l). split; [reflexivity|].
    unfold leading_digits in Hin. cbn [In] in Hin.
    repeat (destruct Hin as [Hin|Hin]; [injection Hin as <- _; lia|]). destruct Hin.
Qed.

Lemma dumps_head v : exists c r, dumps v = c :: r /\ In c value_heads.
Proof.
  unfold value_heads.
  destruct v as [|[|]|z|s|l|d]; cbn [dumps dumps_str str app];
    try (do 2 eexists; split; [reflexivity|cbn [In]; tauto]).
  destruct (repr_int_shape z) as [(c & r & -> & Hc)|(c & r & -> & Hc)].
  - exists c, r. split; [reflexivity|]. now apply digit_head.
  - do 2 eexists. split; [reflexivity|]. cbn [In]. tauto.
Qed.

Lemma skip_ws_dumps v rest : skip_ws (dumps v ++ rest) = dumps v ++ rest.
Proof.
  destruct (dumps_head v) as (c & r & -> & Hc). now apply skip_ws_head.
Qed.

Lemma starts_with_head p ps c r : c <> p -> starts_with (p :: ps) (c :: r) = None.
Proof.
  intros Hne. unfold starts_with. cbn [length firstn].
  destruct (ustr_eqb _ _) eqn:E; [|reflexivity].
  apply ustr_eqb_eq in E. congruence.
Qed.

Lemma starts_with_second p q ps c d r :
  d <> q -> starts_with (p :: q :: ps) (c :: d :: r) = None.
Proof.
  intros Hne. unfold starts_with. cbn [length firstn].
  destruct (ustr_eqb _ _) eqn:E; [|reflexivity].
  apply ustr_eqb_eq in E. congruence.
Qed.

(** *** How [scan_once] dispatches on the first character *)

Lemma scan_once_string f r :
  scan_once (S f) (34 :: r)
  = res <- scanstring (length r) r ;; Returned (VStr (fst res), snd res).
Proof. reflexivity. Qed.

Lemma scan_once_empty_list f rest :
  scan_once (S f) (91 :: 93 :: rest) = Returned (VList [], rest).
Proof. reflexivity. Qed.

Lemma scan_once_list f c r :
  In c value_heads ->
  scan_once (S f) (91 :: c :: r)
  = res <- parse_array f (c :: r) ;; Returned (VList (fst res), snd res).
Proof.
  intros H. unfold value_heads in H. cbn [In] in H.
  repeat (destruct H as [<-|H]; [reflexivity|]). destruct H.
Qed.

Lemma scan_once_empty_dict f rest :
  scan_once (S f) (123 :: 125 :: rest) = Returned (VDict [], rest).
Proof. reflexivity. Qed.

Lemma scan_once_dict f r :
  scan_once (S f) (123 :: 34 :: r)
  = res <- parse_object f (34 :: r) [] ;; Returned (VDict (fst res), snd res).
Proof. reflexivity. Qed.

Lemma scan_once_null f rest : scan_once (S f) (str "null" ++ rest) = Returned (VNone, rest).
Proof. reflexivity. Qed.

Lemma scan_once_true f rest :
  scan_once (S f) (str "true" ++ rest) = Returned (VBool true, rest).
Proof. reflexivity. Qed.

Lemma scan_once_false f rest :
  scan_once (S f) (str "false" ++ rest) = Returned (VBool false, rest).
Proof. reflexivity. Qed.

Lemma scan_once_digit f c r :
  48 <= c <= 57 -> scan_once (S f) (c :: r) = scan_number (c :: r).
Proof.
  intros H. cbn [scan_once].
  replace (c =? 34) with false by lia. replace (c =? 123) with false by lia.
  replace (c =? 91) with false by lia.
  cbn [str list_ascii_of_string map Z.of_N N_of_ascii N_of_digits N.add N.mul
       Pos.add Pos.mul Pos.succ].
  rewrite !starts_with_head by lia. reflexivity.
Qed.

Lemma scan_once_minus f c r :
  48 <= c <= 57 -> scan_once (S f) (45 :: c :: r) = scan_number (45 :: c :: r).
Proof.
  intros H. cbn [scan_once].
  change (45 =? 34) with false. change (45 =? 123) with false.
  change (45 =? 91) with false. cbv iota.
  cbn [str list_ascii_of_string map Z.of_N N_of_ascii N_of_digits N.add N.mul
       Pos.add Pos.mul Pos.succ].
  rewrite !starts_with_head by lia.
  rewrite starts_with_second by lia. reflexivity.
Qed.

Lemma scan_once_int z : reads_back (VInt z).
Proof.
  intros fuel rest Hf Hd. cbn [dumps sorted_value] in *.
  destruct fuel as [|f]; [lia|].
  rewrite <- (scan_number_repr_int z rest Hd).
  destruct (repr_int_shape z) as [(c & r & -> & Hc)|(c & r & -> & Hc)]; cbn [app].
  - now apply scan_once_digit.
  - now apply scan_once_minus.
Qed.

Lemma scan_once_str s : text s = true -> reads_back (VStr s).
Proof.
  intros Ht fuel rest Hf Hd. cbn [dumps sorted_value] in *.
  unfold dumps_str in *. cbn [length] in Hf. rewrite length_app in Hf.
  destruct fuel as [|f]; [lia|].
  cbn [app]. rewrite scan_once_string, <- app_assoc. cbn [app].
  rewrite (scanstring_escape s Ht); [reflexivity|].
  rewrite length_app. cbn [length]. lia.
Qed.


End JsonRoundTrip.

Section JsonContainers.

Import Values Json Representable Signature.

Lemma parse_array_items l :
  l <> [] ->
  Forall (fun v => representable v = true /\ reads_back v) l ->
  forall F rest,
    (length (join (str ",") (map dumps l)) + 1 < F)%nat ->
    parse_array F (join (str ",") (map dumps l) ++ 93 :: rest)
    = Returned (map sorted_value l, rest).
Proof.
  induction l as [|v l IH]; [congruence|].
  intros _ HF F rest Hlen.
  inversion HF as [|? ? (Hr & Hv) HF']; subst.
  destruct F as [|f]; [lia|].
  destruct l as [|w l'].
  - cbn [map join] in *. cbn [parse_array].
    rewrite (Hv f (93 :: rest)); [reflexivity|lia|cbn; tauto].
  - assert (E : join (str ",") (map dumps (v :: w :: l'))
                = dumps v ++ 44 :: join (str ",") (map dumps (w :: l'))) by reflexivity.
    rewrite E in *. clear E. rewrite length_app in Hlen. cbn [length] in Hlen.
    rewrite <- app_assoc. cbn [app parse_array].
    rewrite (Hv f (44 :: _)); [|lia|cbn; tauto].
    cbn [bind fst snd].
    change (skip_ws (44 :: ?x)) with (44 :: x). cbv iota.
    assert (Hs : skip_ws (join (str ",") (map dumps (w :: l')) ++ 93 :: rest)
                 = join (str ",") (map dumps (w :: l')) ++ 93 :: rest).
    { destruct l'; cbn [map join]; rewrite <- ?app_assoc; apply skip_ws_dumps. }
    rewrite Hs, (IH ltac:(discriminate) HF' f rest) by lia.
    reflexivity.
Qed.

Lemma keys_app (a b : Dict.dict pyval) : Dict.keys (a ++ b) = Dict.keys a ++ Dict.keys b.
Proof. apply map_app. Qed.

Lemma parse_object_items l :
  l <> [] ->
  Forall (fun kv => text (fst kv) = true /\ representable (snd kv) = true
                    /\ reads_back (snd kv)) l ->
  forall F rest acc,
    (length (join (str ",")
                  (map (fun kv => dumps_str (fst kv) ++ 58%Z :: dumps (snd kv)) l)) + 1 < F)%nat ->
    NoDup (Dict.keys acc ++ Dict.keys l) ->
    parse_object F
      (join (str ",") (map (fun kv => dumps_str (fst kv) ++ 58 :: dumps (snd kv)) l)
       ++ 125 :: rest) acc
    = Returned (acc ++ map (fun kv => (fst kv, sorted_value (snd kv))) l, rest).
Proof.
  induction l as [|[k v] l IH]; [congruence|].
  intros _ HF F rest acc Hlen Hnd.
  inversion HF as [|? ? (Ht & Hr & Hv) HF']; subst. cbn [fst snd] in *.
  destruct F as [|f]; [lia|].
  assert (Hk : ~ In k (Dict.keys acc)).
  { cbn [Dict.keys map fst] in Hnd. apply NoDup_remove_2 in Hnd.
    intros Hin. apply Hnd. apply in_or_app. now left. }
  assert (Hnd' : NoDup (Dict.keys (acc ++ [(k, sorted_value v)]) ++ Dict.keys l)).
  { rewrite keys_app, <- app_assoc. exact Hnd. }
  assert (Hitem : forall X, (dumps_str k ++ 58 :: dumps v) ++ X
                            = 34 :: flat_map escape_char k ++ 34 :: 58 :: dumps v ++ X).
  { intros X. unfold dumps_str. cbn [app]. rewrite <- !app_assoc. reflexivity. }
  assert (Hscan : forall X,
             scanstring (length (flat_map escape_char k ++ 34 :: 58 :: dumps v ++ X))
                        (flat_map escape_char k ++ 34 :: 58 :: dumps v ++ X)
             = Returned (k, 58 :: dumps v ++ X)).
  { intros X. apply (scanstring_escape k Ht). rewrite length_app. cbn [length]. lia. }
  destruct l as [|kw l'].
  - cbn [map join fst snd] in *. rewrite Hitem.
    rewrite length_app in Hlen. cbn [length] in Hlen.
    cbn [parse_object]. rewrite Hscan. cbn [bind fst snd].
    change (skip_ws (58 :: ?x)) with (58 :: x). cbv iota.
    rewrite skip_ws_dumps, (Hv f (125 :: rest)); [|lia|cbn; tauto].
    cbn [bind fst snd].
    change (skip_ws (125 :: ?x)) with (125 :: x). cbv iota.
    now rewrite (set_fresh acc k _ Hk).
  - assert (E : join (str ",")
                  (map (fun kv => dumps_str (fst kv) ++ 58 :: dumps (snd kv)) ((k, v) :: kw :: l'))
                = (dumps_str k ++ 58 :: dumps v)
                  ++ 44 :: join (str ",")
                       (map (fun kv => dumps_str (fst kv) ++ 58 :: dumps (snd kv)) (kw :: l')))
      by reflexivity.
    rewrite E in *. clear E.
    rewrite !length_app in Hlen. cbn [length] in Hlen.
    rewrite <- app_assoc, Hitem. cbn [app].
    cbn [parse_object]. rewrite Hscan. cbn [bind fst snd].
    change (skip_ws (58 :: ?x)) with (58 :: x). cbv iota.
    rewrite skip_ws_dumps, (Hv f (44 :: _)); [|lia|cbn; tauto].
    cbn [bind fst snd].
    change (skip_ws (44 :: ?x)) with (44 :: x). cbv iota.
    rewrite (set_fresh acc k _ Hk).
    assert (Hs : forall X, skip_ws (join (str ",")
                   (map (fun kv => dumps_str (fst kv) ++ 58 :: dumps (snd kv)) (kw :: l')) ++ X)
                 = join (str ",")
                   (map (fun kv => dumps_str (fst kv) ++ 58 :: dumps (snd kv)) (kw :: l')) ++ X).
    { intros X. destruct l'; cbn [map join]; unfold dumps_str; reflexivity. }
    rewrite Hs, (IH ltac:(discriminate) HF' f rest _) by (try lia; exact Hnd').
    rewrite <- app_assoc. reflexivity.
Qed.

(** [scan_once] reads back every representable value. *)
Lemma scan_once_dumps v : representable v = true -> reads_back v.
Proof.
  induction v as [|b|z|s|l IHl|d IHd] using pyval_nested_ind; intros Hr.
  - intros [|f] rest Hf Hd; [cbn in Hf; lia|]. apply scan_once_null.
  - intros [|f] rest Hf Hd; [cbn in Hf; lia|].
    destruct b; [apply scan_once_true|apply scan_once_false].
  - apply scan_once_int.
  - now apply scan_once_str.
  - intros fuel rest Hf Hd. cbn [representable] in Hr.
    assert (HF : Forall (fun v => representable v = true /\ reads_back v) l).
    { rewrite forallb_forall in Hr. rewrite Forall_forall in *.
      intros x Hx. split; [now apply Hr|apply IHl; [assumption|now apply Hr]]. }
    assert (E : dumps (VList l) = 91 :: join (str ",") (map dumps l) ++ [93]) by reflexivity.
    rewrite E in *. clear E. cbn [length] in Hf. rewrite length_app in Hf.
    cbn [length] in Hf.
    destruct fuel as [|f]; [lia|].
    cbn [sorted_value app]. rewrite <- app_assoc. cbn [app].
    destruct l as [|v l'].
    + cbn [map join app]. apply scan_once_empty_list.
    + destruct (dumps_head v) as (c & r & Ev & Hc).
      assert (Ej : exists r', join (str ",") (map dumps (v :: l')) = c :: r').
      { destruct l'; cbn [map join]; rewrite Ev; eexists; reflexivity. }
      destruct Ej as (r' & Ej).
      pose proof (parse_array_items (v :: l') ltac:(discriminate) HF f rest) as Hp.
      rewrite Ej in *. cbn [app] in *.
      rewrite (scan_once_list f c _ Hc), Hp by lia. reflexivity.
  - intros fuel rest Hf Hd. cbn [representable] in Hr.
    apply andb_true_iff in Hr. destruct Hr as (Hk & Hr).
    apply distinct_NoDup in Hk.
    assert (HF : Forall (fun kv => text (fst kv) = true /\ representable (snd kv) = true
                                   /\ reads_back (snd kv)) (sorted_items d)).
    { rewrite forallb_forall in Hr. rewrite Forall_forall in *.
      intros x Hx.
      apply (Permutation_in _ (sorted_items_permutation_of d)) in Hx.
      specialize (Hr x Hx). apply andb_true_iff in Hr. destruct Hr as (H1 & H2).
      repeat split; try assumption. now apply IHd. }
    assert (Hnd : NoDup (Dict.keys (@nil (ustr * pyval)) ++ Dict.keys (sorted_items d))).
    { cbn [Dict.keys map app].
      apply (Permutation_NoDup (l := map fst d)); [|exact Hk].
      apply Permutation_map, Permutation_sym, sorted_items_permutation_of. }
    rewrite dumps_dict in *. rewrite sorted_value_dict.
    cbn [length] in Hf. rewrite length_app in Hf. cbn [length] in Hf.
    destruct fuel as [|f]; [lia|].
    cbn [app]. rewrite <- app_assoc. cbn [app].
    destruct (sorted_items d) as [|[k v] l'] eqn:Es.
    + cbn [map join app]. apply scan_once_empty_dict.
    + pose proof (parse_object_items ((k, v) :: l') ltac:(discriminate) HF f rest [] ) as Hp.
      assert (Ej : exists r', join (str ",")
                    (map (fun kv => dumps_str (fst kv) ++ 58 :: dumps (snd kv)) ((k, v) :: l'))
                    = 34 :: r').
      { destruct l'; cbn [map join]; unfold dumps_str; eexists; reflexivity. }
      destruct Ej as (r' & Ej). rewrite Ej in *. cbn [app] in *.
      rewrite scan_once_dict, Hp by (try lia; exact Hnd). reflexivity.
Qed.

(** [json.loads] returns the value [json.dumps] was given, with its
    dictionaries in key order. *)
Lemma loads_dumps v :
  representable v = true -> loads (dumps v) = Returned (sorted_value v).
Proof.
  intros Hr. unfold loads.
  pose proof (skip_ws_dumps v []) as Hs. rewrite app_nil_r in Hs. rewrite Hs.
  pose proof (scan_once_dumps v Hr (S (length (dumps v))) [] ltac:(lia) I) as H.
  rewrite app_nil_r in H. rewrite H. reflexivity.
Qed.

End JsonContainers.

(** ** The QR payload *)

Section PayloadRoundTrip.

Import Values Json Representable Signature QrPayload.

Lemma join_ascii sep parts :
  is_ascii sep = true -> Forall (fun x => is_ascii x = true) parts ->
  is_ascii (join sep parts) = true.
Proof.
  intros Hs. induction 1 as [|x l Hx Hl IH]; [reflexivity|].
  destruct l as [|y l']; [exact Hx|].
  change (join sep (x :: y :: l')) with (x ++ sep ++ join sep (y :: l')).
  now rewrite !is_ascii_app, Hx, Hs, IH.
Qed.

(** With [ensure_ascii], the text [dumps] writes is ASCII. *)
Lemma dumps_ascii v : representable v = true -> is_ascii (dumps v) = true.
Proof.
  induction v as [|b|z|s|l IHl|d IHd] using pyval_nested_ind; intros Hr.
  - reflexivity.
  - destruct b; reflexivity.
  - apply repr_int_ascii.
  - now apply dumps_str_ascii.
  - cbn [representable] in Hr. rewrite forallb_forall in Hr.
    change (dumps (VList l)) with ([91] ++ join (str ",") (map dumps l) ++ [93]).
    rewrite !is_ascii_app, join_ascii; [reflexivity| reflexivity |].
    apply Forall_map. rewrite Forall_forall in *. intros x Hx.
    apply IHl; [assumption|now apply Hr].
  - cbn [representable] in Hr. apply andb_true_iff in Hr. destruct Hr as (_ & Hr).
    rewrite forallb_forall in Hr. rewrite dumps_dict.
    change (123 :: ?x ++ [125]) with ([123] ++ x ++ [125]).
    rewrite !is_ascii_app, join_ascii; [reflexivity| reflexivity |].
    apply Forall_map. rewrite Forall_forall in *. intros x Hx.
    apply (Permutation_in _ (sorted_items_permutation_of d)) in Hx.
    specialize (Hr x Hx). apply andb_true_iff in Hr. destruct Hr as (H1 & H2).
    change (58 :: dumps (snd x)) with ([58] ++ dumps (snd x)).
    rewrite !is_ascii_app, (dumps_str_ascii _ H1), (IHd x Hx H2). reflexivity.
Qed.

Lemma ascii_is_bytes s : is_ascii s = true -> Forall is_byte s.
Proof.
  intros H. apply is_ascii_Forall in H. rewrite Forall_forall in *.
  intros c Hc. specialize (H c Hc). unfold is_byte. lia.
Qed.

Lemma py_eqb_list_go l l' :
  Forall2 (fun a b => py_eqb a b = true) l l' ->
  py_eqb (VList l) (VList l') = true.
Proof.
  cbn [py_eqb]. induction 1 as [|a b l l' Hab Hl IH]; [reflexivity|].
  now rewrite Hab, IH.
Qed.

Lemma py_eqb_dict_go (d1 d2 : Dict.dict pyval) :
  length d1 = length d2 ->
  Forall (fun kv => exists w, Dict.get d2 (fst kv) = Some w /\ py_eqb (snd kv) w = true) d1 ->
  py_eqb (VDict d1) (VDict d2) = true.
Proof.
  intros Hlen HF. cbn [py_eqb]. rewrite Hlen, Nat.eqb_refl. cbn [andb].
  clear Hlen. induction HF as [|[k v] l (w & Hg & He) Hl IH]; [reflexivity|].
  cbn [fst snd] in *. now rewrite Hg, He, IH.
Qed.

(** Sorting the keys does not change a value under [==]. *)
Lemma sorted_value_eq v :
  representable v = true -> py_eqb (sorted_value v) v = true.
Proof.
  induction v as [|b|z|s|l IHl|d IHd] using pyval_nested_ind; intros Hr.
  - reflexivity.
  - destruct b; reflexivity.
  - cbn [sorted_value py_eqb]. apply Z.eqb_refl.
  - cbn [sorted_value py_eqb]. now apply ustr_eqb_eq.
  - cbn [representable sorted_value] in *. apply py_eqb_list_go.
    rewrite forallb_forall in Hr.
    induction IHl as [|a l Ha Hl IH]; cbn [map]; constructor.
    + apply Ha, Hr. now left.
    + apply IH. intros x Hx. apply Hr. now right.
  - cbn [representable] in Hr. apply andb_true_iff in Hr. destruct Hr as (Hk & Hr).
    apply distinct_NoDup in Hk. rewrite forallb_forall in Hr.
    rewrite sorted_value_dict. apply py_eqb_dict_go.
    + rewrite length_map. apply Permutation_length, sorted_items_permutation_of.
    + apply Forall_map. rewrite Forall_forall in *. intros [k v] Hx. cbn [fst snd].
      apply (Permutation_in _ (sorted_items_permutation_of d)) in Hx.
      exists v. split.
      * now apply get_of_distinct.
      * specialize (Hr _ Hx). apply andb_true_iff in Hr. destruct Hr as (_ & H2).
        now apply (IHd _ Hx).
Qed.


End PayloadRoundTrip.


(** A string with a high surrogate followed by a low surrogate is
    written as two escapes, which [json.loads] reads as one character:
    the decoded payload differs from the encoded one. *)
Lemma decode_encode_joins_surrogates :
  exists encoded,
    QrPayload.encode_payload Payloads.split_pair = Returned encoded
    /\ QrPayload.decode_payload encoded
       = Returned (Values.VDict [(str "a", Values.VStr [0x1F600])])
    /\ Values.py_eqb (Values.VDict [(str "a", Values.VStr [0x1F600])])
                     (Values.VDict Payloads.split_pair) = false.
Proof.
  eexists. split; [vm_compute; reflexivity|]. split; vm_compute; reflexivity.
Qed.

(** ** What the proof verifier raises, and what it accepts *)

Section VerifierOutcomes.

Import Ecdsa ZkProof.

Variable C : curve.

Lemma match_underscore {T : Type} (P : T -> Prop) (r : ustr) (X Y : T) :
  P X -> P Y -> P (match r with 95 :: _ => X | _ => Y end).
Proof.
  intros HX HY. destruct r as [|c r']; [exact HY|].
  destruct (Z.eq_dec c 95) as [->|H]; [exact HX|].
  destruct c as [|q|q]; try exact HY.
  do 7 (try (destruct q as [q|q|]; try exact HY)). congruence.
Qed.

Lemma int16_raises s e : int16 s = Raised e -> e = ValueError.
Proof.
  unfold int16. destruct (transform_numeric s) as [a|]; [|congruence].
  destruct (parse_sign (skip_spaces a)) as (sign, r).
  apply (match_underscore (fun X => X = Raised e -> e = ValueError)); [congruence|].
  destruct (scan_hex (skip_0x r) 0 false 0) as [[[v [|n]] rest]|]; try congruence.
  destruct (skip_spaces rest); congruence.
Qed.

Lemma encode_utf8_raises s e : encode_utf8 s = Raised e -> e = UnicodeEncodeError.
Proof.
  induction s as [|c r IH]; cbn [encode_utf8]; [discriminate|].
  unfold utf8_char.
  repeat match goal with
         | |- context [if ?b then _ else _] => destruct b
         end; cbn [bind]; try congruence;
    destruct (encode_utf8 r); cbn [bind]; try congruence; intros H; apply IH; congruence.
Qed.

Lemma from_payload_cases (payload : Dict.dict ustr) :
  match Dict.get payload (str "rx"), Dict.get payload (str "ry"),
        Dict.get payload (str "s") with
  | Some x, Some y, Some z =>
    match int16 x, int16 y, int16 z with
    | Returned rx, Returned ry, Returned s =>
      from_payload payload = Returned {| rx := rx; ry := ry; s := s |}
    | _, _, _ => from_payload payload = Raised ValueError
    end
  | _, _, _ => from_payload payload = Raised ValueError
  end.
Proof.
  unfold from_payload, Dict.getitem.
  destruct (Dict.get payload (str "rx")) as [x|]; [|destruct (Dict.get payload (str "ry")) as [y|]; [destruct (Dict.get payload (str "s"))|]; reflexivity].
  cbn [bind]. destruct (int16 x) as [rx|e1] eqn:E1.
  - cbn [bind]. destruct (Dict.get payload (str "ry")) as [y|]; [|reflexivity].
    cbn [bind]. destruct (int16 y) as [ry|e2] eqn:E2.
    + cbn [bind]. destruct (Dict.get payload (str "s")) as [z|]; [|reflexivity].
      cbn [bind]. destruct (int16 z) as [s|e3] eqn:E3; [reflexivity|].
      apply int16_raises in E3. subst e3. reflexivity.
    + apply int16_raises in E2. subst e2.
      destruct (Dict.get payload (str "s")) as [z|]; [|reflexivity].
      destruct (int16 z); reflexivity.
  - apply int16_raises in E1. subst e1.
    destruct (Dict.get payload (str "ry")) as [y|]; [|reflexivity].
    destruct (Dict.get payload (str "s")) as [z|]; [|reflexivity].
    destruct (int16 y); [destruct (int16 z)|]; reflexivity.
Qed.

Lemma from_payload_raises payload e : from_payload payload = Raised e -> e = ValueError.
Proof.
  pose proof (from_payload_cases payload) as H.
  destruct (Dict.get payload (str "rx")); [|congruence].
  destruct (Dict.get payload (str "ry")); [|congruence].
  destruct (Dict.get payload (str "s")); [|congruence].
  destruct (int16 u); [|congruence]. destruct (int16 u0); [|congruence].
  destruct (int16 u1); congruence.
Qed.

(** X1. [SchnorrProof.from_payload] returns a proof exactly when the
    three keys rx, ry and s are present and each holds a hexadecimal
    integer literal, whose values it returns; in every other case it
    raises [ValueError], never [KeyError]. *)
Theorem from_payload_outcome (payload : Dict.dict ustr) :
  (forall e, from_payload payload = Raised e -> e = ValueError)
  /\ (forall proof,
         from_payload payload = Returned proof <->
         exists x y z,
           Dict.get payload (str "rx") = Some x /\ int16 x = Returned (rx proof)
           /\ Dict.get payload (str "ry") = Some y /\ int16 y = Returned (ry proof)
           /\ Dict.get payload (str "s") = Some z /\ int16 z = Returned (s proof)).
Proof.
  split; [apply from_payload_raises|].
  intros proof. pose proof (from_payload_cases payload) as H. split.
  - intros Hp. rewrite Hp in H.
    destruct (Dict.get payload (str "rx")) as [x|]; [|discriminate].
    destruct (Dict.get payload (str "ry")) as [y|]; [|discriminate].
    destruct (Dict.get payload (str "s")) as [z|]; [|discriminate].
    exists x, y, z.
    destruct (int16 x); [|discriminate]. destruct (int16 y); [|discriminate].
    destruct (int16 z); [|discriminate].
    injection H as E. subst proof. cbn. tauto.
  - intros (x & y & z & Hx & Ex & Hy & Ey & Hz & Ez).
    rewrite Hx, Hy, Hz, Ex, Ey, Ez in H. rewrite H. now destruct proof.
Qed.

Lemma challenge_raises proof commitment document_id context cb e :
  fromhex commitment = Returned cb ->
  challenge C proof commitment document_id context = Raised e ->
  (e = OverflowError
   /\ (rx proof < 0 \/ 2 ^ 256 <= rx proof \/ ry proof < 0 \/ 2 ^ 256 <= ry proof))
  \/ (e = UnicodeEncodeError
      /\ (encode_utf8 document_id = Raised UnicodeEncodeError
          \/ encode_utf8 context = Raised UnicodeEncodeError)).
Proof.
  intros Hc. unfold challenge. rewrite Hc. cbn [bind]. unfold to_bytes.
  destruct ((rx proof <? 0) || (2 ^ (8 * Z.of_nat 32) <=? rx proof)) eqn:Ex.
  { cbn [bind]. intros H. left. split; [congruence|].
    change (2 ^ (8 * Z.of_nat 32)) with (2 ^ 256) in Ex. lia. }
  cbn [bind].
  destruct ((ry proof <? 0) || (2 ^ (8 * Z.of_nat 32) <=? ry proof)) eqn:Ey.
  { cbn [bind]. intros H. left. split; [congruence|].
    change (2 ^ (8 * Z.of_nat 32)) with (2 ^ 256) in Ey. lia. }
  cbn [bind].
  destruct (encode_utf8 document_id) as [db|e1] eqn:E1.
  - cbn [bind]. destruct (encode_utf8 context) as [xb|e2] eqn:E2; [discriminate|].
    cbn [bind]. intros H. right. apply encode_utf8_raises in E2. subst e2.
    split; [congruence|now right].
  - cbn [bind]. intros H. right. apply encode_utf8_raises in E1. subst e1.
    split; [congruence|now left].
Qed.

(** X2. The only exceptions [verify_schnorr_proof] lets through are
    [OverflowError] (rx or ry negative or of more than 256 bits),
    [UnicodeEncodeError] (a document id or context that UTF-8 cannot
    encode) and [AssertionError] (rx, ry not on the curve). *)
Theorem verify_schnorr_proof_raises_only
  (commitment document_id : ustr) (payload : Dict.dict ustr) (context : ustr) (e : exn) :
  verify_schnorr_proof C commitment document_id payload context = Raised e ->
  exists proof,
    from_payload payload = Returned proof
    /\ ((e = OverflowError
         /\ (rx proof < 0 \/ 2 ^ 256 <= rx proof \/ ry proof < 0 \/ 2 ^ 256 <= ry proof))
        \/ (e = UnicodeEncodeError
            /\ (encode_utf8 document_id = Raised UnicodeEncodeError
                \/ encode_utf8 context = Raised UnicodeEncodeError))
        \/ (e = AssertionError /\ contains_point C (rx proof) (ry proof) = false)).
Proof.
  unfold verify_schnorr_proof.
  destruct (fromhex commitment) as [cb|] eqn:Hc; cbn [bind]; [|discriminate].
  destruct (VerifyingKey_from_string C cb) as [P|]; [|discriminate].
  destruct (from_payload payload) as [proof|e0] eqn:Hp.
  - intros H. exists proof. split; [reflexivity|].
    destruct (challenge C proof commitment document_id context) as [ch|e1] eqn:Hch.
    + cbn [bind] in H. unfold to_point in H.
      destruct (contains_point C (rx proof) (ry proof)) eqn:Hon.
      * cbn [bind] in H. destruct (point_eqb _ Inf); discriminate.
      * cbn [bind] in H. right. right. split; congruence.
    + cbn [bind] in H. assert (e1 = e) by congruence. subst e1.
      destruct (challenge_raises _ _ _ _ _ _ Hc Hch) as [H1|H1]; tauto.
  - apply from_payload_raises in Hp. subst e0. discriminate.
Qed.

(** X3. When [verify_schnorr_proof] returns [True], the commitment is
    the encoding of a curve point [P], the proof parses, [(rx, ry)] is a
    point [R] of the curve, and [s' G = R + e P] holds for the challenge
    [e] of the proof and [s' = s mod order], or 1 when that is zero. *)
Theorem verify_schnorr_proof_true
  (commitment document_id : ustr) (payload : Dict.dict ustr) (context : ustr) :
  verify_schnorr_proof C commitment document_id payload context = Returned true ->
  exists cb P proof e R,
    fromhex commitment = Returned cb
    /\ VerifyingKey_from_string C cb = Returned P
    /\ from_payload payload = Returned proof
    /\ challenge C proof commitment document_id context = Returned e
    /\ to_point C proof = Returned R
    /\ R <> Inf
    /\ point_eqb (pt_mul C (_ensure_scalar C (s proof)) (generator C))
                 (pt_add C R (pt_mul C e P)) = true.
Proof.
  unfold verify_schnorr_proof.
  destruct (fromhex commitment) as [cb|] eqn:Hc; cbn [bind]; [|discriminate].
  destruct (VerifyingKey_from_string C cb) as [P|] eqn:HP; [|discriminate].
  destruct (from_payload payload) as [proof|e0] eqn:Hp;
    [|destruct (is_ValueError e0); discriminate].
  destruct (challenge C proof commitment document_id context) as [e|] eqn:Hch;
    cbn [bind]; [|discriminate].
  destruct (to_point C proof) as [R|] eqn:HR; cbn [bind]; [|discriminate].
  destruct (point_eqb R Inf) eqn:HI; [discriminate|].
  intros H. exists cb, P, proof, e, R. repeat split; try assumption.
  - intros ->. discriminate.
  - unfold GENERATOR in H. congruence.
Qed.

End VerifierOutcomes.

Section VerifierWitnesses.

Import Ecdsa CurveFacts ZkProof Prover.

Lemma from_payload_outcome_sample :
  from_payload [(str "rx", str "0x1F"); (str "ry", str " -a "); (str "s", str "1_0")]
  = Returned {| rx := 31; ry := -10; s := 16 |}
  /\ from_payload [(str "rx", str "1f"); (str "s", str "10")] = Raised ValueError
  /\ from_payload [(str "rx", str "1g"); (str "ry", str "0"); (str "s", str "0")]
     = Raised ValueError.
Proof. repeat split. Qed.

(** On the small curve: an abscissa of 257 bits. *)
Lemma verify_schnorr_proof_raises_only_witness :
  exists proof,
    from_payload [(str "rx", 49 :: repeat 48 64); (str "ry", str "0"); (str "s", str "0")]
    = Returned proof
    /\ ((OverflowError = OverflowError
         /\ (rx proof < 0 \/ 2 ^ 256 <= rx proof \/ ry proof < 0 \/ 2 ^ 256 <= ry proof))
        \/ (OverflowError = UnicodeEncodeError
            /\ (encode_utf8 (str "INV-1234-5678") = Raised UnicodeEncodeError
                \/ encode_utf8 [] = Raised UnicodeEncodeError))
        \/ (OverflowError = AssertionError
            /\ contains_point T43 (rx proof) (ry proof) = false)).
Proof.
  apply (verify_schnorr_proof_raises_only T43 (hex (2 :: be_bytes 32 12))
           (str "INV-1234-5678")
           [(str "rx", 49 :: repeat 48 64); (str "ry", str "0"); (str "s", str "0")] []).
  vm_compute. reflexivity.
Defined.

(** On the small curve: the proof for digest 5 with nonce 3. *)
Lemma verify_schnorr_proof_true_witness :
  exists cb P proof e R,
    fromhex (hex (2 :: be_bytes 32 12)) = Returned cb
    /\ VerifyingKey_from_string T43 cb = Returned P
    /\ from_payload (honest_payload 35 21 21) = Returned proof
    /\ challenge T43 proof (hex (2 :: be_bytes 32 12)) (str "INV-1234-5678") [] = Returned e
    /\ to_point T43 proof = Returned R
    /\ R <> Inf
    /\ point_eqb (pt_mul T43 (_ensure_scalar T43 (s proof)) (generator T43))
                 (pt_add T43 R (pt_mul T43 e P)) = true.
Proof.
  apply (verify_schnorr_proof_true T43 (hex (2 :: be_bytes 32 12)) (str "INV-1234-5678")
           (honest_payload 35 21 21) []).
  vm_compute. reflexivity.
Defined.

End VerifierWitnesses.

Section ZeroResponse.

Import Ecdsa CurveFacts ZkProof Prover.

Variable C : curve.
Hypothesis HC : curve_group C.

(** X4. An honest proof whose response [s = k + e x mod order] is zero
    is rejected: the verifier replaces a zero response by 1 and compares
    [G] with [R + e P], which is the point at infinity. *)
Theorem honest_zero_response_rejected :
  forall (d k rx ry px py : Z) (document_id context : ustr) (db xb : bytes),
    0 <= d < 2 ^ 256 ->
    pt_mul C (_ensure_scalar C d) (generator C) = Aff px py ->
    encode_utf8 document_id = Returned db ->
    encode_utf8 context = Returned xb ->
    0 < k < order C ->
    pt_mul C k (generator C) = Aff rx ry ->
    (k + honest_challenge C rx ry ((if Z.odd py then 3 else 2) :: be_bytes (baselen C) px)
           db xb * _ensure_scalar C d) mod order C = 0 ->
    verify_schnorr_proof C (hex ((if Z.odd py then 3 else 2) :: be_bytes (baselen C) px))
      document_id (honest_payload rx ry 0) context
    = Returned false.
Proof.
  intros d k rx ry px py document_id context db xb Hd HP Hdb Hxb Hk HR Hs.
  remember (_ensure_scalar C d) as x eqn:Ex.
  remember (honest_challenge C rx ry ((if Z.odd py then 3 else 2) :: be_bytes (baselen C) px)
              db xb) as e eqn:Ee.
  destruct (cg_bytes HC) as (Hp256 & Hn256).
  pose proof (cg_order_gt HC) as Hn.
  pose proof (ensure_scalar_range HC d) as Hx. rewrite <- Ex in Hx.
  assert (HPv : valid_point C (Aff px py) = true).
  { rewrite <- HP. apply (valid_pt_mul HC), (cg_generator HC). }
  destruct (@valid_Aff C px py HPv) as (Hpx & _ & _).
  pose proof (@compressed_is_bytes C px py (proj1 Hpx)) as Hbytes.
  assert (HRv : valid_point C (Aff rx ry) = true).
  { rewrite <- HR. apply (valid_pt_mul HC), (cg_generator HC). }
  destruct (@valid_Aff C rx ry HRv) as (Hrx & Hry & _).
  assert (He : 0 <= e < order C).
  { rewrite Ee. unfold honest_challenge. apply Z.mod_pos_bound. lia. }
  assert (Hrx' : 0 <= rx < 2 ^ 256) by lia.
  assert (Hry' : 0 <= ry < 2 ^ 256) by lia.
  assert (Hs2 : 0 <= 0 < 2 ^ 256) by lia.
  assert (Hens : _ensure_scalar C 0 = 1).
  { unfold _ensure_scalar, ORDER. rewrite Z.mod_0_l by lia. reflexivity. }
  rewrite (@verify_eval C _ document_id _ context _ (Aff px py)
             {| ZkProof.rx := rx; ZkProof.ry := ry; ZkProof.s := 0 |} e (Aff rx ry)
             (@fromhex_hex _ Hbytes) (@compressed_roundtrip C HC px py HPv)
             (@from_payload_honest rx ry 0 Hrx' Hry' Hs2)).
  - cbn [point_eqb ZkProof.s]. rewrite Hens.
    rewrite <- HR, <- HP, <- (@schnorr_equation C HC k e x) by lia.
    rewrite Hs. change (pt_mul C 0 (generator C)) with Inf.
    rewrite (@pt_mul_nmul C HC 1 (generator C)) by (try lia; apply (cg_generator HC)).
    change (Z.to_nat 1) with 1%nat. rewrite nmul_1.
    destruct (generator C) eqn:EG; [|reflexivity].
    exfalso. rewrite (@pt_mul_Inf C HC k) in HR. discriminate.
  - rewrite Ee.
    apply (@challenge_honest C rx ry 0 _ document_id context _ db xb
             Hrx' Hry' (@fromhex_hex _ Hbytes) Hdb Hxb).
  - apply (@to_point_valid C rx ry 0 HRv).
Qed.

(** X5. Digests that differ by the group order, and the digests 0 and
    1, have the same commitment. *)
Theorem commitment_collisions :
  forall d : Z,
    1 < order C -> 0 <= d -> d + order C < 2 ^ 256 ->
    commitment_from_hash C (hex (be_bytes 32 (d + order C)))
    = commitment_from_hash C (hex (be_bytes 32 d))
    /\ commitment_from_hash C (hex (be_bytes 32 0))
       = commitment_from_hash C (hex (be_bytes 32 1)).
Proof.
  intros d Hn Hd Hdn. unfold commitment_from_hash.
  rewrite !int16_hex32 by lia. cbn [bind].
  assert (E1 : _ensure_scalar C (d + order C) = _ensure_scalar C d).
  { unfold _ensure_scalar, ORDER.
    replace (d + order C) with (d + 1 * order C) by lia.
    now rewrite Z.mod_add by lia. }
  assert (E2 : _ensure_scalar C 0 = _ensure_scalar C 1).
  { unfold _ensure_scalar, ORDER. rewrite Z.mod_0_l, Z.mod_1_l by lia. reflexivity. }
  now rewrite E1, E2.
Qed.

End ZeroResponse.

Section ZeroResponseWitnesses.

Import Ecdsa CurveFacts ZkProof Prover.

(** On the small curve: digest 5, nonce 18, challenge 15. *)
Lemma honest_zero_response_rejected_witness :
  verify_schnorr_proof T43 (hex (2 :: be_bytes 32 12)) (str "INV-1234-5678")
    (honest_payload 13 22 0) []
  = Returned false.
Proof.
  apply (honest_zero_response_rejected T43 T43_group 5 18 13 22 12 12
           (str "INV-1234-5678") [] (str "INV-1234-5678") []);
    try (vm_compute; reflexivity); vm_compute; split; congruence.
Defined.

Lemma commitment_collisions_witness :
  commitment_from_hash SECP256k1 (hex (be_bytes 32 (7 + order SECP256k1)))
  = commitment_from_hash SECP256k1 (hex (be_bytes 32 7))
  /\ commitment_from_hash SECP256k1 (hex (be_bytes 32 0))
     = commitment_from_hash SECP256k1 (hex (be_bytes 32 1)).
Proof.
  apply (commitment_collisions SECP256k1 7); vm_compute; congruence.
Defined.

End ZeroResponseWitnesses.

(** ** Canonical text and its hash *)

Section CanonicalShape.

Import Values TextProcessing Canonical.

Context {U : UnicodeData}.

(** X6. Whatever the input, the text [normalize_text] returns has no
    whitespace at either end, and its only whitespace characters are
    single blanks, each followed by a character that is not
    whitespace. *)
Theorem normalize_text_canonical (raw_text : ustr) :
  tidy (normalize_text raw_text)
  /\ no_space_at_head (normalize_text raw_text)
  /\ no_space_at_head (rev (normalize_text raw_text)).
Proof.
  unfold normalize_text. destruct raw_text as [|c r]; [cbn; tauto|].
  cbv zeta. unfold collapse_whitespace.
  set (x := lower (nfkc (c :: r))).
  destruct (strip_shape (collapse_from false x)) as (pre & post & E & Hh & Hl).
  pose proof (collapse_from_tidy false x) as Ht.
  rewrite E in Ht. apply tidy_app in Ht. destruct Ht as (_ & Ht).
  apply tidy_app in Ht. tauto.
Qed.

End CanonicalShape.

Section HashOfText.

Import Ecdsa CurveFacts ZkProof Values TextProcessing Representable.

Lemma encode_utf8_text s : text s = true -> exists bs, encode_utf8 s = Returned bs.
Proof.
  induction s as [|c r IH]; intros Ht; [now exists []|].
  unfold text in *. cbn [forallb] in Ht. apply andb_true_iff in Ht.
  destruct Ht as (Hc & Hr). destruct (IH Hr) as (bs & E).
  cbn [encode_utf8]. rewrite E. unfold scalar in Hc. unfold utf8_char.
  replace ((c <? 0) || (1114111 <? c)) with false by lia.
  destruct (c <? 128); [eexists; reflexivity|].
  destruct (c <? 2048); [eexists; reflexivity|].
  replace ((55296 <=? c) && (c <=? 57343)) with false by lia.
  destruct (c <? 65536); eexists; reflexivity.
Qed.

Lemma from_bytes_range bs :
  Forall is_byte bs -> 0 <= from_bytes bs < 256 ^ Z.of_nat (length bs).
Proof.
  induction bs as [|b bs IH] using rev_ind; intros H.
  - cbn. lia.
  - apply Forall_app in H. destruct H as (Hbs & Hb).
    inversion Hb as [|? ? Hb' _]; subst. unfold is_byte in Hb'.
    rewrite from_bytes_snoc, length_app. cbn [length].
    replace (Z.of_nat (length bs + 1)) with (Z.of_nat (length bs) + 1) by lia.
    rewrite Z.pow_add_r by lia. specialize (IH Hbs). nia.
Qed.

Lemma be_bytes_from_bytes bs :
  Forall is_byte bs -> be_bytes (length bs) (from_bytes bs) = bs.
Proof.
  induction bs as [|b bs IH] using rev_ind; intros H; [reflexivity|].
  apply Forall_app in H. destruct H as (Hbs & Hb).
  inversion Hb as [|? ? Hb' _]; subst. unfold is_byte in Hb'.
  rewrite from_bytes_snoc, length_app. cbn [length].
  replace (length bs + 1)%nat with (S (length bs)) by lia. cbn [be_bytes].
  rewrite Z.div_add_l, (Z.div_small b 256), Z.add_0_r by lia.
  rewrite (Z.add_comm _ b), Z.mod_add, (Z.mod_small b 256) by lia.
  now rewrite IH.
Qed.

(** A SHA-256 digest is the 32-byte form of a 256-bit number. *)
Lemma sha256_digest_number msg :
  exists d, 0 <= d < 2 ^ 256 /\ Hashlib.sha256 msg = be_bytes 32 d.
Proof.
  exists (from_bytes (Hashlib.sha256 msg)).
  pose proof (from_bytes_range _ (sha256_is_bytes msg)) as H.
  pose proof (be_bytes_from_bytes _ (sha256_is_bytes msg)) as E.
  rewrite length_sha256 in *. split; [exact H|now symmetry].
Qed.

Variable C : curve.
Hypothesis HC : curve_group C.

(** X7. The hash of a non-empty text of Unicode scalar values is a
    string of 64 hexadecimal digits that [commitment_from_hash] accepts:
    the upload path cannot fail between hashing the canonical text and
    deriving the commitment, and the commitment encodes a point of the
    curve.  The hash of the empty text is [None]. *)
Theorem hash_then_commitment (normalized_text : ustr) :
  normalized_text <> [] ->
  text normalized_text = true ->
  exists h x y,
    hash_normalized_text normalized_text = Returned (Some h)
    /\ length h = 64%nat
    /\ valid_point C (Aff x y) = true
    /\ commitment_from_hash C h
       = Returned (hex ((if Z.odd y then 3 else 2) :: be_bytes (baselen C) x)).
Proof.
  intros Hne Ht. destruct (encode_utf8_text _ Ht) as (raw & Eraw).
  destruct (sha256_digest_number raw) as (d & Hd & Ed).
  pose proof (ensure_scalar_range HC d) as Hx.
  destruct (generator_multiple HC Hx) as (x & y & HP & Hv).
  exists (hex (Hashlib.sha256 raw)), x, y.
  split; [|split; [|split]].
  - unfold hash_normalized_text. destruct normalized_text; [congruence|].
    now rewrite Eraw.
  - rewrite length_hex, length_sha256. reflexivity.
  - exact Hv.
  - rewrite Ed. apply (commitment_of_scalar HC _ (int16_hex32 Hd) HP).
Qed.

End HashOfText.

Lemma hash_then_commitment_witness :
  exists h x y,
    TextProcessing.hash_normalized_text (str "invoice total: 100.00 usd") = Returned (Some h)
    /\ length h = 64%nat
    /\ Ecdsa.valid_point CurveFacts.T43 (Ecdsa.Aff x y) = true
    /\ ZkProof.commitment_from_hash CurveFacts.T43 h
       = Returned (hex ((if Z.odd y then 3 else 2)
                        :: be_bytes (Ecdsa.baselen CurveFacts.T43) x)).
Proof.
  apply (hash_then_commitment CurveFacts.T43 T43_group).
  - discriminate.
  - reflexivity.
Defined.

(** ** What a signature looks like, and what verification raises *)

Section SignatureShape.

Import Values Signature.

Context {U : UnicodeData}.
Variable signing_secret_env : option ustr.

Lemma hex_digits bs :
  Forall is_byte bs ->
  Forall (fun c => 48 <= c <= 57 \/ 97 <= c <= 102) (hex bs).
Proof.
  induction 1 as [|b bs Hb Hbs IH]; [constructor|].
  unfold is_byte in Hb. cbn [hex].
  assert (H1 : 0 <= b / 16 < 16) by (split; [apply Z.div_pos; lia|apply Z.div_lt_upper_bound; lia]).
  assert (H2 : 0 <= b mod 16 < 16) by (apply Z.mod_pos_bound; lia).
  constructor; [|constructor; [|exact IH]]; unfold hex_digit.
  - destruct (b / 16 <? 10) eqn:E; lia.
  - destruct (b mod 16 <? 10) eqn:E; lia.
Qed.

(** X8. A signature is the lower-case hexadecimal form of a 32-byte
    HMAC: 64 characters, each a digit or a letter from a to f, and
    [bytes.fromhex] reads the 32 bytes back. *)
Theorem sign_payload_shape (payload : Dict.dict pyval) (sig : ustr) :
  sign_payload signing_secret_env payload = Returned sig ->
  length sig = 64%nat
  /\ Forall (fun c => 48 <= c <= 57 \/ 97 <= c <= 102) sig
  /\ exists mac, length mac = 32%nat /\ Forall is_byte mac
                 /\ sig = hex mac /\ fromhex sig = Returned mac.
Proof.
  unfold sign_payload.
  destruct (encode_utf8 _) as [j|]; [|discriminate]. cbn [bind].
  destruct (_load_secret signing_secret_env) as [k|]; [|discriminate]. cbn [bind].
  intros E.
  assert (Es : sig = hex (Hashlib.hmac_sha256 k j)) by congruence.
  pose proof (hmac_sha256_is_bytes k j) as Hb.
  pose proof (length_hmac_sha256 k j) as Hl.
  rewrite Es. split; [|split].
  - now rewrite length_hex, Hl.
  - now apply hex_digits.
  - exists (Hashlib.hmac_sha256 k j). repeat split; try assumption.
    now apply fromhex_hex.
Qed.

(** X9. Given the signature [sign_payload] computes for the fields,
    [verify_signature] compares it with an ASCII string and returns the
    outcome; for any other value (a string with a character outside
    ASCII, [None], a number, a list) it raises [TypeError].  When
    [sign_payload] raises, so does [verify_signature]. *)
Theorem verify_signature_outcome (payload : Dict.dict pyval) (signature : pyval) :
  verify_signature signing_secret_env payload signature
  = match sign_payload signing_secret_env payload with
    | Raised e => Raised e
    | Returned expected =>
      match signature with
      | VStr s => if is_ascii s then Returned (ustr_eqb expected s) else Raised TypeError
      | _ => Raised TypeError
      end
    end.
Proof.
  unfold verify_signature.
  destruct (sign_payload signing_secret_env payload) as [expected|e] eqn:Hs;
    [|reflexivity].
  cbn [bind]. unfold compare_digest.
  destruct (sign_payload_ascii _ _ _ Hs) as (Ha & _).
  destruct signature; try reflexivity. now rewrite Ha.
Qed.

(** *** The order of the signed items *)

Lemma insert_item_sorted kv l :
  Sorted (fun a b => ustr_ltb (fst b) (fst a) = false) l ->
  Sorted (fun a b => ustr_ltb (fst b) (fst a) = false) (insert_item kv l).
Proof.
  induction l as [|x l IH]; intros Hs.
  - cbn. repeat constructor.
  - cbn [insert_item]. destruct (ustr_ltb (fst x) (fst kv)) eqn:E.
    + inversion Hs as [|? ? Hs' Hh]; subst. constructor; [now apply IH|].
      destruct l as [|y l']; cbn [insert_item].
      * constructor. now apply ustr_ltb_asym.
      * destruct (ustr_ltb (fst y) (fst kv)).
        -- inversion Hh; subst. now constructor.
        -- constructor. now apply ustr_ltb_asym.
    + constructor; [exact Hs|]. constructor. exact E.
Qed.

(** X10. [sorted(payload.items())] returns the items it was given, in
    ascending order of their keys: no key is followed by a smaller
    one. *)
Theorem sorted_items_sorted (payload : Dict.dict pyval) :
  Permutation (sorted_items payload) payload
  /\ Sorted (fun a b => ustr_ltb (fst b) (fst a) = false) (sorted_items payload).
Proof.
  split; [apply sorted_items_permutation_of|].
  unfold sorted_items. induction payload as [|kv d IH]; [constructor|].
  cbn [fold_right]. now apply insert_item_sorted.
Qed.

End SignatureShape.

Lemma sign_payload_shape_witness :
  length Signed.signature = 64%nat
  /\ Forall (fun c => 48 <= c <= 57 \/ 97 <= c <= 102) Signed.signature
  /\ exists mac, length mac = 32%nat /\ Forall is_byte mac
                 /\ Signed.signature = hex mac /\ fromhex Signed.signature = Returned mac.
Proof.
  apply (sign_payload_shape (U := Excerpt.unicode_excerpt) None Signed.fields).
  vm_compute. reflexivity.
Defined.

(** ** The encoded payload *)

Section EncodedPayload.

Import Values Json Representable Signature QrPayload Base64 UrlSafe.

Lemma b64_char_url_safe v : 0 <= v < 64 -> url_safe (b64_char v) = true.
Proof.
  intros H. apply in_range_In in H. cbn in H.
  repeat (destruct H as [<-|H]; [reflexivity|]). destruct H.
Qed.

Lemma encode_url_safe bs :
  Forall is_byte bs ->
  forallb url_safe (encode bs) = true /\ (length (encode bs) mod 4 = 0)%nat.
Proof.
  assert (Hind : forall n bs, (length bs <= n)%nat -> Forall is_byte bs ->
                 forallb url_safe (encode bs) = true
                 /\ (length (encode bs) mod 4 = 0)%nat).
  { clear bs. induction n as [|n IH]; intros bs Hn Hb.
    - destruct bs; [split; reflexivity|cbn in Hn; lia].
    - destruct bs as [|x [|y [|z r]]].
      + split; reflexivity.
      + inversion Hb as [|? ? Hx _]; subst. cbn [encode forallb length].
        rewrite !b64_char_url_safe by (unfold is_byte in *; Z.div_mod_to_equations; lia).
        split; reflexivity.
      + inversion Hb as [|? ? Hx Hb1]; subst. inversion Hb1 as [|? ? Hy _]; subst.
        cbn [encode forallb length].
        rewrite !b64_char_url_safe by (unfold is_byte in *; Z.div_mod_to_equations; lia).
        split; reflexivity.
      + inversion Hb as [|? ? Hx Hb1]; subst. inversion Hb1 as [|? ? Hy Hb2]; subst.
        inversion Hb2 as [|? ? Hz Hb3]; subst.
        cbn [encode forallb length].
        rewrite !b64_char_url_safe by (unfold is_byte in *; Z.div_mod_to_equations; lia).
        destruct (IH r) as (H1 & H2); [cbn in Hn; lia|assumption|].
        rewrite H1. split; [reflexivity|].
        change (S (S (S (S (length (encode r)))))) with (4 + length (encode r))%nat.
        rewrite <- Nat.Div0.add_mod_idemp_l. cbn. exact H2. }
  intros H. now apply (Hind (length bs)).
Qed.

(** X11. The text [encode_payload] returns for a representable payload
    is made of the characters A-Z, a-z, 0-9, [-], [_] and [=] only, and
    its length is a multiple of four. *)
Theorem encode_payload_url_safe (data : Dict.dict pyval) :
  representable (VDict data) = true ->
  exists encoded,
    encode_payload data = Returned encoded
    /\ forallb url_safe encoded = true
    /\ (length encoded mod 4 = 0)%nat.
Proof.
  intros Hr.
  pose proof (dumps_ascii (VDict data) Hr) as Ha.
  pose proof (ascii_is_bytes _ Ha) as Hb.
  pose proof (encode_is_ascii _ Hb) as He.
  destruct (encode_url_safe _ Hb) as (H1 & H2).
  exists (encode (dumps (VDict data))). split; [|split; assumption].
  unfold encode_payload. rewrite (encode_utf8_ascii _ Ha). cbn [bind].
  unfold urlsafe_b64encode. now apply decode_utf8_ascii.
Qed.

(** X12. The encoded payload does not depend on the order in which the
    dictionary holds its keys. *)
Theorem encode_payload_canonical (data data' : Dict.dict pyval) :
  Permutation data data' -> NoDup (Dict.keys data) ->
  encode_payload data = encode_payload data'.
Proof.
  intros HP Hnd. unfold encode_payload.
  now rewrite !dumps_dict, (sorted_items_permutation _ _ HP Hnd).
Qed.

End EncodedPayload.

Lemma encode_payload_url_safe_witness :
  exists encoded,
    QrPayload.encode_payload Payloads.nested = Returned encoded
    /\ forallb UrlSafe.url_safe encoded = true
    /\ (length encoded mod 4 = 0)%nat.
Proof.
  apply (encode_payload_url_safe Payloads.nested). vm_compute. reflexivity.
Defined.

Lemma encode_payload_canonical_witness :
  QrPayload.encode_payload Payloads.nested = QrPayload.encode_payload (rev Payloads.nested).
Proof.
  apply (encode_payload_canonical Payloads.nested (rev Payloads.nested)).
  - apply Permutation_rev.
  - unfold Dict.keys. cbn [Payloads.nested map fst].
    repeat (constructor; [cbn [In]; intros H;
                          repeat (destruct H as [H|H]; [discriminate H|]); exact H|]).
    constructor.
Defined.

(** ** Decoding text that is not what [encode_payload] wrote *)

Section TolerantDecoding.

Import Values Json Representable QrPayload Base64 UrlSafe.

Lemma a2b_loop_skips s1 c s2 :
  foreign c = true ->
  forall q l pads,
    a2b_loop (map translate (s1 ++ c :: s2)) q l pads
    = a2b_loop (map translate (s1 ++ s2)) q l pads.
Proof.
  intros Hc. unfold foreign in Hc.
  destruct (b64_value (translate c)) eqn:Ev; [discriminate|].
  apply negb_true_iff in Hc.
  assert (Ht : (translate c =? 61) = false).
  { unfold translate in *. destruct (c =? 45) eqn:E1; [reflexivity|].
    destruct (c =? 95) eqn:E2; [reflexivity|exact Hc]. }
  induction s1 as [|h s1 IH]; intros q l pads.
  - cbn [app map a2b_loop]. now rewrite Ht, Ev.
  - cbn [app map a2b_loop].
    destruct (translate h =? 61).
    + destruct (2 <=? q); [|apply IH].
      destruct (4 <=? q + (pads + 1)); [reflexivity|apply IH].
    + destruct (b64_value (translate h)); [|apply IH].
      destruct (q =? 0); [apply IH|].
      destruct (q =? 1); [now rewrite IH|].
      destruct (q =? 2); now rewrite IH.
Qed.

Lemma encode_utf8_app s1 s2 b1 b2 :
  encode_utf8 s1 = Returned b1 -> encode_utf8 s2 = Returned b2 ->
  encode_utf8 (s1 ++ s2) = Returned (b1 ++ b2).
Proof.
  revert b1. induction s1 as [|c s1 IH]; intros b1 H1 H2.
  - cbn in H1. injection H1 as <-. exact H2.
  - cbn [app encode_utf8] in *. destruct (utf8_char c) as [b|]; [|discriminate].
    cbn [bind] in *. destruct (encode_utf8 s1) as [bs|]; [|discriminate].
    cbn [bind] in *. injection H1 as <-.
    rewrite (IH bs eq_refl H2). cbn [bind]. now rewrite app_assoc.
Qed.

(** X13. Decoding skips every ASCII character that belongs to neither
    base64 alphabet and is not the padding character: a blank, a line
    break or a punctuation mark inserted anywhere in an encoded payload
    changes nothing of what [decode_payload] returns or raises. *)
Theorem decode_payload_skips_foreign (s1 s2 : ustr) (c : Z) :
  0 <= c < 128 -> foreign c = true ->
  (exists b1, encode_utf8 s1 = Returned b1) ->
  (exists b2, encode_utf8 s2 = Returned b2) ->
  decode_payload (s1 ++ c :: s2) = decode_payload (s1 ++ s2).
Proof.
  intros Hc Hf (b1 & E1) (b2 & E2). unfold decode_payload.
  assert (Ec : encode_utf8 (c :: s2) = Returned (c :: b2)).
  { cbn [encode_utf8]. rewrite E2. unfold utf8_char.
    replace ((c <? 0) || (1114111 <? c)) with false by lia.
    replace (c <? 128) with true by lia. reflexivity. }
  rewrite (encode_utf8_app _ _ _ _ E1 Ec), (encode_utf8_app _ _ _ _ E1 E2).
  cbn [bind]. unfold urlsafe_b64decode.
  now rewrite (a2b_loop_skips b1 c b2 Hf).
Qed.

End TolerantDecoding.

Lemma decode_payload_skips_foreign_witness :
  QrPayload.decode_payload (str "eyJhIjox" ++ 10 :: str "fQ==")
  = QrPayload.decode_payload (str "eyJhIjox" ++ str "fQ==").
Proof.
  apply (decode_payload_skips_foreign (str "eyJhIjox") (str "fQ==") 10).
  - lia.
  - reflexivity.
  - eexists. reflexivity.
  - eexists. reflexivity.
Defined.

Section MissingPadding.

Import Values Json Representable QrPayload Base64 UrlSafe.

Ltac sextet := unfold is_byte in *; Z.div_mod_to_equations; lia.

Lemma b64_char_not_61 v : 0 <= v < 64 -> b64_char v <> 61.
Proof.
  intros H. apply in_range_In in H. cbn in H.
  repeat (destruct H as [<-|H]; [discriminate|]). destruct H.
Qed.

(** Without its last padding character, or without both, base64 text
    cannot be decoded. *)
Lemma a2b_loop_unpadded bs :
  Forall is_byte bs ->
  forall body,
    encode bs = body ++ [61] \/ encode bs = body ++ [61; 61] ->
    a2b_loop (map translate body) 0 0 0 = Raised BinasciiError.
Proof.
  assert (Hind : forall n bs, (length bs <= n)%nat -> Forall is_byte bs ->
                 forall body,
                   encode bs = body ++ [61] \/ encode bs = body ++ [61; 61] ->
                   a2b_loop (map translate body) 0 0 0 = Raised BinasciiError).
  { clear bs. induction n as [|n IH]; intros bs Hn Hb body HE.
    - destruct bs; [|cbn in Hn; lia].
      destruct HE as [HE|HE]; destruct body; discriminate.
    - destruct bs as [|x [|y [|z r]]].
      + destruct HE as [HE|HE]; destruct body; discriminate.
      + inversion Hb as [|? ? Hx _]; subst. cbn [encode] in HE.
        assert (Eb : body = [b64_char (x / 4); b64_char (x mod 4 * 16); 61]
                     \/ body = [b64_char (x / 4); b64_char (x mod 4 * 16)]).
        { destruct HE as [HE|HE].
          - left. change [?a; ?b; 61; 61] with ([a; b; 61] ++ [61]) in HE.
            now apply app_inj_tail in HE.
          - right. change [?a; ?b; 61; 61] with ([a; b] ++ [61; 61]) in HE.
            symmetry. now apply app_inv_tail in HE. }
        destruct Eb as [-> | ->]; cbn [map];
          rewrite (a2b_step0 _ (x / 4)) by (try reflexivity; sextet);
          rewrite (a2b_step1 _ (x mod 4 * 16)) by (try reflexivity; sextet);
          reflexivity.
      + inversion Hb as [|? ? Hx Hb1]; subst. inversion Hb1 as [|? ? Hy _]; subst.
        cbn [encode] in HE.
        assert (Eb : body = [b64_char (x / 4); b64_char (x mod 4 * 16 + y / 16);
                             b64_char (y mod 16 * 4)]).
        { destruct HE as [HE|HE].
          - change [?a; ?b; ?c; 61] with ([a; b; c] ++ [61]) in HE.
            symmetry. now apply app_inj_tail in HE.
          - exfalso. change [?a; ?b; ?c; 61] with ([a; b; c] ++ [61]) in HE.
            change (body ++ [61; 61]) with (body ++ [61] ++ [61]) in HE.
            rewrite app_assoc in HE. apply app_inj_tail in HE. destruct HE as (HE & _).
            change [?a; ?b; ?c] with ([a; b] ++ [c]) in HE.
            apply app_inj_tail in HE. destruct HE as (_ & HE).
            apply (b64_char_not_61 (y mod 16 * 4)); [sextet|exact HE]. }
        subst body. cbn [map].
        rewrite (a2b_step0 _ (x / 4)) by (try reflexivity; sextet).
        rewrite (a2b_step1 _ (x mod 4 * 16 + y / 16)) by (try reflexivity; sextet).
        rewrite (a2b_step2 _ (y mod 16 * 4)) by (try reflexivity; sextet).
        reflexivity.
      + inversion Hb as [|? ? Hx Hb1]; subst. inversion Hb1 as [|? ? Hy Hb2]; subst.
        inversion Hb2 as [|? ? Hz Hb3]; subst.
        cbn [encode] in HE.
        assert (Eb : exists body',
                   body = b64_char (x / 4) :: b64_char (x mod 4 * 16 + y / 16)
                          :: b64_char (y mod 16 * 4 + z / 64) :: b64_char (z mod 64) :: body'
                   /\ (encode r = body' ++ [61] \/ encode r = body' ++ [61; 61])).
        { assert (H1 : b64_char (x / 4) <> 61) by (apply b64_char_not_61; sextet).
          assert (H2 : b64_char (x mod 4 * 16 + y / 16) <> 61)
            by (apply b64_char_not_61; sextet).
          assert (H3 : b64_char (y mod 16 * 4 + z / 64) <> 61)
            by (apply b64_char_not_61; sextet).
          assert (H4 : b64_char (z mod 64) <> 61) by (apply b64_char_not_61; sextet).
          destruct body as [|c1 [|c2 [|c3 [|c4 body']]]]; cbn [app] in HE;
            try (destruct HE as [HE|HE]; injection HE; intros; subst; congruence).
          exists body'. destruct HE as [HE|HE]; injection HE as <- <- <- <- HE;
            (split; [reflexivity|]); [now left|now right]. }
        destruct Eb as (body' & -> & HE'). cbn [map].
        rewrite (a2b_step0 _ (x / 4)) by (try reflexivity; sextet).
        rewrite (a2b_step1 _ (x mod 4 * 16 + y / 16)) by (try reflexivity; sextet).
        rewrite (a2b_step2 _ (y mod 16 * 4 + z / 64)) by (try reflexivity; sextet).
        rewrite (a2b_step3 _ (z mod 64)) by (try reflexivity; sextet).
        rewrite (IH r) with (body := body'); [reflexivity|cbn in Hn; lia|assumption|assumption]. }
  intros H. now apply (Hind (length bs)).
Qed.

(** X14. An encoded payload that has lost padding is not decoded: when
    the text [encode_payload] returns ends with one or two [=] and the
    last one, or both, are removed, [decode_payload] raises
    [binascii.Error]. *)
Theorem decode_payload_needs_padding (data : Dict.dict pyval) (body : ustr) :
  representable (VDict data) = true ->
  encode_payload data = Returned (body ++ [61])
  \/ encode_payload data = Returned (body ++ [61; 61]) ->
  decode_payload body = Raised BinasciiError.
Proof.
  intros Hr HE.
  pose proof (dumps_ascii (VDict data) Hr) as Ha.
  pose proof (ascii_is_bytes _ Ha) as Hb.
  pose proof (encode_is_ascii _ Hb) as He.
  assert (Henc : encode_payload data = Returned (encode (dumps (VDict data)))).
  { unfold encode_payload. rewrite (encode_utf8_ascii _ Ha). cbn [bind].
    unfold urlsafe_b64encode. now apply decode_utf8_ascii. }
  rewrite Henc in HE.
  assert (HE' : encode (dumps (VDict data)) = body ++ [61]
                \/ encode (dumps (VDict data)) = body ++ [61; 61])
    by (destruct HE as [HE|HE]; [left|right]; congruence).
  assert (Hbody : is_ascii body = true).
  { destruct HE' as [E|E]; rewrite E, is_ascii_app in He;
      apply andb_true_iff in He; tauto. }
  unfold decode_payload. rewrite (encode_utf8_ascii _ Hbody). cbn [bind].
  unfold urlsafe_b64decode. now rewrite (a2b_loop_unpadded _ Hb body HE').
Qed.

End MissingPadding.

Lemma decode_payload_needs_padding_witness :
  QrPayload.decode_payload (str "eyJhIjoiXHVkODNkXHVkZTAwIn0") = Raised BinasciiError.
Proof.
  apply (decode_payload_needs_padding Payloads.emoji (str "eyJhIjoiXHVkODNkXHVkZTAwIn0")).
  - reflexivity.
  - left. vm_compute. reflexivity.
Defined.
